(** * rksync gossip service: a shallow embedding of gossip/service.go

    The file follows the Go source top to bottom.  Wire messages are the
    records of protos/rksync.proto; Go pointers that the code tests against
    nil are [option]s; the service is a record threaded through a small
    state monad whose results distinguish a normal return from a panic or a
    fatal log call.  What service.go calls in packages outside this
    development (parsing, signing and verification, the message store, the
    per-channel state, peer selection, digests, PEM) is gathered in the
    [Collaborators] interface; the few helpers whose meaning the
    specification fixes are defined here and marked as such. *)

From Stdlib Require Import ZArith List String Ascii Bool Lia.
From Stdlib.Strings Require Import Byte.
From stdpp Require Import base option list strings gmap.

Local Open Scope string_scope.
Local Open Scope Z_scope.
Local Open Scope list_scope.

(** ** Byte slices *)

(** [bytes.Equal]: same length and same bytes; a nil slice equals an empty
    one, which the list model gives for free. *)
Fixpoint bytes_Equal (a b : list byte) : bool :=
  match a, b with
  | [], [] => true
  | x :: a', y :: b' => Byte.eqb x y && bytes_Equal a' b'
  | _, _ => false
  end.

Definition hex_digit (n : N) : ascii :=
  match n with
  | 0%N => "0" | 1%N => "1" | 2%N => "2" | 3%N => "3"
  | 4%N => "4" | 5%N => "5" | 6%N => "6" | 7%N => "7"
  | 8%N => "8" | 9%N => "9" | 10%N => "a" | 11%N => "b"
  | 12%N => "c" | 13%N => "d" | 14%N => "e" | _ => "f"
  end%char.

(** [hex.EncodeToString]: two lower-case digits per byte. *)
Fixpoint hex_EncodeToString (b : list byte) : string :=
  match b with
  | [] => ""
  | x :: b' =>
      let n := Byte.to_N x in
      String (hex_digit (n / 16)) (String (hex_digit (n mod 16)) (hex_EncodeToString b'))
  end.

(** ** Errors ([github.com/pkg/errors]) *)

Inductive error : Type :=
| errors_New (message : string)
| errors_Errorf (format : string) (args : list fmt_arg)
| errors_Wrapf (cause : error) (format : string) (args : list fmt_arg)
with fmt_arg : Type :=
| arg_string (s : string)
| arg_bytes (b : list byte)
| arg_error (e : error).

Definition errors_Wrap (cause : error) (message : string) : error :=
  errors_Wrapf cause message [].

(** A Go [(value, error)] pair. *)
Inductive result (A : Type) : Type :=
| Ok (a : A)
| Err (e : error).
Arguments Ok {A} a.
Arguments Err {A} e.

(** ** Wire messages (protos/rksync.proto) *)

Module protos.

Inductive RKSyncMessage_Tag := EMPTY | CHAN_ONLY.

Record Envelope := {
  Payload : list byte;
  Signature : list byte }.

Record ConnEstablish := {
  ConnEstablish_PkiId : list byte;
  ConnEstablish_Identity : list byte }.

Record PeerTime := {
  IncNum : N;
  SeqNum : N }.

Record Member := {
  Endpoint : string;
  PkiId : list byte }.

Record AliveMessage := {
  Membership : option Member;
  Timestamp : option PeerTime;
  Identity : list byte }.

Record Acknowledgement := { Error : string }.

Record MembershipRequest := {
  SelfInformation : option Envelope;
  Known : list (list byte) }.

Record MembershipResponse := {
  Alive : list Envelope;
  Dead : list Envelope }.

Record ChainState := {
  ChainState_SeqNum : N;
  ChainMac : list byte;
  ChainState_Envelope : option Envelope }.

Inductive File_Mode := Append | Random.

Record File := {
  Path : string;
  Mode : File_Mode }.

Record Properties := {
  Members : list (list byte);
  Files : list File }.

Record ChainStateInfo := {
  Leader : list byte;
  ChainStateInfo_Properties : option Properties }.

Record ChainStatePullResponse := { Element : option Envelope }.

Record ChainStatePullRequest := { PullRequest_ChainMac : list byte }.

(** The [content] oneof; [Content_unset] is the nil interface value. *)
Inductive isRKSyncMessage_Content :=
| Content_unset
| RKSyncMessage_AliveMsg (AliveMsg : AliveMessage)
| RKSyncMessage_Empty
| RKSyncMessage_Conn (Conn : ConnEstablish)
| RKSyncMessage_Ack (Ack : Acknowledgement)
| RKSyncMessage_MemReq (MemReq : MembershipRequest)
| RKSyncMessage_MemRes (MemRes : MembershipResponse)
| RKSyncMessage_State (State : ChainState)
| RKSyncMessage_StatePullRequest (StatePullRequest : ChainStatePullRequest)
| RKSyncMessage_StatePullResponse (StatePullResponse : ChainStatePullResponse)
| RKSyncMessage_StateInfo (StateInfo : ChainStateInfo).

Record RKSyncMessage := {
  Nonce : N;
  Channel : list byte;
  Tag : RKSyncMessage_Tag;
  Content : isRKSyncMessage_Content }.

(** Generated getters: the variant's payload, or nil for another variant. *)
Definition GetAliveMsg (m : RKSyncMessage) : option AliveMessage :=
  match Content m with RKSyncMessage_AliveMsg x => Some x | _ => None end.
Definition GetEmpty (m : RKSyncMessage) : option unit :=
  match Content m with RKSyncMessage_Empty => Some tt | _ => None end.
Definition GetConn (m : RKSyncMessage) : option ConnEstablish :=
  match Content m with RKSyncMessage_Conn x => Some x | _ => None end.
Definition GetMemReq (m : RKSyncMessage) : option MembershipRequest :=
  match Content m with RKSyncMessage_MemReq x => Some x | _ => None end.
Definition GetMemRes (m : RKSyncMessage) : option MembershipResponse :=
  match Content m with RKSyncMessage_MemRes x => Some x | _ => None end.
Definition GetState (m : RKSyncMessage) : option ChainState :=
  match Content m with RKSyncMessage_State x => Some x | _ => None end.

(** A message together with the envelope it was parsed from or signed
    into.  The envelope pointer is nil until the message is signed. *)
Record SignedRKSyncMessage := {
  Signed_Envelope : option Envelope;
  Signed_RKSyncMessage : RKSyncMessage }.

(** Modelled from the spec: the protos extension methods are not among the
    sources.  An alive message is one whose content is an AliveMessage
    (the signed heartbeat of the glossary). *)
Definition IsAliveMsg (m : SignedRKSyncMessage) : bool :=
  match GetAliveMsg (Signed_RKSyncMessage m) with Some _ => true | None => false end.

(** Modelled from the spec: the protos extension methods are not among the
    sources.  A chain-state message is one whose content is a ChainState
    (the signed, versioned declaration of the glossary). *)
Definition IsChainStateMsg (m : SignedRKSyncMessage) : bool :=
  match GetState (Signed_RKSyncMessage m) with Some _ => true | None => false end.

Definition with_Envelope (e : option Envelope) (m : SignedRKSyncMessage) : SignedRKSyncMessage :=
  {| Signed_Envelope := e; Signed_RKSyncMessage := Signed_RKSyncMessage m |}.

Definition with_Content (c : isRKSyncMessage_Content) (m : RKSyncMessage) : RKSyncMessage :=
  {| Nonce := Nonce m; Channel := Channel m; Tag := Tag m; Content := c |}.

Record ConnectionInfo := {
  ID : list byte;
  ConnectionInfo_Identity : list byte }.

(** [protos.ReceivedMessage]: both accessors may answer nil. *)
Record ReceivedMessage := {
  GetRKSyncMessage : option SignedRKSyncMessage;
  GetConnectionInfo : option ConnectionInfo }.

End protos.
Import protos.

(** A pointer compared against nil. *)
Definition not_nil {A : Type} (p : option A) : bool :=
  match p with Some _ => true | None => false end.

(** [proto.Clone]: a deep copy; without aliasing it is the same value. *)
Definition proto_Clone {A : Type} (x : A) : A := x.

(** ** package common *)

Module common.

Record NetworkMember := {
  NetworkMember_Endpoint : string;
  PKIID : list byte }.

(** Modelled from the spec: package common is not among the sources.  The
    "not sender" filter of section 4.7 accepts every PKI-id but the
    receiver's own. *)
Definition IsNotSameFilter (id that : list byte) : bool :=
  negb (bytes_Equal id that).

End common.
Import common.

(** ** package filter *)

Module filter.

Definition RoutingFilter := NetworkMember -> bool.

Definition SelectAllPolicy : RoutingFilter := fun _ => true.

(** Modelled from the spec: package filter is not among the sources.
    Routing filters compose as predicates; the combination accepts a
    member when every filter does. *)
Definition CombineRoutingFilters (filters : list RoutingFilter) : RoutingFilter :=
  fun member => forallb (fun f => f member) filters.

End filter.
Import filter.

(** ** Values the service passes around *)

Record emittedRKSyncMessage := {
  emitted_msg : SignedRKSyncMessage;
  emitted_filter : list byte -> bool }.

Record pem_Block := {
  pem_Type : string;
  pem_Bytes : list byte }.

Record x509_Certificate := { Raw : list byte }.

Record GossipConfig := {
  conf_Endpoint : string;
  PropagateIterations : Z;
  PropagatePeerNum : Z;
  PullPeerNum : Z }.

(** Why a call did not return. *)
Inductive abort : Type :=
| nil_dereference
| panic (e : error)
| close_of_closed_channel
| logging_Fatal (message : string).

Inductive outcome (A : Type) : Type :=
| Returns (a : A)
| Aborts (why : abort).
Arguments Returns {A} a.
Arguments Aborts {A} why.

Definition Sieve := SignedRKSyncMessage -> outcome bool.
Definition EnvelopeFilter := SignedRKSyncMessage -> option Envelope.
Definition DisclosurePolicy := NetworkMember -> Sieve * EnvelopeFilter.


(** ** Collaborators

    What service.go calls in packages that are outside this development.
    Each field has the signature of the Go function; a pointer receiver that
    may be nil is an [option].  Random choices ([SelectPeers]) are a fixed
    but arbitrary function. *)
Class Collaborators := {
  (** [util.ComputeSHA256] *)
  ComputeSHA256 : list byte -> list byte;
  (** [pem.EncodeToMemory]: nil when the block cannot be encoded *)
  pem_EncodeToMemory : pem_Block -> option (list byte);
  (** [RKSyncMessage.IsTagLegal] *)
  IsTagLegal : RKSyncMessage -> option error;
  (** [RKSyncMessage.IsChannelRestricted] *)
  IsChannelRestricted : RKSyncMessage -> bool;
  (** [Envelope.ToRKSyncMessage] *)
  ToRKSyncMessage : option Envelope -> result SignedRKSyncMessage;
  (** [proto.Marshal] on the inner message, as the signing path uses it *)
  proto_Marshal : RKSyncMessage -> result (list byte);
  (** [SignedRKSyncMessage.Verify], given the PKI-id and a verifier *)
  Verify : SignedRKSyncMessage -> list byte ->
           (list byte -> list byte -> list byte -> option error) -> option error;
  (** [ChainState.GetChainStateInfo] *)
  GetChainStateInfo : option ChainState -> result ChainStateInfo;
  (** [identity.Identity.Verify] *)
  idMapper_Verify : list byte -> list byte -> list byte -> option error;
  (** [lib.MessageStore] and its [Add] *)
  MessageStore : Type;
  MessageStore_Add : MessageStore -> SignedRKSyncMessage -> bool * MessageStore;
  (** [channel.Channel]: the per-channel state and the methods used here *)
  Channel_ : Type;
  NewChannel : string -> bool -> Channel_;
  IsMemberInChan : Channel_ -> NetworkMember -> bool;
  InitializeWithChainState : Channel_ -> ChainState -> Channel_ * option error;
  Channel_HandleMessage : Channel_ -> ReceivedMessage -> Channel_;
  (** [channelState.lookupChannelForMsg]: the chain id of the channel *)
  lookupChannelForMsg : gmap string Channel_ -> ReceivedMessage -> option string;
  (** [filter.SelectPeers] *)
  SelectPeers : Z -> list NetworkMember -> RoutingFilter -> list NetworkMember;
  (** [discovery.Discovery]: only its membership view is read *)
  Discovery : Type;
  GetMembership : Discovery -> list NetworkMember }.

(** Modelled from the spec: package channel is not among the sources.  The
    channel MAC is SHA256(pkiID ‖ chainID) (section 3, Channel). *)
Definition GenerateMAC `{Collaborators} (pkiID : list byte) (chainID : string) : list byte :=
  ComputeSHA256 (pkiID ++ list_byte_of_string chainID).

(** Modelled from the spec: the signing methods of package protos are not
    among the sources.  Signing serialises the inner message into the
    envelope payload; the no-op signer contributes an empty signature and
    the receiver is handed back with its envelope set. *)
Definition NoopSign `{Collaborators} (m : SignedRKSyncMessage) : result SignedRKSyncMessage :=
  match proto_Marshal (Signed_RKSyncMessage m) with
  | Err e => Err e
  | Ok payload =>
      Ok (with_Envelope (Some {| Payload := payload; Signature := [] |}) m)
  end.

(** ** The service *)

(** Calls the service makes on its collaborators, in program order. *)
Inductive Call : Type :=
| emitter_Add (e : emittedRKSyncMessage)
| chainStateMsgStore_Add (msg : SignedRKSyncMessage)
| chanState_joinChannel (chainID : string) (leader : bool)
| gc_HandleMessage (chainID : string) (m : ReceivedMessage)
| gc_InitializeWithChainState (chainID : string) (chainState : ChainState)
| incChan_send (m : ReceivedMessage)
| srv_Send (msg : SignedRKSyncMessage) (peers : list NetworkMember)
| disc_Stop
| chanState_stop
| toDieChan_send
| emitter_Stop
| ChannelDeMultiplexer_Close
| stopSignal_Wait
| srv_Stop.

Record discoveryAdapter := {
  stopping : Z;
  incChan_closed : bool;
  da_disclosurePolicy : DisclosurePolicy }.

Record gossipService `{Collaborators} := {
  id : string;
  selfPKIid : list byte;
  conf : GossipConfig;
  disc : option Discovery;
  stopFlag : Z;
  discAdapter : discoveryAdapter;
  chanState : gmap string Channel_;
  chainStateMsgStore : MessageStore;
  calls : list Call }.

Section setters.
Context `{Collaborators}.

Definition set_stopFlag (v : Z) (g : gossipService) : gossipService :=
  {| id := id g; selfPKIid := selfPKIid g; conf := conf g; disc := disc g;
     stopFlag := v; discAdapter := discAdapter g; chanState := chanState g;
     chainStateMsgStore := chainStateMsgStore g; calls := calls g |}.

Definition set_discAdapter (v : discoveryAdapter) (g : gossipService) : gossipService :=
  {| id := id g; selfPKIid := selfPKIid g; conf := conf g; disc := disc g;
     stopFlag := stopFlag g; discAdapter := v; chanState := chanState g;
     chainStateMsgStore := chainStateMsgStore g; calls := calls g |}.

Definition set_chanState (v : gmap string Channel_) (g : gossipService) : gossipService :=
  {| id := id g; selfPKIid := selfPKIid g; conf := conf g; disc := disc g;
     stopFlag := stopFlag g; discAdapter := discAdapter g; chanState := v;
     chainStateMsgStore := chainStateMsgStore g; calls := calls g |}.

Definition set_chainStateMsgStore (v : MessageStore) (g : gossipService) : gossipService :=
  {| id := id g; selfPKIid := selfPKIid g; conf := conf g; disc := disc g;
     stopFlag := stopFlag g; discAdapter := discAdapter g; chanState := chanState g;
     chainStateMsgStore := v; calls := calls g |}.

Definition set_calls (v : list Call) (g : gossipService) : gossipService :=
  {| id := id g; selfPKIid := selfPKIid g; conf := conf g; disc := disc g;
     stopFlag := stopFlag g; discAdapter := discAdapter g; chanState := chanState g;
     chainStateMsgStore := chainStateMsgStore g; calls := v |}.

End setters.

(** ** The monad of service methods: state, with panics *)

Definition M `{Collaborators} (A : Type) : Type :=
  gossipService -> outcome A * gossipService.

Section monad.
Context `{Collaborators}.

Definition ret {A} (a : A) : M A := fun g => (Returns a, g).

Definition bind {A B} (m : M A) (k : A -> M B) : M B :=
  fun g =>
    match m g with
    | (Returns a, g') => k a g'
    | (Aborts why, g') => (Aborts why, g')
    end.

Definition get : M gossipService := fun g => (Returns g, g).
Definition gets {A} (f : gossipService -> A) : M A := fun g => (Returns (f g), g).
Definition modify (f : gossipService -> gossipService) : M unit :=
  fun g => (Returns tt, f g).
Definition raise {A} (why : abort) : M A := fun g => (Aborts why, g).

(** Following a pointer: a nil one panics. *)
Definition deref {A} (p : option A) : M A :=
  match p with
  | Some a => ret a
  | None => raise nil_dereference
  end.

(** Record a call on a collaborator. *)
Definition call (c : Call) : M unit :=
  modify (fun g => set_calls (calls g ++ [c]) g).

(** A [for _, x := range l] loop. *)
Fixpoint for_range {A} (l : list A) (body : A -> M unit) : M unit :=
  match l with
  | [] => ret tt
  | x :: l' => bind (body x) (fun _ => for_range l' body)
  end.

End monad.

Notation "x <- m ;; k" := (bind m (fun x => k))
  (at level 100, m at next level, right associativity).
Notation "m ;;; k" := (bind m (fun _ => k))
  (at level 100, right associativity).

(** ** Methods of gossipService and discoveryAdapter *)

Section service.
Context `{Collaborators}.

Definition toDie (g : gossipService) : bool := stopFlag g =? 1.

Definition da_toDie (da : discoveryAdapter) : bool := stopping da =? 1.

Definition Peers : M (list NetworkMember) :=
  g <- get;;
  if toDie g then ret []
  else
    d <- deref (disc g);;
    ret (GetMembership d).

(** Modelled from the spec: the channel registry of package gossip's
    channelState is not among the sources.  [joinChannel] creates the
    per-channel state if absent and is idempotent; the call is recorded. *)
Definition joinChannel (chainID : string) (leader : bool) : M string :=
  call (chanState_joinChannel chainID leader);;;
  g <- get;;
  match chanState g !! chainID with
  | Some _ => ret chainID
  | None =>
      modify (set_chanState (<[chainID := NewChannel chainID leader]> (chanState g)));;;
      ret chainID
  end.

Definition getChannelByChainID (g : gossipService) (chainID : string) : option Channel_ :=
  chanState g !! chainID.

(** The channel a message belongs to, as a key of the registry. *)
Definition lookupChannel (g : gossipService) (m : ReceivedMessage) : option string :=
  match lookupChannelForMsg (chanState g) m with
  | Some chainID =>
      match chanState g !! chainID with
      | Some _ => Some chainID
      | None => None
      end
  | None => None
  end.

(** [gc.HandleMessage(m)] on the channel registered under [chainID]. *)
Definition HandleMessage (chainID : string) (m : ReceivedMessage) : M unit :=
  call (gc_HandleMessage chainID m);;;
  modify (fun g => set_chanState (alter (fun gc => Channel_HandleMessage gc m) chainID (chanState g)) g).

Definition InitializeChannel (chainID : string) (chainState : ChainState) : M (option error) :=
  if String.eqb chainID "" then
    ret (Some (errors_New "Channel ID must be provided"))
  else
    g <- get;;
    if toDie g then
      ret (Some (errors_New "RKSync service is stopping"))
    else
      let mac := GenerateMAC (selfPKIid g) chainID in
      if negb (bytes_Equal (ChainMac chainState) mac) then
        ret (Some (errors_Errorf "Channel MAC doesn't match, expected: %s, actual: %s"
                     [arg_string (hex_EncodeToString mac);
                      arg_string (hex_EncodeToString (ChainMac chainState))]))
      else
        match ToRKSyncMessage (ChainState_Envelope chainState) with
        | Err err =>
            ret (Some (errors_Wrapf err "Failed to parse channel %s state information"
                         [arg_string chainID]))
        | Ok signedMsg =>
            match Verify signedMsg (selfPKIid g)
                    (fun peerIdentity signature message =>
                       idMapper_Verify peerIdentity signature message) with
            | Some err =>
                ret (Some (errors_Wrapf err
                             "Failed verifying %s chain state information signature: %s"
                             [arg_string chainID; arg_error err]))
            | None =>
                match GetChainStateInfo (Some chainState) with
                | Err err =>
                    ret (Some (errors_Errorf "Channel %s: state information format error: %s"
                                 [arg_string chainID; arg_error err]))
                | Ok stateInfo =>
                    if negb (bytes_Equal (Leader stateInfo) (selfPKIid g)) then
                      ret (Some (errors_Errorf
                                   "Channel %s: current peer's PKI-ID (%s) doesn't match the leader PKI-ID (%s)"
                                   [arg_string chainID; arg_bytes (selfPKIid g);
                                    arg_bytes (Leader stateInfo)]))
                    else
                      gc <- joinChannel chainID true;;
                      g' <- get;;
                      match chanState g' !! gc with
                      | None => raise nil_dereference
                      | Some ch =>
                          call (gc_InitializeWithChainState gc chainState);;;
                          let (ch', err) := InitializeWithChainState ch chainState in
                          modify (set_chanState (<[gc := ch']> (chanState g')));;;
                          ret err
                      end
                end
            end
        end.

Definition GetPKIidOfCert (nodeID : string) (cert : x509_Certificate) : result (list byte) :=
  let nodeIDRaw := list_byte_of_string nodeID in
  let pb := {| pem_Bytes := Raw cert; pem_Type := "CERTIFICATE" |} in
  match pem_EncodeToMemory pb with
  | None => Err (errors_New "Encoding of certificate failed")
  | Some pemBytes =>
      let raw := nodeIDRaw ++ pemBytes in
      let digest := ComputeSHA256 raw in
      Ok digest
  end.

Definition set_stopping (v : Z) (da : discoveryAdapter) : discoveryAdapter :=
  {| stopping := v; incChan_closed := incChan_closed da;
     da_disclosurePolicy := da_disclosurePolicy da |}.

Definition set_incChan_closed (v : bool) (da : discoveryAdapter) : discoveryAdapter :=
  {| stopping := stopping da; incChan_closed := v;
     da_disclosurePolicy := da_disclosurePolicy da |}.

(** [discoveryAdapter.close]: raise the flag, then close the inbound
    channel; closing a closed channel panics. *)
Definition da_close : M unit :=
  modify (fun g => set_discAdapter (set_stopping 1 (discAdapter g)) g);;;
  g <- get;;
  if incChan_closed (discAdapter g) then raise close_of_closed_channel
  else modify (fun g => set_discAdapter (set_incChan_closed true (discAdapter g)) g).

Definition Stop : M unit :=
  g <- get;;
  if toDie g then ret tt
  else
    modify (set_stopFlag 1);;;
    da_close;;;
    _ <- deref (disc g);;
    call disc_Stop;;;
    call chanState_stop;;;
    call toDieChan_send;;;
    call emitter_Stop;;;
    call ChannelDeMultiplexer_Close;;;
    call stopSignal_Wait;;;
    call srv_Stop.

(** The loop of [partitionMessages]: append to the first slice when the
    predicate holds, to the second otherwise. *)
Definition partitionMessages (pred : emittedRKSyncMessage -> bool)
    (a : list emittedRKSyncMessage) : list emittedRKSyncMessage * list emittedRKSyncMessage :=
  fold_left (fun '(s1, s2) m => if pred m then (s1 ++ [m], s2) else (s1, s2 ++ [m]))
            a ([], []).

Definition gossipBatch (msgs : list emittedRKSyncMessage) : M unit :=
  g <- get;;
  match disc g with
  | None => ret tt
  | Some d =>
      let isAChainStateMsg := fun o => IsChainStateMsg (emitted_msg o) in
      let '(chainStateMsgs, msgs) := partitionMessages isAChainStateMsg msgs in
      for_range chainStateMsgs (fun chainStateMsg =>
        g <- get;;
        let peerSelector : RoutingFilter :=
          fun member => emitted_filter chainStateMsg (PKIID member) in
        let gc := getChannelByChainID g
                    (string_of_list_byte (Channel (Signed_RKSyncMessage (emitted_msg chainStateMsg)))) in
        let peerSelector :=
          match gc with
          | Some gc => CombineRoutingFilters [peerSelector; IsMemberInChan gc]
          | None => peerSelector
          end in
        let peers2Send := SelectPeers (PropagatePeerNum (conf g)) (GetMembership d) peerSelector in
        call (srv_Send (emitted_msg chainStateMsg) peers2Send));;;
      for_range msgs (fun msg =>
        if negb (IsAliveMsg (emitted_msg msg)) then ret tt
        else
          g <- get;;
          let selector :=
            CombineRoutingFilters
              [SelectAllPolicy; fun member => emitted_filter msg (PKIID member)] in
          let peers2Send := SelectPeers (PropagatePeerNum (conf g)) (GetMembership d) selector in
          call (srv_Send (emitted_msg msg) peers2Send))
  end.

Definition sendGossipBatch (a : list emittedRKSyncMessage) : M unit :=
  gossipBatch a.

(** [validateMsg]: the tag of the message must be legal. *)
Definition validateMsg (msg : ReceivedMessage) : M bool :=
  sm <- deref (GetRKSyncMessage msg);;
  match IsTagLegal (Signed_RKSyncMessage sm) with
  | Some err => ret false
  | None => ret true
  end.

Definition isInChannel (m : ReceivedMessage) : M bool :=
  msg <- deref (GetRKSyncMessage m);;
  g <- get;;
  match GetChainStateInfo (GetState (Signed_RKSyncMessage msg)) with
  | Err err => ret false
  | Ok chainStateInfo =>
      props <- deref (ChainStateInfo_Properties chainStateInfo);;
      ret (existsb (fun member => bytes_Equal member (selfPKIid g)) (Members props))
  end.

Definition forwardDiscoveryMsg (msg : ReceivedMessage) : M unit :=
  g <- get;;
  if da_toDie (discAdapter g) then ret tt
  else call (incChan_send msg).

Definition selectOnlyDiscoveryMessages (msg : ReceivedMessage) : M bool :=
  sm <- deref (GetRKSyncMessage msg);;
  let alive := GetAliveMsg (Signed_RKSyncMessage sm) in
  let memRes := GetMemRes (Signed_RKSyncMessage sm) in
  let memReq := GetMemReq (Signed_RKSyncMessage sm) in
  let selected := not_nil alive || not_nil memRes || not_nil memReq in
  ret selected.

End service.

Section service_messages.
Context `{Collaborators}.

Definition handleMessage (m : option ReceivedMessage) : M unit :=
  g <- get;;
  if toDie g then ret tt
  else
    match m with
    | None => ret tt
    | Some m =>
        match GetRKSyncMessage m with
        | None => ret tt
        | Some msg =>
            valid <- validateMsg m;;
            if negb valid then ret tt
            else if IsChainStateMsg msg then
              ci <- deref (GetConnectionInfo m);;
              call (emitter_Add {| emitted_msg := msg;
                                   emitted_filter := IsNotSameFilter (ID ci) |});;;
              g <- get;;
              let (added, store) := MessageStore_Add (chainStateMsgStore g) msg in
              call (chainStateMsgStore_Add msg);;;
              modify (set_chainStateMsgStore store);;;
              if added then
                g <- get;;
                gc <- match lookupChannel g m with
                      | Some gc => ret (Some gc)
                      | None =>
                          inChannel <- isInChannel m;;
                          if inChannel then
                            gc <- joinChannel
                                    (string_of_list_byte (Channel (Signed_RKSyncMessage msg)))
                                    false;;
                            ret (Some gc)
                          else ret None
                      end;;
                match gc with
                | Some gc => HandleMessage gc m
                | None => ret tt
                end
              else ret tt
            else if IsChannelRestricted (Signed_RKSyncMessage msg) then
              g <- get;;
              match lookupChannel g m with
              | Some gc => HandleMessage gc m
              | None => ret tt
              end
            else
              selected <- selectOnlyDiscoveryMessages m;;
              if selected then
                match GetMemReq (Signed_RKSyncMessage msg) with
                | Some memReq =>
                    match ToRKSyncMessage (SelfInformation memReq) with
                    | Err err => ret tt
                    | Ok sMsg =>
                        if negb (IsAliveMsg sMsg) then ret tt
                        else
                          am <- deref (GetAliveMsg (Signed_RKSyncMessage sMsg));;
                          membership <- deref (Membership am);;
                          ci <- deref (GetConnectionInfo m);;
                          if negb (bytes_Equal (PkiId membership) (ID ci)) then ret tt
                          else forwardDiscoveryMsg m
                    end
                | None => forwardDiscoveryMsg m
                end
              else ret tt
        end
    end.

(** The default disclosure policy.  [logging.Fatal] does not return. *)
Definition disclosurePolicy (remotePeer : NetworkMember) : Sieve * EnvelopeFilter :=
  (fun msg =>
     if negb (IsAliveMsg msg) then
       Aborts (logging_Fatal "Programing error, this should be used only on alive message")
     else
       match GetAliveMsg (Signed_RKSyncMessage msg) with
       | None => Aborts nil_dereference
       | Some am =>
           match Membership am with
           | None => Aborts nil_dereference
           | Some membership =>
               Returns (negb (String.eqb (Endpoint membership) "")
                        && negb (String.eqb (NetworkMember_Endpoint remotePeer) ""))
           end
       end,
   fun msg =>
     let envelope := proto_Clone (Signed_Envelope msg) in
     envelope).

(** The closures [newDiscoveryAdapter] stores in the adapter; they close
    over the service, here the state of the monad. *)
Definition gossipFunc (msg : SignedRKSyncMessage) : M unit :=
  g <- get;;
  if PropagateIterations (conf g) =? 0 then ret tt
  else call (emitter_Add {| emitted_msg := msg; emitted_filter := fun _ => true |}).

(** The inner message is stored as a pointer in Go; the model follows it
    when the entry is built, where Go would fail at its first use. *)
Definition forwardFunc (msg : ReceivedMessage) : M unit :=
  g <- get;;
  if PropagateIterations (conf g) =? 0 then ret tt
  else
    sm <- deref (GetRKSyncMessage msg);;
    ci <- deref (GetConnectionInfo msg);;
    call (emitter_Add {| emitted_msg := sm; emitted_filter := IsNotSameFilter (ID ci) |}).

Definition newDiscoveryAdapter : discoveryAdapter :=
  {| stopping := 0; incChan_closed := false; da_disclosurePolicy := disclosurePolicy |}.

Definition Gossip (msg : SignedRKSyncMessage) : M unit :=
  g <- get;;
  if da_toDie (discAdapter g) then ret tt
  else gossipFunc msg.

Definition Forward (msg : ReceivedMessage) : M unit :=
  g <- get;;
  if da_toDie (discAdapter g) then ret tt
  else forwardFunc msg.

Definition SendToPeer (peer : NetworkMember) (msg : SignedRKSyncMessage) : M unit :=
  g <- get;;
  let da := discAdapter g in
  if da_toDie da then ret tt
  else
    match GetMemReq (Signed_RKSyncMessage msg) with
    | Some memReq =>
        if negb (Z.of_nat (length (PKIID peer)) =? 0) then
          match ToRKSyncMessage (SelfInformation memReq) with
          | Err err =>
              raise (panic (errors_Wrap err
                              "Tried to send a membership request with a malformed AliveMessage"))
          | Ok selfMsg =>
              let '(_, omitConcealedFields) := da_disclosurePolicy da peer in
              let selfMsg := with_Envelope (omitConcealedFields selfMsg) selfMsg in
              let oldKnown := Known memReq in
              let memReq := {| SelfInformation := Signed_Envelope selfMsg;
                               Known := oldKnown |} in
              let msgCopy := proto_Clone (Signed_RKSyncMessage msg) in
              let msgCopy := with_Content (RKSyncMessage_MemReq memReq) msgCopy in
              match NoopSign {| Signed_RKSyncMessage := msgCopy; Signed_Envelope := None |} with
              | Err err => ret tt
              | Ok msg => call (srv_Send msg [peer])
              end
          end
        else call (srv_Send msg [peer])
    | None => call (srv_Send msg [peer])
    end.

End service_messages.

(** ** Observations on the call log *)

(** The messages handed to [emitter.Add]. *)
Definition emitter_adds (cs : list Call) : list emittedRKSyncMessage :=
  flat_map (fun c => match c with emitter_Add e => [e] | _ => [] end) cs.

(** The messages written to the discovery adapter's inbound channel. *)
Definition incChan_sends (cs : list Call) : list ReceivedMessage :=
  flat_map (fun c => match c with incChan_send m => [m] | _ => [] end) cs.

Section batch_sends.
Context `{Collaborators}.

(** The routing filter [gossipBatch] builds for a chain-state message. *)
Definition chain_state_selector (g : gossipService) (e : emittedRKSyncMessage)
    : RoutingFilter :=
  let peerSelector : RoutingFilter := fun member => emitted_filter e (PKIID member) in
  match getChannelByChainID g
          (string_of_list_byte (Channel (Signed_RKSyncMessage (emitted_msg e)))) with
  | Some gc => CombineRoutingFilters [peerSelector; IsMemberInChan gc]
  | None => peerSelector
  end.

(** What one iteration of the first loop of [gossipBatch] sends. *)
Definition chain_state_sends (g : gossipService) (d : Discovery)
    (e : emittedRKSyncMessage) : list Call :=
  [srv_Send (emitted_msg e)
     (SelectPeers (PropagatePeerNum (conf g)) (GetMembership d) (chain_state_selector g e))].

(** What one iteration of the second loop of [gossipBatch] sends. *)
Definition alive_sends (g : gossipService) (d : Discovery)
    (e : emittedRKSyncMessage) : list Call :=
  if negb (IsAliveMsg (emitted_msg e)) then []
  else
    [srv_Send (emitted_msg e)
       (SelectPeers (PropagatePeerNum (conf g)) (GetMembership d)
          (CombineRoutingFilters
             [SelectAllPolicy; fun member => emitted_filter e (PKIID member)]))].

End batch_sends.

(** Modelled from the spec: the Go code returns plain message errors; the
    kinds are those of section 7, where invalid-input covers a bad chain id
    and a mismatched MAC. *)
Definition is_invalid_input (e : error) : bool :=
  match e with
  | errors_New message => String.eqb message "Channel ID must be provided"
  | errors_Errorf format _ =>
      String.eqb format "Channel MAC doesn't match, expected: %s, actual: %s"
  | errors_Wrapf _ _ _ => false
  end.

(** ** A small instance of the collaborators

    Stand-ins that make the model run on examples: the digest is the
    identity, a payload parses to an alive message of the peer whose PKI-id
    is the payload, a signature is valid when it repeats the payload, the
    dedup store remembers the highest sequence number, and a channel is its
    member list. *)
Module sample.

Definition parse (e : option Envelope) : result SignedRKSyncMessage :=
  match e with
  | None => Err (errors_New "nil envelope")
  | Some env =>
      match Payload env with
      | [] => Err (errors_New "empty payload")
      | _ =>
          Ok {| Signed_Envelope := Some env;
                Signed_RKSyncMessage :=
                  {| Nonce := 0; Channel := []; Tag := EMPTY;
                     Content := RKSyncMessage_AliveMsg
                                  {| Membership := Some {| Endpoint := "peer:7050";
                                                           PkiId := Payload env |};
                                     Timestamp := None; Identity := [] |} |} |}
      end
  end.

Definition tag_legal (m : RKSyncMessage) : option error :=
  match Content m with
  | RKSyncMessage_AliveMsg _ | RKSyncMessage_MemReq _ | RKSyncMessage_MemRes _ =>
      match Tag m with
      | EMPTY => None
      | CHAN_ONLY => Some (errors_New "Tag should be EMPTY")
      end
  | RKSyncMessage_State _ | RKSyncMessage_StatePullRequest _
  | RKSyncMessage_StatePullResponse _ | RKSyncMessage_StateInfo _ =>
      match Tag m, Channel m with
      | CHAN_ONLY, _ :: _ => None
      | _, _ => Some (errors_New "Tag should be CHAN_ONLY with a channel")
      end
  | _ => Some (errors_New "Unknown message type")
  end.

Definition verify (m : SignedRKSyncMessage) (pkiID : list byte)
    (verifier : list byte -> list byte -> list byte -> option error) : option error :=
  match Signed_Envelope m with
  | None => Some (errors_New "Missing envelope")
  | Some env => verifier pkiID (Signature env) (Payload env)
  end.

Definition check_signature (pkiID signature message : list byte) : option error :=
  if bytes_Equal signature message then None
  else Some (errors_New "bad signature").

Definition state_info (cs : option ChainState) : result ChainStateInfo :=
  match cs with
  | None => Err (errors_New "nil chain state")
  | Some cs =>
      match ChainState_Envelope cs with
      | None => Err (errors_New "nil envelope")
      | Some env =>
          Ok {| Leader := Payload env;
                ChainStateInfo_Properties :=
                  Some {| Members := [Payload env; Signature env]; Files := [] |} |}
      end
  end.

Definition store_add (highest : N) (m : SignedRKSyncMessage) : bool * N :=
  match GetState (Signed_RKSyncMessage m) with
  | Some cs =>
      if (highest <? ChainState_SeqNum cs)%N then (true, ChainState_SeqNum cs)
      else (false, highest)
  | None => (false, highest)
  end.

Definition lookup (registry : gmap string (list (list byte))) (m : ReceivedMessage)
    : option string :=
  match GetRKSyncMessage m with
  | Some msg =>
      let chainID := string_of_list_byte (Channel (Signed_RKSyncMessage msg)) in
      match registry !! chainID with
      | Some _ => Some chainID
      | None => None
      end
  | None => None
  end.

Definition select (k : Z) (members : list NetworkMember) (f : RoutingFilter)
    : list NetworkMember :=
  firstn (Z.to_nat k) (List.filter f members).

#[export] Instance collaborators : Collaborators := {|
  ComputeSHA256 := fun b => b;
  pem_EncodeToMemory := fun pb => Some (list_byte_of_string (pem_Type pb) ++ pem_Bytes pb);
  IsTagLegal := tag_legal;
  IsChannelRestricted := fun m => match Tag m with CHAN_ONLY => true | EMPTY => false end;
  ToRKSyncMessage := parse;
  proto_Marshal := fun m => Ok (Channel m);
  Verify := verify;
  GetChainStateInfo := state_info;
  idMapper_Verify := check_signature;
  MessageStore := N;
  MessageStore_Add := store_add;
  Channel_ := list (list byte);
  NewChannel := fun _ _ => [];
  IsMemberInChan := fun members p => existsb (bytes_Equal (PKIID p)) members;
  InitializeWithChainState := fun members _ => (members, None);
  Channel_HandleMessage := fun members _ => members;
  lookupChannelForMsg := lookup;
  SelectPeers := select;
  Discovery := list NetworkMember;
  GetMembership := fun d => d |}.

Definition pA : list byte := [x0a].
Definition pB : list byte := [x0b].
Definition pC : list byte := [x0c].

Definition peerA : NetworkMember := {| NetworkMember_Endpoint := "a:7050"; PKIID := pA |}.
Definition peerB : NetworkMember := {| NetworkMember_Endpoint := "b:7050"; PKIID := pB |}.
Definition peerC : NetworkMember := {| NetworkMember_Endpoint := "c:7050"; PKIID := pC |}.

Definition config (iterations : Z) : GossipConfig :=
  {| conf_Endpoint := "a:7050"; PropagateIterations := iterations;
     PropagatePeerNum := 3; PullPeerNum := 3 |}.

(** Peer A, running, knowing B and C, with the given channel registry. *)
Definition service (iterations : Z) (registry : gmap string (list (list byte)))
    : gossipService :=
  {| id := "A"; selfPKIid := pA; conf := config iterations;
     disc := Some [peerB; peerC]; stopFlag := 0;
     discAdapter := newDiscoveryAdapter;
     chanState := registry; chainStateMsgStore := 0%N; calls := [] |}.

(** A chain state for channel "c1" signed over [payload] with [signature]. *)
Definition chain_state (seq : N) (mac payload signature : list byte) : ChainState :=
  {| ChainState_SeqNum := seq; ChainMac := mac;
     ChainState_Envelope := Some {| Payload := payload; Signature := signature |} |}.

Definition chain_state_msg (cs : ChainState) : SignedRKSyncMessage :=
  {| Signed_Envelope := ChainState_Envelope cs;
     Signed_RKSyncMessage :=
       {| Nonce := 0; Channel := list_byte_of_string "c1"; Tag := CHAN_ONLY;
          Content := RKSyncMessage_State cs |} |}.

Definition mem_req_msg (selfInfo : option Envelope) (known : list (list byte))
    : SignedRKSyncMessage :=
  {| Signed_Envelope := None;
     Signed_RKSyncMessage :=
       {| Nonce := 7; Channel := []; Tag := EMPTY;
          Content := RKSyncMessage_MemReq {| SelfInformation := selfInfo; Known := known |} |} |}.

Definition alive_msg (endpoint : string) (pkiID : list byte) : SignedRKSyncMessage :=
  {| Signed_Envelope := Some {| Payload := pkiID; Signature := pkiID |};
     Signed_RKSyncMessage :=
       {| Nonce := 0; Channel := []; Tag := EMPTY;
          Content := RKSyncMessage_AliveMsg
                       {| Membership := Some {| Endpoint := endpoint; PkiId := pkiID |};
                          Timestamp := None; Identity := [] |} |} |}.

Definition received (from : list byte) (msg : SignedRKSyncMessage) : ReceivedMessage :=
  {| GetRKSyncMessage := Some msg;
     GetConnectionInfo := Some {| ID := from; ConnectionInfo_Identity := [] |} |}.

End sample.

(** ** Channel management entry points

    The remaining methods of the service that act on one channel.  The
    channel's own mutators live in package channel; they are the fields of
    [ChannelMethods], each answering the new channel state beside the Go
    result pair. *)
Class ChannelMethods `{Collaborators} := {
  (** [common.FileSyncInfo] *)
  FileSyncInfo : Type;
  (** [Channel.Initialize] *)
  Initialize : Channel_ -> list (list byte) -> list FileSyncInfo ->
               Channel_ * (option ChainState * option error);
  (** [Channel.AddMember] *)
  AddMember : Channel_ -> list byte -> Channel_ * (option ChainState * option error);
  (** [Channel.AddFile] *)
  AddFile : Channel_ -> FileSyncInfo -> Channel_ * (option ChainState * option error);
  (** [Channel.Self] *)
  Self : Channel_ -> option ChainState }.

Section channel_entry_points.
Context `{ChannelMethods}.

Definition SelfChannelInfo (chainID : string) : M (option ChainState) :=
  g <- get;;
  match getChannelByChainID g chainID with
  | None => ret None
  | Some ch => ret (Self ch)
  end.

Definition SelfPKIid : M (list byte) := gets selfPKIid.

Definition AddMemberToChan (chainID : string) (member : list byte)
    : M (option ChainState * option error) :=
  g <- get;;
  match getChannelByChainID g chainID with
  | None =>
      ret (None, Some (errors_Errorf "Channel %s not yet created" [arg_string chainID]))
  | Some gc =>
      let (gc', answer) := AddMember gc member in
      modify (set_chanState (<[chainID := gc']> (chanState g)));;;
      ret answer
  end.

Definition AddFileToChan (chainID : string) (file : FileSyncInfo)
    : M (option ChainState * option error) :=
  g <- get;;
  match getChannelByChainID g chainID with
  | None =>
      ret (None, Some (errors_Errorf "Channel %s not yet created" [arg_string chainID]))
  | Some gc =>
      let (gc', answer) := AddFile gc file in
      modify (set_chanState (<[chainID := gc']> (chanState g)));;;
      ret answer
  end.

Definition CreateChannel (chainID : string) (files : list FileSyncInfo)
    : M (option ChainState * option error) :=
  if String.eqb chainID "" then
    ret (None, Some (errors_New "Channel ID must be provided"))
  else
    g <- get;;
    if toDie g then
      ret (None, Some (errors_New "RKSync service is stopping"))
    else
      gc <- joinChannel chainID true;;
      g' <- get;;
      match chanState g' !! gc with
      | None => raise nil_dereference
      | Some ch =>
          let (ch', answer) := Initialize ch [selfPKIid g] files in
          modify (set_chanState (<[gc := ch']> (chanState g')));;;
          ret answer
      end.

(** Modelled from the spec: [removeChannel] of package gossip's channelState
    is not among the sources.  Closing a channel takes it back to absent
    (section 4.6). *)
Definition removeChannel (chainID : string) : M unit :=
  modify (fun g => set_chanState (delete chainID (chanState g)) g).

Definition CloseChannel (chainID : string) : M unit :=
  if String.eqb chainID "" then ret tt
  else removeChannel chainID.

End channel_entry_points.

(** ** Bootstrap

    The identifier closure [connect2BootstrapPeers] hands to discovery for
    one bootstrap endpoint.  [Handshake] belongs to the transport and
    [GetPKIidOfCert] to the identity mapper. *)
Class Bootstrap := {
  (** [rpc.Server.Handshake] *)
  Handshake : NetworkMember -> result (list byte);
  (** [identity.Identity.GetPKIidOfCert] *)
  idMapper_GetPKIidOfCert : list byte -> list byte }.

(** [errors.WithStack]: the same error with a stack trace, which the model
    does not observe. *)
Definition errors_WithStack (e : error) : error := e.

Definition identifier `{Bootstrap} (endpoint : string) : result (list byte) :=
  match Handshake {| NetworkMember_Endpoint := endpoint; PKIID := [] |} with
  | Err err => Err (errors_WithStack err)
  | Ok remotePeerIdentity =>
      let pkiID := idMapper_GetPKIidOfCert remotePeerIdentity in
      if Z.of_nat (length pkiID) =? 0 then
        Err (errors_Errorf "Wasn't able to extract PKI-ID of remote peer with identity of %v"
               [arg_bytes remotePeerIdentity])
      else Ok pkiID
  end.

(** ** What a method may do to the service *)

(** The calls [handleMessage] makes: to the emitter, the chain-state store,
    the channel registry, a channel, and the discovery adapter's inbound
    channel. *)
Definition inbound_call (c : Call) : bool :=
  match c with
  | emitter_Add _ | chainStateMsgStore_Add _ | chanState_joinChannel _ _
  | gc_HandleMessage _ _ | incChan_send _ => true
  | _ => false
  end.

(** The messages handed to [srv.Send], with their recipients. *)
Definition srv_sends (cs : list Call) : list (SignedRKSyncMessage * list NetworkMember) :=
  flat_map (fun c => match c with srv_Send msg peers => [(msg, peers)] | _ => [] end) cs.

Section frames.
Context `{Collaborators}.

(** [g'] differs from [g] at most in the chain-state store, in the channel
    registry, which only gains chain ids, and in the call log, which only
    gains calls that satisfy [allowed]. *)
Definition evolves (allowed : Call -> bool) (g g' : gossipService) : Prop :=
  id g' = id g
  /\ selfPKIid g' = selfPKIid g
  /\ conf g' = conf g
  /\ disc g' = disc g
  /\ stopFlag g' = stopFlag g
  /\ discAdapter g' = discAdapter g
  /\ (forall chainID, is_Some (chanState g !! chainID) -> is_Some (chanState g' !! chainID))
  /\ exists new, calls g' = calls g ++ new /\ forallb allowed new = true.

(** A method keeps the frame when every run of it does. *)
Definition keeps (allowed : Call -> bool) {A} (m : M A) : Prop :=
  forall g, evolves allowed g (snd (m g)).

End frames.

(** An instance of the channel mutators for the sample collaborators: a
    channel is its member list, and every mutator answers the chain state
    numbered by the member count. *)
Module sample_channels.

Definition state_of (members : list (list byte)) : ChainState :=
  {| ChainState_SeqNum := N.of_nat (length members); ChainMac := [];
     ChainState_Envelope := None |}.

Definition answer (members : list (list byte))
    : @Channel_ sample.collaborators * (option ChainState * option error) :=
  (members, (Some (state_of members), None)).

#[export] Instance methods : @ChannelMethods sample.collaborators := {|
  FileSyncInfo := string;
  Initialize := fun _ members _ => answer members;
  AddMember := fun members member => answer (members ++ [member]);
  AddFile := fun members _ => answer members;
  Self := fun members => Some (state_of members) |}.

Definition file (path : string) : @FileSyncInfo sample.collaborators methods := path.

#[export] Instance bootstrap : Bootstrap := {|
  Handshake := fun peer =>
                 if String.eqb (NetworkMember_Endpoint peer) "" then
                   Err (errors_New "no endpoint")
                 else Ok (list_byte_of_string (NetworkMember_Endpoint peer));
  idMapper_GetPKIidOfCert := fun identity => firstn 1 identity |}.

End sample_channels.

(** * protos/identity.pb.go: the wire codec of SerializedIdentity

    Go's [uint64], [int] (taken as 64 bits wide) and [int32] are integers
    of [Z] with their wrap-around written out; a byte slice is a list of
    bytes, written by index.  Nothing in this file tells a nil slice from
    an empty one (a nil [XXX_unrecognized] and an empty one marshal and
    size alike), so lists lose nothing.  A run ends in a value, in a
    run-time panic, or, for the model only, in an exhausted iteration
    budget. *)
Module identity_pb.

Record SerializedIdentity := {
  NodeId : string;
  IdBytes : list byte;
  XXX_unrecognized : list byte }.

Inductive pb_error : Type :=
| ErrInvalidLengthIdentity
| ErrIntOverflowIdentity
| io_ErrUnexpectedEOF
| ErrEndGroup
| ErrIllegalTag (fieldNum wire : Z)
| ErrWrongWireType (wireType : Z) (field : string)
| ErrIllegalWireType (wireType : Z).

Inductive exec (A : Type) : Type :=
| Fin (a : A)
| Crash (why : string)
| Diverge.
Arguments Fin {A} a.
Arguments Crash {A} why.
Arguments Diverge {A}.

Definition exec_bind {A B} (m : exec A) (k : A -> exec B) : exec B :=
  match m with
  | Fin a => k a
  | Crash why => Crash why
  | Diverge => Diverge
  end.

Notation "x <~ m ; k" := (exec_bind m (fun x => k))
  (at level 100, m at next level, right associativity).

Definition uint64 (z : Z) : Z := z mod 2 ^ 64.
Definition int64 (z : Z) : Z := (z + 2 ^ 63) mod 2 ^ 64 - 2 ^ 63.
Definition int32 (z : Z) : Z := (z + 2 ^ 31) mod 2 ^ 32 - 2 ^ 31.

Definition uint8 (z : Z) : byte :=
  match Byte.of_N (Z.to_N (z mod 256)) with
  | Some b => b
  | None => x00
  end.

Definition byte_val (b : byte) : Z := Z.of_N (Byte.to_N b).

Definition len {A} (l : list A) : Z := Z.of_nat (length l).

(** [dAtA[i] = b] *)
Definition store (dAtA : list byte) (i : Z) (b : byte) : exec (list byte) :=
  if (0 <=? i) && (i <? len dAtA) then Fin (<[Z.to_nat i := b]> dAtA)
  else Crash "index out of range".

(** [dAtA[i]] *)
Definition load (dAtA : list byte) (i : Z) : exec byte :=
  if 0 <=? i then
    match dAtA !! Z.to_nat i with
    | Some b => Fin b
    | None => Crash "index out of range"
    end
  else Crash "index out of range".

(** [dAtA[i:j]] *)
Definition slice (dAtA : list byte) (i j : Z) : exec (list byte) :=
  if (0 <=? i) && (i <=? j) && (j <=? len dAtA) then
    Fin (take (Z.to_nat (j - i)) (drop (Z.to_nat i) dAtA))
  else Crash "slice bounds out of range".

(** [copy(dAtA[i:], src)]: the buffer after the copy and the count copied. *)
Definition copy_at (dAtA : list byte) (i : Z) (src : list byte) : exec (list byte * Z) :=
  if (0 <=? i) && (i <=? len dAtA) then
    let n := Z.min (len dAtA - i) (len src) in
    Fin (take (Z.to_nat i) dAtA ++ take (Z.to_nat n) src ++ drop (Z.to_nat (i + n)) dAtA, n)
  else Crash "slice bounds out of range".

Fixpoint encodeVarint_loop (budget : nat) (dAtA : list byte) (offset v : Z)
    : exec (list byte * Z) :=
  if 128 <=? v then
    match budget with
    | O => Diverge
    | S budget' =>
        dAtA' <~ store dAtA offset (uint8 (Z.lor (Z.land v 127) 128));
        encodeVarint_loop budget' dAtA' (offset + 1) (Z.shiftr v 7)
    end
  else
    dAtA' <~ store dAtA offset (uint8 v);
    Fin (dAtA', offset + 1).

(** A 64-bit value has at most ten groups of seven bits. *)
Definition encodeVarintIdentity (dAtA : list byte) (offset v : Z) : exec (list byte * Z) :=
  encodeVarint_loop 10 dAtA offset v.

Fixpoint sov_loop (budget : nat) (n x : Z) : exec Z :=
  let n := n + 1 in
  let x := Z.shiftr x 7 in
  if x =? 0 then Fin n
  else
    match budget with
    | O => Diverge
    | S budget' => sov_loop budget' n x
    end.

Definition sovIdentity (x : Z) : exec Z := sov_loop 10 0 x.

Definition sozIdentity (x : Z) : exec Z :=
  sovIdentity (uint64 (Z.lxor (uint64 (Z.shiftl x 1)) (uint64 (Z.shiftr (int64 x) 63)))).

Definition Size (m : SerializedIdentity) : exec Z :=
  let n := 0 in
  let l := len (list_byte_of_string (NodeId m)) in
  n <~ (if 0 <? l then s <~ sovIdentity (uint64 l); Fin (n + (1 + l + s)) else Fin n);
  let l := len (IdBytes m) in
  n <~ (if 0 <? l then s <~ sovIdentity (uint64 l); Fin (n + (1 + l + s)) else Fin n);
  Fin (n + len (XXX_unrecognized m)).

Definition MarshalTo (m : SerializedIdentity) (dAtA : list byte) : exec (list byte * Z) :=
  let i := 0 in
  r <~ (if 0 <? len (list_byte_of_string (NodeId m)) then
          dAtA <~ store dAtA i x0a;
          let i := i + 1 in
          r <~ encodeVarintIdentity dAtA i (uint64 (len (list_byte_of_string (NodeId m))));
          let '(dAtA, i) := r in
          r <~ copy_at dAtA i (list_byte_of_string (NodeId m));
          let '(dAtA, n) := r in
          Fin (dAtA, i + n)
        else Fin (dAtA, i));
  let '(dAtA, i) := r in
  r <~ (if 0 <? len (IdBytes m) then
          dAtA <~ store dAtA i x12;
          let i := i + 1 in
          r <~ encodeVarintIdentity dAtA i (uint64 (len (IdBytes m)));
          let '(dAtA, i) := r in
          r <~ copy_at dAtA i (IdBytes m);
          let '(dAtA, n) := r in
          Fin (dAtA, i + n)
        else Fin (dAtA, i));
  let '(dAtA, i) := r in
  r <~ copy_at dAtA i (XXX_unrecognized m);
  let '(dAtA, n) := r in
  Fin (dAtA, i + n).

Definition Marshal (m : SerializedIdentity) : exec (list byte) :=
  size <~ Size m;
  let dAtA := List.repeat x00 (Z.to_nat size) in
  r <~ MarshalTo m dAtA;
  let '(dAtA, n) := r in
  slice dAtA 0 n.

(** The varint loop of the decoders.  [wrap] is the type the value is
    accumulated in: [uint64] for a tag or a string length, [int64] for a
    byte length.  The answer is the value and the index reached. *)
Fixpoint varint_loop (wrap : Z -> Z) (budget : nat) (dAtA : list byte) (l iNdEx : Z)
    (shift acc : Z) : exec (pb_error + Z * Z) :=
  if 64 <=? shift then Fin (inl ErrIntOverflowIdentity)
  else if l <=? iNdEx then Fin (inl io_ErrUnexpectedEOF)
  else
    b <~ load dAtA iNdEx;
    let iNdEx := iNdEx + 1 in
    let acc := Z.lor acc (wrap (Z.shiftl (Z.land (byte_val b) 127) shift)) in
    if byte_val b <? 128 then Fin (inr (acc, iNdEx))
    else
      match budget with
      | O => Diverge
      | S budget' => varint_loop wrap budget' dAtA l iNdEx (shift + 7) acc
      end.

(** The shift reaches 64 at the eleventh byte. *)
Definition read_varint (wrap : Z -> Z) (dAtA : list byte) (l iNdEx : Z)
    : exec (pb_error + Z * Z) :=
  varint_loop wrap 10 dAtA l iNdEx 0 0.

(** The loop of [skipIdentity] that steps over a varint without keeping
    its value. *)
Fixpoint skip_varint_loop (budget : nat) (dAtA : list byte) (l iNdEx shift : Z)
    : exec (pb_error + Z) :=
  if 64 <=? shift then Fin (inl ErrIntOverflowIdentity)
  else if l <=? iNdEx then Fin (inl io_ErrUnexpectedEOF)
  else
    let iNdEx := iNdEx + 1 in
    b <~ load dAtA (iNdEx - 1);
    if byte_val b <? 128 then Fin (inr iNdEx)
    else
      match budget with
      | O => Diverge
      | S budget' => skip_varint_loop budget' dAtA l iNdEx (shift + 7)
      end.

(** [skipIdentity] and the loop of its group case; both spend one unit of
    the budget per call or iteration. *)
Fixpoint skipIdentity_run (budget : nat) (dAtA : list byte) : exec (pb_error + Z) :=
  match budget with
  | O => Diverge
  | S budget' =>
      let l := len dAtA in
      let iNdEx := 0 in
      if iNdEx <? l then
        r <~ read_varint uint64 dAtA l iNdEx;
        match r with
        | inl err => Fin (inl err)
        | inr (wire, iNdEx) =>
            let wireType := Z.land wire 7 in
            if wireType =? 0 then
              r <~ skip_varint_loop 10 dAtA l iNdEx 0;
              match r with
              | inl err => Fin (inl err)
              | inr iNdEx => Fin (inr iNdEx)
              end
            else if wireType =? 1 then Fin (inr (int64 (iNdEx + 8)))
            else if wireType =? 2 then
              r <~ read_varint int64 dAtA l iNdEx;
              match r with
              | inl err => Fin (inl err)
              | inr (length, iNdEx) =>
                  if length <? 0 then Fin (inl ErrInvalidLengthIdentity)
                  else
                    let iNdEx := int64 (iNdEx + length) in
                    if iNdEx <? 0 then Fin (inl ErrInvalidLengthIdentity)
                    else Fin (inr iNdEx)
              end
            else if wireType =? 3 then skipGroup_run budget' dAtA l iNdEx
            else if wireType =? 4 then Fin (inr iNdEx)
            else if wireType =? 5 then Fin (inr (int64 (iNdEx + 4)))
            else Fin (inl (ErrIllegalWireType wireType))
        end
      else Crash "unreachable"
  end
with skipGroup_run (budget : nat) (dAtA : list byte) (l iNdEx : Z) : exec (pb_error + Z) :=
  match budget with
  | O => Diverge
  | S budget' =>
      let start := iNdEx in
      r <~ read_varint uint64 dAtA l iNdEx;
      match r with
      | inl err => Fin (inl err)
      | inr (innerWire, iNdEx) =>
          let innerWireType := Z.land innerWire 7 in
          if innerWireType =? 4 then Fin (inr iNdEx)
          else
            tail <~ slice dAtA start l;
            r <~ skipIdentity_run budget' tail;
            match r with
            | inl err => Fin (inl err)
            | inr next =>
                let iNdEx := int64 (start + next) in
                if iNdEx <? 0 then Fin (inl ErrInvalidLengthIdentity)
                else skipGroup_run budget' dAtA l iNdEx
            end
      end
  end.

(** Every call and every iteration moves forward in the input, so twice
    its length, and two, is budget enough. *)
Definition skipIdentity (dAtA : list byte) : exec (pb_error + Z) :=
  skipIdentity_run (2 * length dAtA + 2) dAtA.

Definition set_NodeId (v : string) (m : SerializedIdentity) : SerializedIdentity :=
  {| NodeId := v; IdBytes := IdBytes m; XXX_unrecognized := XXX_unrecognized m |}.

Definition set_IdBytes (v : list byte) (m : SerializedIdentity) : SerializedIdentity :=
  {| NodeId := NodeId m; IdBytes := v; XXX_unrecognized := XXX_unrecognized m |}.

Definition set_XXX_unrecognized (v : list byte) (m : SerializedIdentity)
    : SerializedIdentity :=
  {| NodeId := NodeId m; IdBytes := IdBytes m; XXX_unrecognized := v |}.

(** The body of the loop of [Unmarshal] for one field, from the length
    on: check the length, cut the payload out, and answer it with the
    index behind it. *)
Definition read_payload (dAtA : list byte) (l iNdEx length : Z)
    : exec (pb_error + list byte * Z) :=
  if length <? 0 then Fin (inl ErrInvalidLengthIdentity)
  else
    let postIndex := int64 (iNdEx + length) in
    if postIndex <? 0 then Fin (inl ErrInvalidLengthIdentity)
    else if l <? postIndex then Fin (inl io_ErrUnexpectedEOF)
    else
      payload <~ slice dAtA iNdEx postIndex;
      Fin (inr (payload, postIndex)).

(** [Unmarshal]: the message as far as it was filled in, and the error. *)
Fixpoint Unmarshal_loop (budget : nat) (m : SerializedIdentity) (dAtA : list byte)
    (l iNdEx : Z) : exec (SerializedIdentity * option pb_error) :=
  if iNdEx <? l then
    match budget with
    | O => Diverge
    | S budget' =>
        let preIndex := iNdEx in
        r <~ read_varint uint64 dAtA l iNdEx;
        match r with
        | inl err => Fin (m, Some err)
        | inr (wire, iNdEx) =>
            let fieldNum := int32 (Z.shiftr wire 3) in
            let wireType := Z.land wire 7 in
            if wireType =? 4 then Fin (m, Some ErrEndGroup)
            else if fieldNum <=? 0 then Fin (m, Some (ErrIllegalTag fieldNum wire))
            else if fieldNum =? 1 then
              if negb (wireType =? 2) then
                Fin (m, Some (ErrWrongWireType wireType "NodeId"))
              else
                r <~ read_varint uint64 dAtA l iNdEx;
                match r with
                | inl err => Fin (m, Some err)
                | inr (stringLen, iNdEx) =>
                    let intStringLen := int64 stringLen in
                    r <~ read_payload dAtA l iNdEx intStringLen;
                    match r with
                    | inl err => Fin (m, Some err)
                    | inr (payload, postIndex) =>
                        let m := set_NodeId (string_of_list_byte payload) m in
                        Unmarshal_loop budget' m dAtA l postIndex
                    end
                end
            else if fieldNum =? 2 then
              if negb (wireType =? 2) then
                Fin (m, Some (ErrWrongWireType wireType "IdBytes"))
              else
                r <~ read_varint int64 dAtA l iNdEx;
                match r with
                | inl err => Fin (m, Some err)
                | inr (byteLen, iNdEx) =>
                    r <~ read_payload dAtA l iNdEx byteLen;
                    match r with
                    | inl err => Fin (m, Some err)
                    | inr (payload, postIndex) =>
                        let m := set_IdBytes payload m in
                        Unmarshal_loop budget' m dAtA l postIndex
                    end
                end
            else
              let iNdEx := preIndex in
              tail <~ slice dAtA iNdEx l;
              r <~ skipIdentity tail;
              match r with
              | inl err => Fin (m, Some err)
              | inr skippy =>
                  if skippy <? 0 then Fin (m, Some ErrInvalidLengthIdentity)
                  else if int64 (iNdEx + skippy) <? 0 then
                    Fin (m, Some ErrInvalidLengthIdentity)
                  else if l <? int64 (iNdEx + skippy) then
                    Fin (m, Some io_ErrUnexpectedEOF)
                  else
                    unknown <~ slice dAtA iNdEx (int64 (iNdEx + skippy));
                    let m := set_XXX_unrecognized (XXX_unrecognized m ++ unknown) m in
                    Unmarshal_loop budget' m dAtA l (int64 (iNdEx + skippy))
              end
        end
    end
  else if l <? iNdEx then Fin (m, Some io_ErrUnexpectedEOF)
  else Fin (m, None).

(** Every iteration consumes at least one byte. *)
Definition Unmarshal (m : SerializedIdentity) (dAtA : list byte)
    : exec (SerializedIdentity * option pb_error) :=
  Unmarshal_loop (length dAtA) m dAtA (len dAtA) 0.

(** The bytes of the varint of [v], least significant group first: what
    [encodeVarintIdentity] writes, as a value. *)
Fixpoint varint_bytes (groups : nat) (v : Z) : list byte :=
  match groups with
  | O => [uint8 v]
  | S groups' =>
      if 128 <=? v then uint8 (Z.lor (Z.land v 127) 128) :: varint_bytes groups' (Z.shiftr v 7)
      else [uint8 v]
  end.

(** The bytes of one length-delimited field: nothing for an empty
    payload, else the tag, the length and the payload. *)
Definition field_bytes (tag : byte) (payload : list byte) : list byte :=
  match payload with
  | [] => []
  | _ :: _ => tag :: varint_bytes 10 (len payload) ++ payload
  end.

(** The wire form of a message: field 1, field 2, the unknown bytes. *)
Definition wire_bytes (m : SerializedIdentity) : list byte :=
  field_bytes x0a (list_byte_of_string (NodeId m))
  ++ field_bytes x12 (IdBytes m)
  ++ XXX_unrecognized m.

End identity_pb.


(** * Properties *)

(** ** Byte slices and the call log *)

Lemma bytes_Equal_spec (a b : list byte) : bytes_Equal a b = true <-> a = b.
Proof.
  revert b; induction a as [|x a IH]; intros [|y b]; simpl; split; try easy.
  - rewrite andb_true_iff. intros [Hxy Hab].
    apply Byte.byte_dec_bl in Hxy. apply IH in Hab. congruence.
  - intros [= -> ->]. rewrite andb_true_iff. split.
    + now apply Byte.byte_dec_lb.
    + now apply IH.
Qed.

Lemma bytes_Equal_refl (a : list byte) : bytes_Equal a a = true.
Proof. now apply bytes_Equal_spec. Qed.

Lemma bytes_Equal_false (a b : list byte) : bytes_Equal a b = false <-> a <> b.
Proof.
  rewrite <- bytes_Equal_spec. destruct (bytes_Equal a b); split; congruence.
Qed.

Lemma String_eqb_false (s t : string) : String.eqb s t = false <-> s <> t.
Proof.
  rewrite <- String.eqb_eq. destruct (String.eqb s t); split; congruence.
Qed.

Lemma app_one_neq {A} (l : list A) (x : A) : l ++ [x] <> l.
Proof.
  intros Heq. apply (f_equal (@List.length A)) in Heq.
  rewrite List.length_app in Heq. simpl in Heq. lia.
Qed.

Lemma emitter_adds_app (a b : list Call) :
  emitter_adds (a ++ b) = emitter_adds a ++ emitter_adds b.
Proof. unfold emitter_adds. apply flat_map_app. Qed.

Lemma incChan_sends_app (a b : list Call) :
  incChan_sends (a ++ b) = incChan_sends a ++ incChan_sends b.
Proof. unfold incChan_sends. apply flat_map_app. Qed.

Section facts.
Context `{Collaborators}.

Lemma set_calls_same (g : gossipService) : set_calls (calls g) g = g.
Proof. now destruct g. Qed.

Lemma set_calls_nil (g : gossipService) : set_calls (calls g ++ []) g = g.
Proof. rewrite app_nil_r. apply set_calls_same. Qed.

Lemma set_calls_twice (a b : list Call) (g : gossipService) :
  set_calls b (set_calls a g) = set_calls b g.
Proof. reflexivity. Qed.

(** Unfolds the monad so that a method reads as nested [match]es. *)
Ltac run :=
  unfold bind, ret, get, gets, modify, raise, call, deref in *; simpl in *.

(** ** GetPKIidOfCert *)

(** C7. For every node id and certificate, [GetPKIidOfCert] answers the
    SHA-256 digest of the node id bytes followed by the PEM encoding of the
    certificate (a CERTIFICATE block over the raw DER bytes), and it answers
    an error only when the PEM encoding fails. *)
Theorem GetPKIidOfCert_digest (nodeID : string) (cert : x509_Certificate) :
  let block := {| pem_Type := "CERTIFICATE"; pem_Bytes := Raw cert |} in
  (forall pemBytes, pem_EncodeToMemory block = Some pemBytes ->
     GetPKIidOfCert nodeID cert
     = Ok (ComputeSHA256 (list_byte_of_string nodeID ++ pemBytes)))
  /\ (forall e, GetPKIidOfCert nodeID cert = Err e -> pem_EncodeToMemory block = None).
Proof.
  unfold GetPKIidOfCert; simpl. split.
  - intros pemBytes ->. reflexivity.
  - intros e. destruct (pem_EncodeToMemory _); [discriminate | reflexivity].
Qed.

(** ** Discovery-originated gossip *)

Lemma gossipFunc_zero_iterations (g : gossipService) (msg : SignedRKSyncMessage) :
  PropagateIterations (conf g) = 0 -> gossipFunc msg g = (Returns tt, g).
Proof. intros Hz. unfold gossipFunc. run. now rewrite Hz. Qed.

Lemma forwardFunc_zero_iterations (g : gossipService) (msg : ReceivedMessage) :
  PropagateIterations (conf g) = 0 -> forwardFunc msg g = (Returns tt, g).
Proof. intros Hz. unfold forwardFunc. run. now rewrite Hz. Qed.

(** C10. With PropagateIterations equal to zero, [Gossip] and [Forward] of
    the discovery adapter return without touching the service: whatever the
    message, nothing is handed to the emitter. *)
Theorem zero_iterations_suppress_gossip (g : gossipService)
    (msg : SignedRKSyncMessage) (rm : ReceivedMessage) :
  PropagateIterations (conf g) = 0 ->
  Gossip msg g = (Returns tt, g)
  /\ Forward rm g = (Returns tt, g)
  /\ emitter_adds (calls (snd (Gossip msg g))) = emitter_adds (calls g)
  /\ emitter_adds (calls (snd (Forward rm g))) = emitter_adds (calls g).
Proof.
  intros Hz.
  assert (HG : Gossip msg g = (Returns tt, g)).
  { unfold Gossip. run. destruct (da_toDie _); [reflexivity|].
    now apply gossipFunc_zero_iterations. }
  assert (HF : Forward rm g = (Returns tt, g)).
  { unfold Forward. run. destruct (da_toDie _); [reflexivity|].
    now apply forwardFunc_zero_iterations. }
  rewrite HG, HF. auto.
Qed.

(** ** Stop and Peers *)

Lemma Stop_sets_flag (g : gossipService) : toDie (snd (Stop g)) = true.
Proof.
  unfold Stop, da_close. run.
  destruct (toDie g) eqn:Hdie; simpl; [exact Hdie|].
  destruct (incChan_closed (discAdapter g)); simpl; [reflexivity|].
  destruct (disc g); reflexivity.
Qed.

Lemma Peers_stopped (g : gossipService) : toDie g = true -> Peers g = (Returns [], g).
Proof. intros Hdie. unfold Peers. run. now rewrite Hdie. Qed.

Lemma Stop_stopped (g : gossipService) : toDie g = true -> Stop g = (Returns tt, g).
Proof. intros Hdie. unfold Stop. run. now rewrite Hdie. Qed.

(** A running service with a discovery and an open inbound channel goes
    through the whole shutdown sequence, in the order of the source. *)
Lemma Stop_shutdown_sequence (g : gossipService) (d : Discovery) :
  toDie g = false -> disc g = Some d -> incChan_closed (discAdapter g) = false ->
  fst (Stop g) = Returns tt
  /\ calls (snd (Stop g))
     = calls g ++ [disc_Stop; chanState_stop; toDieChan_send; emitter_Stop;
                   ChannelDeMultiplexer_Close; stopSignal_Wait; srv_Stop]
  /\ da_toDie (discAdapter (snd (Stop g))) = true.
Proof.
  intros Hdie Hd Hopen. unfold Stop, da_close. run.
  rewrite Hdie, Hopen, Hd. simpl.
  repeat rewrite <- app_assoc. simpl. auto.
Qed.

(** C9. Whatever state [Stop] is called in, the state it leaves has the
    stop flag set; from then on [Peers] answers the empty list, whatever
    discovery's membership is, and a further [Stop] returns at once and
    changes nothing. *)
Theorem Stop_then_Peers_empty_and_Stop_again (g : gossipService) :
  let g' := snd (Stop g) in
  toDie g' = true
  /\ Peers g' = (Returns [], g')
  /\ Stop g' = (Returns tt, g').
Proof.
  simpl. pose proof (Stop_sets_flag g) as Hdie.
  split; [exact Hdie|]. split.
  - now apply Peers_stopped.
  - now apply Stop_stopped.
Qed.

(** ** The default disclosure policy *)

(** C6. For an alive message [m] and a remote peer [r], the default sieve
    answers true exactly when the endpoint of [m]'s membership and the
    endpoint of [r] are both non-empty (with a membership present it
    returns that conjunction); the envelope filter answers [m]'s envelope
    unchanged; on a message that is not an alive message the sieve is
    fatal. *)
Theorem disclosurePolicy_default (m : SignedRKSyncMessage) (r : NetworkMember) :
  (IsAliveMsg m = true ->
     (fst (disclosurePolicy r) m = Returns true
      <-> exists am membership,
            GetAliveMsg (Signed_RKSyncMessage m) = Some am
            /\ Membership am = Some membership
            /\ Endpoint membership <> ""
            /\ NetworkMember_Endpoint r <> "")
     /\ (forall am membership,
           GetAliveMsg (Signed_RKSyncMessage m) = Some am ->
           Membership am = Some membership ->
           fst (disclosurePolicy r) m
           = Returns (negb (String.eqb (Endpoint membership) "")
                      && negb (String.eqb (NetworkMember_Endpoint r) ""))))
  /\ snd (disclosurePolicy r) m = Signed_Envelope m
  /\ (IsAliveMsg m = false ->
       exists message, fst (disclosurePolicy r) m = Aborts (logging_Fatal message)).
Proof.
  unfold disclosurePolicy, proto_Clone; simpl. split; [|split].
  - intros Halive. rewrite Halive. simpl. split.
    + split.
      * intros Hret.
        destruct (GetAliveMsg _) as [am|]; [|discriminate].
        destruct (Membership am) as [membership|] eqn:Hm; [|discriminate].
        injection Hret as Hret. apply andb_true_iff in Hret as [He Hr].
        apply negb_true_iff in He, Hr.
        apply String_eqb_false in He, Hr.
        exists am, membership. auto.
      * intros (am & membership & -> & -> & He & Hr).
        apply String_eqb_false in He, Hr. simpl. now rewrite He, Hr.
    + intros am membership -> ->. reflexivity.
  - reflexivity.
  - intros ->. simpl. eauto.
Qed.

(** ** SendToPeer *)

(** C8. A membership request sent through [SendToPeer] to a peer with a
    non-empty PKI-id: whenever a message is sent, it goes to that peer
    alone, its self-information is the output of the disclosure policy's
    envelope filter on the parsed self-information, and the Known list,
    nonce, channel and tag are those of the original; and an adapter that
    is not closing, a self-information that parses and a message that
    serialises do lead to that one send. *)
Theorem SendToPeer_membership_request (g : gossipService) (peer : NetworkMember)
    (msg : SignedRKSyncMessage) (memReq : MembershipRequest) :
  GetMemReq (Signed_RKSyncMessage msg) = Some memReq ->
  PKIID peer <> [] ->
  (forall sent peers,
     calls (snd (SendToPeer peer msg g)) = calls g ++ [srv_Send sent peers] ->
     peers = [peer]
     /\ exists selfMsg,
          ToRKSyncMessage (SelfInformation memReq) = Ok selfMsg
          /\ GetMemReq (Signed_RKSyncMessage sent)
             = Some {| SelfInformation := snd (da_disclosurePolicy (discAdapter g) peer) selfMsg;
                       Known := Known memReq |}
          /\ Nonce (Signed_RKSyncMessage sent) = Nonce (Signed_RKSyncMessage msg)
          /\ Channel (Signed_RKSyncMessage sent) = Channel (Signed_RKSyncMessage msg)
          /\ Tag (Signed_RKSyncMessage sent) = Tag (Signed_RKSyncMessage msg))
  /\ (forall selfMsg,
        da_toDie (discAdapter g) = false ->
        ToRKSyncMessage (SelfInformation memReq) = Ok selfMsg ->
        let request :=
          {| SelfInformation := snd (da_disclosurePolicy (discAdapter g) peer) selfMsg;
             Known := Known memReq |} in
        let inner := with_Content (RKSyncMessage_MemReq request) (Signed_RKSyncMessage msg) in
        forall payload, proto_Marshal inner = Ok payload ->
        exists sent,
          SendToPeer peer msg g
          = (Returns tt, set_calls (calls g ++ [srv_Send sent [peer]]) g)
          /\ Signed_RKSyncMessage sent = inner).
Proof.
  intros Hreq Hpki.
  assert (Hlen : (Z.of_nat (length (PKIID peer)) =? 0) = false).
  { apply Z.eqb_neq. destruct (PKIID peer); [congruence | simpl; lia]. }
  split.
  - intros sent peers. unfold SendToPeer. run. rewrite Hreq, Hlen. simpl.
    destruct (da_toDie (discAdapter g)); simpl.
    { intros Heq. symmetry in Heq. now apply app_one_neq in Heq. }
    destruct (ToRKSyncMessage (SelfInformation memReq)) as [selfMsg|err]; simpl.
    2:{ intros Heq. symmetry in Heq. now apply app_one_neq in Heq. }
    destruct (da_disclosurePolicy (discAdapter g) peer) as [sieve omit]; simpl.
    unfold NoopSign, proto_Clone. simpl.
    destruct (proto_Marshal _) as [payload|err]; simpl.
    2:{ intros Heq. symmetry in Heq. now apply app_one_neq in Heq. }
    intros Heq. apply app_inv_head in Heq. injection Heq as <- <-.
    split; [reflexivity|]. exists selfMsg. simpl. auto.
  - intros selfMsg Hda Hparse request inner payload Hpay.
    unfold SendToPeer. run. rewrite Hreq, Hlen, Hda, Hparse. simpl.
    subst inner request.
    destruct (da_disclosurePolicy (discAdapter g) peer) as [sieve omit]; simpl in *.
    unfold NoopSign, proto_Clone. simpl. rewrite Hpay. simpl.
    eexists. split; reflexivity.
Qed.

(** ** InitializeChannel *)

(** C3. [InitializeChannel] on a chain state whose MAC differs from
    SHA256(selfPKIid ‖ chainID) returns, on a running service, an
    invalid-input error and leaves the service as it was; and it returns
    an error and leaves the service, hence the channel registry, as it was
    for an empty chain id, for a stopping service, for a mismatched MAC,
    for a signature that does not verify and for a leader other than the
    local PKI-id. *)
Theorem InitializeChannel_rejects_atomically (g : gossipService) (chainID : string)
    (chainState : ChainState) :
  (ChainMac chainState <> GenerateMAC (selfPKIid g) chainID ->
   toDie g = false ->
   exists e,
     InitializeChannel chainID chainState g = (Returns (Some e), g)
     /\ is_invalid_input e = true)
  /\ (chainID = ""
      \/ toDie g = true
      \/ ChainMac chainState <> GenerateMAC (selfPKIid g) chainID
      \/ (exists signedMsg err,
            ToRKSyncMessage (ChainState_Envelope chainState) = Ok signedMsg
            /\ Verify signedMsg (selfPKIid g) idMapper_Verify = Some err)
      \/ (exists stateInfo,
            GetChainStateInfo (Some chainState) = Ok stateInfo
            /\ Leader stateInfo <> selfPKIid g) ->
      exists e,
        InitializeChannel chainID chainState g = (Returns (Some e), g)
        /\ chanState (snd (InitializeChannel chainID chainState g)) = chanState g).
Proof.
  split.
  - intros Hmac Hrun. unfold InitializeChannel. run.
    destruct (String.eqb chainID "") eqn:Hid; [eauto|].
    rewrite Hrun. apply bytes_Equal_false in Hmac. rewrite Hmac. simpl. eauto.
  - intros Hcase. unfold InitializeChannel. run.
    destruct (String.eqb chainID "") eqn:Hid; [eauto|].
    destruct (toDie g) eqn:Hdie; [eauto|].
    destruct (bytes_Equal (ChainMac chainState) _) eqn:Hmac; simpl; [|eauto].
    destruct (ToRKSyncMessage _) as [signedMsg|err] eqn:Hparse; [|eauto].
    destruct (Verify signedMsg _ _) as [err|] eqn:Hver; [eauto|].
    destruct (GetChainStateInfo _) as [stateInfo|err] eqn:Hinfo; [|eauto].
    destruct (bytes_Equal (Leader stateInfo) _) eqn:Hleader; simpl; [|eauto].
    exfalso.
    destruct Hcase as [-> | [Hstop | [Hne | [(sm & err & Hp & Hv) | (si & Hsi & Hl)]]]].
    + discriminate Hid.
    + discriminate Hstop.
    + apply bytes_Equal_false in Hne. congruence.
    + injection Hp as <-. change (Verify signedMsg (selfPKIid g) idMapper_Verify = None) in Hver.
      congruence.
    + injection Hsi as <-. apply bytes_Equal_false in Hl. congruence.
Qed.

(** ** handleMessage *)

(** [validateMsg] reads the tag-legality verdict of the inner message and
    nothing else: the envelope, hence the signature, plays no part. *)
Lemma validateMsg_reads_tag_only (g : gossipService) (m : ReceivedMessage)
    (msg : SignedRKSyncMessage) :
  GetRKSyncMessage m = Some msg ->
  validateMsg m g
  = (Returns (negb (not_nil (IsTagLegal (Signed_RKSyncMessage msg)))), g).
Proof.
  intros Hmsg. unfold validateMsg. run. rewrite Hmsg. simpl.
  now destruct (IsTagLegal _).
Qed.

Lemma validateMsg_ignores_envelope (g : gossipService) (m1 m2 : ReceivedMessage)
    (msg1 msg2 : SignedRKSyncMessage) :
  GetRKSyncMessage m1 = Some msg1 ->
  GetRKSyncMessage m2 = Some msg2 ->
  Signed_RKSyncMessage msg1 = Signed_RKSyncMessage msg2 ->
  fst (validateMsg m1 g) = fst (validateMsg m2 g).
Proof.
  intros H1 H2 Heq.
  rewrite (validateMsg_reads_tag_only g m1 msg1 H1).
  rewrite (validateMsg_reads_tag_only g m2 msg2 H2).
  now rewrite Heq.
Qed.

Lemma GetMemReq_only (m : RKSyncMessage) (memReq : MembershipRequest) :
  GetMemReq m = Some memReq ->
  GetState m = None /\ GetAliveMsg m = None /\ GetMemRes m = None.
Proof.
  unfold GetMemReq, GetState, GetAliveMsg, GetMemRes.
  destruct (Content m); intros Heq; try discriminate; auto.
Qed.

(** C5. An inbound membership request reaches the discovery adapter's
    inbound channel only if its self-information parses to an alive message
    whose membership PKI-id is the PKI-id of the connection's handshake;
    otherwise nothing is written to that channel.  A request that meets the
    condition, on a running service whose adapter is open, with a legal tag
    and no channel restriction, is forwarded. *)
Theorem handleMessage_membership_request (g : gossipService) (m : ReceivedMessage)
    (msg : SignedRKSyncMessage) (memReq : MembershipRequest) :
  GetRKSyncMessage m = Some msg ->
  GetMemReq (Signed_RKSyncMessage msg) = Some memReq ->
  let g' := snd (handleMessage (Some m) g) in
  let matches_handshake :=
    exists sMsg am membership ci,
      ToRKSyncMessage (SelfInformation memReq) = Ok sMsg
      /\ GetAliveMsg (Signed_RKSyncMessage sMsg) = Some am
      /\ Membership am = Some membership
      /\ GetConnectionInfo m = Some ci
      /\ PkiId membership = ID ci in
  (incChan_sends (calls g') = incChan_sends (calls g)
   \/ (incChan_sends (calls g') = incChan_sends (calls g) ++ [m] /\ matches_handshake))
  /\ (matches_handshake ->
      toDie g = false ->
      IsTagLegal (Signed_RKSyncMessage msg) = None ->
      IsChannelRestricted (Signed_RKSyncMessage msg) = false ->
      da_toDie (discAdapter g) = false ->
      handleMessage (Some m) g = (Returns tt, set_calls (calls g ++ [incChan_send m]) g)).
Proof.
  intros Hmsg Hreq.
  destruct (GetMemReq_only _ _ Hreq) as (Hstate & Halive & Hres).
  assert (Hcs : IsChainStateMsg msg = false) by (unfold IsChainStateMsg; now rewrite Hstate).
  simpl. split.
  - unfold handleMessage, validateMsg, selectOnlyDiscoveryMessages, forwardDiscoveryMsg.
    run. rewrite Hmsg. simpl. rewrite Hcs, Hreq.
    destruct (toDie g); simpl; [now left|].
    destruct (IsTagLegal _); simpl; [now left|].
    destruct (IsChannelRestricted _); simpl.
    { destruct (lookupChannel g m) as [gc|]; simpl; [|now left].
      left. rewrite incChan_sends_app. simpl. now rewrite app_nil_r. }
    rewrite orb_true_r. simpl.
    destruct (ToRKSyncMessage (SelfInformation memReq)) as [sMsg|err]; simpl; [|now left].
    unfold IsAliveMsg.
    destruct (GetAliveMsg (Signed_RKSyncMessage sMsg)) as [am|] eqn:Ham; simpl; [|now left].
    destruct (Membership am) as [membership|] eqn:Hmem; simpl; [|now left].
    destruct (GetConnectionInfo m) as [ci|]; simpl; [|now left].
    destruct (bytes_Equal (PkiId membership) (ID ci)) eqn:Hpki; simpl; [|now left].
    destruct (da_toDie (discAdapter g)); simpl; [now left|].
    right. rewrite incChan_sends_app. simpl. split; [reflexivity|].
    apply bytes_Equal_spec in Hpki. exists sMsg, am, membership, ci. auto.
  - intros (sMsg & am & membership & ci & Hparse & Ham & Hmem & Hci & Hpki)
           Hrun Htag Hrestricted Hda.
    unfold handleMessage, validateMsg, selectOnlyDiscoveryMessages, forwardDiscoveryMsg.
    run. rewrite Hmsg. simpl.
    rewrite Hrun, Htag, Hcs, Hrestricted, Hreq, Hparse. simpl.
    rewrite orb_true_r. simpl.
    unfold IsAliveMsg. rewrite Ham. simpl. rewrite Hmem. simpl. rewrite Hci. simpl.
    rewrite Hpki, bytes_Equal_refl. simpl. now rewrite Hda.
Qed.

Lemma existsb_bytes_Equal (self : list byte) (members : list (list byte)) :
  existsb (fun member => bytes_Equal member self) members = true <-> In self members.
Proof.
  rewrite existsb_exists. split.
  - intros (member & Hin & Heq). apply bytes_Equal_spec in Heq. now subst.
  - intros Hin. exists self. split; [assumption | apply bytes_Equal_refl].
Qed.

Lemma IsNotSameFilter_spec (sender p : list byte) :
  IsNotSameFilter sender p = true <-> p <> sender.
Proof.
  unfold IsNotSameFilter. rewrite negb_true_iff, bytes_Equal_false.
  split; intros Hne Heq; now apply Hne.
Qed.

Lemma lookupChannel_frame (g1 g2 : gossipService) (m : ReceivedMessage) :
  chanState g1 = chanState g2 -> lookupChannel g1 m = lookupChannel g2 m.
Proof. intros Heq. unfold lookupChannel. now rewrite Heq. Qed.

(** Splits a conjunction of facts about a short, explicit call list. *)
Ltac by_cases :=
  repeat match goal with
    | |- _ /\ _ => split
    | |- _ <-> _ => apply IsNotSameFilter_spec
    | |- forall _, _ => intro
    | Hin : In _ [] |- _ => destruct Hin
    | Hf : False |- _ => destruct Hf
    | Hor : _ \/ _ |- _ => destruct Hor as [Hor|Hor]; try discriminate Hor
    | Hin : In _ (_ :: _) |- _ => destruct Hin as [Hin|Hin]; try discriminate Hin
    | Heq : gc_HandleMessage _ _ = gc_HandleMessage _ _ |- _ => injection Heq as <- <-
    | Heq : chanState_joinChannel _ _ = chanState_joinChannel _ _ |- _ =>
        injection Heq as <- <-
    | Heq : Some _ = Some _ |- _ => injection Heq as <-
    | Heq : Ok _ = Ok _ |- _ => injection Heq as <-
    | Hex : exists _, _ |- _ => destruct Hex as (? & ?)
    | Hand : _ /\ _ |- _ => destruct Hand
    | _ => reflexivity || discriminate || assumption || congruence
    end.

(** C4. A chain-state message with a legal tag, received on a running
    service from connection [ci]: the first call is [emitter.Add] of the
    message with the filter that rejects exactly the sender's PKI-id, the
    second is [Add] on the chain-state store; every later call needs [Add]
    to have answered true; the message is delivered to the channel it
    resolves to; and [joinChannel] is called, as follower, only for a
    channel that did not resolve and a member list that contains the local
    PKI-id. *)
Theorem handleMessage_chain_state (g : gossipService) (m : ReceivedMessage)
    (msg : SignedRKSyncMessage) (ci : ConnectionInfo) :
  toDie g = false ->
  GetRKSyncMessage m = Some msg ->
  IsTagLegal (Signed_RKSyncMessage msg) = None ->
  IsChainStateMsg msg = true ->
  GetConnectionInfo m = Some ci ->
  let g' := snd (handleMessage (Some m) g) in
  let added := fst (MessageStore_Add (chainStateMsgStore g) msg) in
  let e := {| emitted_msg := msg; emitted_filter := IsNotSameFilter (ID ci) |} in
  let chainID := string_of_list_byte (Channel (Signed_RKSyncMessage msg)) in
  let declared_member :=
    exists info props,
      GetChainStateInfo (GetState (Signed_RKSyncMessage msg)) = Ok info
      /\ ChainStateInfo_Properties info = Some props
      /\ In (selfPKIid g) (Members props) in
  exists rest,
    calls g' = calls g ++ emitter_Add e :: chainStateMsgStore_Add msg :: rest
    /\ (forall p, emitted_filter e p = true <-> p <> ID ci)
    /\ chainStateMsgStore g' = snd (MessageStore_Add (chainStateMsgStore g) msg)
    /\ (added = false -> rest = [] /\ chanState g' = chanState g)
    /\ (forall c m', In (gc_HandleMessage c m') rest -> added = true /\ m' = m)
    /\ (forall c leader, In (chanState_joinChannel c leader) rest ->
          added = true /\ leader = false /\ c = chainID
          /\ lookupChannel g m = None /\ declared_member)
    /\ (forall c, added = true -> lookupChannel g m = Some c ->
          rest = [gc_HandleMessage c m])
    /\ (added = true -> lookupChannel g m = None -> declared_member ->
          rest = [chanState_joinChannel chainID false; gc_HandleMessage chainID m]).
Proof.
  intros Hrun Hmsg Htag Hcs Hci. simpl.
  unfold handleMessage, validateMsg, isInChannel, joinChannel, HandleMessage.
  run. rewrite Hrun, Hmsg. simpl. rewrite Htag, Hcs, Hci. simpl.
  destruct (MessageStore_Add (chainStateMsgStore g) msg) as [added store]. simpl.
  destruct added; simpl.
  2:{ exists []. rewrite <- app_assoc. by_cases. }
  rewrite (lookupChannel_frame _ g m) by reflexivity.
  destruct (lookupChannel g m) as [gc|] eqn:Hlook; simpl.
  { exists [gc_HandleMessage gc m]. repeat rewrite <- app_assoc. by_cases. }
  destruct (GetChainStateInfo _) as [info|err] eqn:Hinfo; simpl.
  2:{ exists []. rewrite <- app_assoc. by_cases. }
  destruct (ChainStateInfo_Properties info) as [props|] eqn:Hprops; simpl.
  2:{ exists []. rewrite <- app_assoc. by_cases. }
  destruct (existsb _ (Members props)) eqn:Hmember; simpl.
  2:{ exists []. rewrite <- app_assoc. by_cases.
      exfalso. match goal with Hin : In _ (Members _) |- _ =>
        apply existsb_bytes_Equal in Hin end. congruence. }
  apply existsb_bytes_Equal in Hmember.
  exists [chanState_joinChannel (string_of_list_byte (Channel (Signed_RKSyncMessage msg))) false;
          gc_HandleMessage (string_of_list_byte (Channel (Signed_RKSyncMessage msg))) m].
  destruct (chanState g !! _); simpl; repeat rewrite <- app_assoc; by_cases;
    try (exists info, props; auto).
Qed.

(** ** gossipBatch *)

Lemma partitionMessages_filter (pred : emittedRKSyncMessage -> bool)
    (a : list emittedRKSyncMessage) :
  partitionMessages pred a
  = (List.filter pred a, List.filter (fun m => negb (pred m)) a).
Proof.
  unfold partitionMessages.
  assert (Hgen : forall s1 s2,
            fold_left (fun '(s1, s2) m => if pred m then (s1 ++ [m], s2) else (s1, s2 ++ [m]))
                      a (s1, s2)
            = (s1 ++ List.filter pred a, s2 ++ List.filter (fun m => negb (pred m)) a)).
  { induction a as [|m a IH]; intros s1 s2; simpl.
    - now rewrite !app_nil_r.
    - destruct (pred m); simpl; rewrite IH, <- app_assoc; reflexivity. }
  apply Hgen.
Qed.

(** A loop whose body only records calls records the calls of every
    iteration, in order, and changes nothing else. *)
Lemma for_range_calls {A} (body : A -> M unit) (emit : gossipService -> A -> list Call) :
  (forall x g, body x g = (Returns tt, set_calls (calls g ++ emit g x) g)) ->
  (forall x g cs, emit (set_calls cs g) x = emit g x) ->
  forall l g,
    for_range l body g = (Returns tt, set_calls (calls g ++ flat_map (emit g) l) g).
Proof.
  intros Hbody Hframe l. induction l as [|x l IH]; intros g; simpl.
  - unfold ret. now rewrite set_calls_nil.
  - unfold bind. rewrite Hbody, IH. simpl.
    rewrite (flat_map_ext _ (emit g)) by (intros a; apply Hframe).
    now rewrite <- app_assoc.
Qed.

Lemma gossipBatch_sends (g : gossipService) (d : Discovery)
    (msgs : list emittedRKSyncMessage) :
  disc g = Some d ->
  let isAChainStateMsg := fun o => IsChainStateMsg (emitted_msg o) in
  gossipBatch msgs g
  = (Returns tt,
     set_calls (calls g
                ++ flat_map (chain_state_sends g d) (List.filter isAChainStateMsg msgs)
                ++ flat_map (alive_sends g d)
                     (List.filter (fun m => negb (isAChainStateMsg m)) msgs)) g).
Proof.
  intros Hd. simpl. unfold gossipBatch.
  unfold bind at 1. unfold get. rewrite Hd, partitionMessages_filter.
  unfold bind at 1.
  rewrite (for_range_calls _ (fun g => chain_state_sends g d)); [|reflexivity|reflexivity].
  rewrite (for_range_calls _ (fun g => alive_sends g d)).
  - simpl. now rewrite <- app_assoc.
  - intros e g0. unfold alive_sends.
    destruct (negb (IsAliveMsg (emitted_msg e))); [|reflexivity].
    unfold ret. now rewrite set_calls_nil.
  - reflexivity.
Qed.

(** C2. Given that [SelectPeers] only returns members of the list it is
    given that satisfy the predicate it is given: [gossipBatch] only
    records sends and changes nothing else, and every send is of a message
    [e] of the batch, to peers that all belong to the membership discovery
    returned, all pass [e]'s filter and, when [e] is a chain-state message
    whose channel is registered, are all members of that channel. *)
Theorem gossipBatch_recipients (g : gossipService) (msgs : list emittedRKSyncMessage) :
  (forall k members f p, In p (SelectPeers k members f) -> In p members /\ f p = true) ->
  exists sends,
    gossipBatch msgs g = (Returns tt, set_calls (calls g ++ sends) g)
    /\ forall c, In c sends ->
         exists e peers d,
           c = srv_Send (emitted_msg e) peers
           /\ In e msgs
           /\ disc g = Some d
           /\ forall p, In p peers ->
                In p (GetMembership d)
                /\ emitted_filter e (PKIID p) = true
                /\ (IsChainStateMsg (emitted_msg e) = true ->
                    forall gc,
                      getChannelByChainID g
                        (string_of_list_byte
                           (Channel (Signed_RKSyncMessage (emitted_msg e)))) = Some gc ->
                      IsMemberInChan gc p = true).
Proof.
  intros Hselect. destruct (disc g) as [d|] eqn:Hd.
  2:{ exists []. split.
      - unfold gossipBatch, bind, get, ret. now rewrite Hd, set_calls_nil.
      - intros c []. }
  eexists. split; [apply (gossipBatch_sends g d msgs Hd)|].
  intros c Hc. apply in_app_or in Hc as [Hc|Hc];
    apply in_flat_map in Hc as (e & He & Hc); apply filter_In in He as [Hin Hkind].
  - destruct Hc as [<-|[]].
    exists e, (SelectPeers (PropagatePeerNum (conf g)) (GetMembership d)
                 (chain_state_selector g e)), d.
    split; [reflexivity|]. split; [assumption|]. split; [reflexivity|].
    intros p Hp. apply Hselect in Hp as [Hmem Hsel]. split; [assumption|].
    unfold chain_state_selector in Hsel.
    destruct (getChannelByChainID g _) as [gc|]; [|split; [exact Hsel | discriminate]].
    unfold CombineRoutingFilters in Hsel. simpl in Hsel.
    apply andb_true_iff in Hsel as [Hfilter Hchan].
    apply andb_true_iff in Hchan as [Hchan _].
    split; [exact Hfilter|]. intros _ gc' [= <-]. exact Hchan.
  - unfold alive_sends in Hc.
    destruct (negb (IsAliveMsg (emitted_msg e))); [destruct Hc|].
    destruct Hc as [<-|[]].
    eexists e, _, d.
    split; [reflexivity|]. split; [assumption|]. split; [reflexivity|].
    intros p Hp. apply Hselect in Hp as [Hmem Hsel]. split; [assumption|].
    unfold CombineRoutingFilters, SelectAllPolicy in Hsel. simpl in Hsel.
    apply andb_true_iff in Hsel as [Hfilter _].
    split; [exact Hfilter|].
    intros Hcs. apply negb_true_iff in Hkind. congruence.
Qed.

End facts.

(** * Further properties of the service *)

Lemma filter_complement_Permutation {A} (p : A -> bool) (l : list A) :
  Permutation (List.filter p l ++ List.filter (fun x => negb (p x)) l) l.
Proof.
  induction l as [|x l IH]; simpl; [constructor|].
  destruct (p x); simpl.
  - now constructor.
  - symmetry. apply Permutation_cons_app. now symmetry.
Qed.

Lemma srv_sends_app (a b : list Call) : srv_sends (a ++ b) = srv_sends a ++ srv_sends b.
Proof. unfold srv_sends. apply flat_map_app. Qed.

Section more_facts.
Context `{Collaborators}.

Ltac run :=
  unfold bind, ret, get, gets, modify, raise, call, deref in *; simpl in *.

(** ** partitionMessages *)

(** X1. [partitionMessages] answers the messages that satisfy the predicate
    and the rest, each in the order of the input: together they are a
    rearrangement of the input, nothing lost and nothing repeated. *)
Theorem partitionMessages_splits (pred : emittedRKSyncMessage -> bool)
    (a : list emittedRKSyncMessage) :
  fst (partitionMessages pred a) = List.filter pred a
  /\ snd (partitionMessages pred a) = List.filter (fun m => negb (pred m)) a
  /\ Permutation (fst (partitionMessages pred a) ++ snd (partitionMessages pred a)) a
  /\ (length (fst (partitionMessages pred a)) + length (snd (partitionMessages pred a))
      = length a)%nat.
Proof.
  rewrite partitionMessages_filter. simpl.
  pose proof (filter_complement_Permutation pred a) as Hperm.
  repeat split; [exact Hperm|].
  apply Permutation_length in Hperm. now rewrite List.length_app in Hperm.
Qed.

(** ** handleMessage: what is dropped, what is forwarded *)

(** X2. [handleMessage] drops, without a call and without a change of
    state, a nil message, a message whose inner message is nil, and a
    message whose tag is not legal. *)
Theorem handleMessage_drops (g : gossipService) (m : option ReceivedMessage) :
  m = None
  \/ (exists rm, m = Some rm /\ GetRKSyncMessage rm = None)
  \/ (exists rm msg err,
        m = Some rm /\ GetRKSyncMessage rm = Some msg
        /\ IsTagLegal (Signed_RKSyncMessage msg) = Some err) ->
  handleMessage m g = (Returns tt, g).
Proof.
  intros [-> | [(rm & -> & Hnil) | (rm & msg & err & -> & Hmsg & Htag)]];
    unfold handleMessage, validateMsg; run.
  - now destruct (toDie g).
  - rewrite Hnil. now destruct (toDie g).
  - rewrite Hmsg. simpl. rewrite Htag. now destruct (toDie g).
Qed.

(** X3. A message with a legal tag that is no chain-state message and is
    channel restricted goes to the channel it resolves to and nowhere else:
    one [HandleMessage] on that channel, nothing for the emitter, the
    chain-state store or discovery; when it resolves to no channel it is
    dropped. *)
Theorem handleMessage_channel_restricted (g : gossipService) (m : ReceivedMessage)
    (msg : SignedRKSyncMessage) :
  toDie g = false ->
  GetRKSyncMessage m = Some msg ->
  IsTagLegal (Signed_RKSyncMessage msg) = None ->
  IsChainStateMsg msg = false ->
  IsChannelRestricted (Signed_RKSyncMessage msg) = true ->
  let g' := snd (handleMessage (Some m) g) in
  fst (handleMessage (Some m) g) = Returns tt
  /\ calls g' = calls g ++ match lookupChannel g m with
                           | Some chainID => [gc_HandleMessage chainID m]
                           | None => []
                           end
  /\ chainStateMsgStore g' = chainStateMsgStore g
  /\ (lookupChannel g m = None -> g' = g)
  /\ (forall chainID ch,
        lookupChannel g m = Some chainID ->
        chanState g !! chainID = Some ch ->
        chanState g' = <[chainID := Channel_HandleMessage ch m]> (chanState g)).
Proof.
  intros Hrun Hmsg Htag Hcs Hres. simpl.
  unfold handleMessage, validateMsg, HandleMessage. run.
  rewrite Hrun, Hmsg. simpl. rewrite Htag, Hcs, Hres. simpl.
  destruct (lookupChannel g m) as [chainID|]; simpl.
  - repeat split; try discriminate.
    intros c ch [= <-] Hch. apply map_eq. intros k.
    destruct (decide (chainID = k)) as [<-|Hne].
    + rewrite lookup_alter_eq, lookup_insert_eq, Hch. reflexivity.
    + rewrite lookup_alter_ne, lookup_insert_ne by assumption. reflexivity.
  - rewrite app_nil_r. repeat split; discriminate.
Qed.

(** X4. A message with a legal tag that is neither a chain-state message,
    nor channel restricted, nor a membership request: when it is an alive
    message or a membership response and the discovery adapter is open it
    is written, as it is, to the adapter's inbound channel, with no check
    against the handshake; in every other case it is dropped and the
    service is unchanged. *)
Theorem handleMessage_discovery_messages (g : gossipService) (m : ReceivedMessage)
    (msg : SignedRKSyncMessage) :
  toDie g = false ->
  GetRKSyncMessage m = Some msg ->
  IsTagLegal (Signed_RKSyncMessage msg) = None ->
  IsChainStateMsg msg = false ->
  IsChannelRestricted (Signed_RKSyncMessage msg) = false ->
  GetMemReq (Signed_RKSyncMessage msg) = None ->
  handleMessage (Some m) g
  = (Returns tt,
     if (not_nil (GetAliveMsg (Signed_RKSyncMessage msg))
         || not_nil (GetMemRes (Signed_RKSyncMessage msg)))
        && negb (da_toDie (discAdapter g))
     then set_calls (calls g ++ [incChan_send m]) g
     else g).
Proof.
  intros Hrun Hmsg Htag Hcs Hres Hreq.
  unfold handleMessage, validateMsg, selectOnlyDiscoveryMessages, forwardDiscoveryMsg.
  run. rewrite Hrun, Hmsg. simpl. rewrite Htag, Hcs, Hres, Hreq. simpl.
  rewrite orb_false_r.
  destruct (not_nil (GetAliveMsg _) || not_nil (GetMemRes _)); simpl; [|reflexivity].
  now destruct (da_toDie (discAdapter g)).
Qed.

(** ** handleMessage: what it leaves alone *)

Lemma evolves_refl (allowed : Call -> bool) (g : gossipService) : evolves allowed g g.
Proof.
  unfold evolves. repeat split; try reflexivity; [easy|].
  exists []. now rewrite app_nil_r.
Qed.

Lemma evolves_trans (allowed : Call -> bool) (g1 g2 g3 : gossipService) :
  evolves allowed g1 g2 -> evolves allowed g2 g3 -> evolves allowed g1 g3.
Proof.
  intros (Hid & Hself & Hconf & Hdisc & Hflag & Hda & Hreg & new1 & Hcalls1 & Hall1)
         (Hid' & Hself' & Hconf' & Hdisc' & Hflag' & Hda' & Hreg' & new2 & Hcalls2 & Hall2).
  unfold evolves. repeat split; try congruence.
  - intros chainID Hin. now apply Hreg', Hreg.
  - exists (new1 ++ new2). split.
    + now rewrite Hcalls2, Hcalls1, <- app_assoc.
    + rewrite forallb_app. now rewrite Hall1, Hall2.
Qed.

Lemma keeps_ret (allowed : Call -> bool) {A} (a : A) : keeps allowed (ret a).
Proof. intros g. apply evolves_refl. Qed.

Lemma keeps_get (allowed : Call -> bool) : keeps allowed get.
Proof. intros g. apply evolves_refl. Qed.

Lemma keeps_raise (allowed : Call -> bool) {A} (why : abort) :
  keeps allowed (raise (A := A) why).
Proof. intros g. apply evolves_refl. Qed.

Lemma keeps_deref (allowed : Call -> bool) {A} (p : option A) : keeps allowed (deref p).
Proof. destruct p; [apply keeps_ret | apply keeps_raise]. Qed.

Lemma keeps_bind (allowed : Call -> bool) {A B} (m : M A) (k : A -> M B) :
  keeps allowed m -> (forall a, keeps allowed (k a)) -> keeps allowed (bind m k).
Proof.
  intros Hm Hk g. unfold bind. specialize (Hm g).
  destruct (m g) as [[a|why] g']; simpl in *; [|exact Hm].
  eapply evolves_trans; [exact Hm | apply Hk].
Qed.

Lemma keeps_call (allowed : Call -> bool) (c : Call) :
  allowed c = true -> keeps allowed (call c).
Proof.
  intros Hc g. unfold call, modify, evolves. simpl.
  repeat split; [easy|]. exists [c]. simpl. now rewrite Hc.
Qed.

Lemma keeps_set_store (allowed : Call -> bool) (store : MessageStore) :
  keeps allowed (modify (set_chainStateMsgStore store)).
Proof.
  intros g. unfold modify, evolves. simpl.
  repeat split; [easy|]. exists []. now rewrite app_nil_r.
Qed.

Lemma keeps_joinChannel (allowed : Call -> bool) (chainID : string) (leader : bool) :
  allowed (chanState_joinChannel chainID leader) = true ->
  keeps allowed (joinChannel chainID leader).
Proof.
  intros Hc g. unfold joinChannel. run.
  destruct (chanState g !! chainID) as [ch|] eqn:Hch; simpl; unfold evolves; simpl.
  - repeat split; [easy|]. exists [chanState_joinChannel chainID leader].
    simpl. now rewrite Hc.
  - repeat split.
    + intros k Hk. destruct (decide (chainID = k)) as [<-|Hne].
      * rewrite lookup_insert_eq. eauto.
      * now rewrite lookup_insert_ne.
    + exists [chanState_joinChannel chainID leader]. simpl. now rewrite Hc.
Qed.

Lemma keeps_HandleMessage (allowed : Call -> bool) (chainID : string)
    (m : ReceivedMessage) :
  allowed (gc_HandleMessage chainID m) = true ->
  keeps allowed (HandleMessage chainID m).
Proof.
  intros Hc g. unfold HandleMessage. run. unfold evolves. simpl. repeat split.
  - intros k [ch Hk]. destruct (decide (chainID = k)) as [<-|Hne].
    + rewrite lookup_alter_eq, Hk. simpl. eauto.
    + rewrite lookup_alter_ne by assumption. eauto.
  - exists [gc_HandleMessage chainID m]. simpl. now rewrite Hc.
Qed.

Lemma keeps_validateMsg (allowed : Call -> bool) (m : ReceivedMessage) :
  keeps allowed (validateMsg m).
Proof.
  unfold validateMsg. apply keeps_bind; [apply keeps_deref|]. intros sm.
  destruct (IsTagLegal _); apply keeps_ret.
Qed.

Lemma keeps_isInChannel (allowed : Call -> bool) (m : ReceivedMessage) :
  keeps allowed (isInChannel m).
Proof.
  unfold isInChannel. apply keeps_bind; [apply keeps_deref|]. intros msg.
  apply keeps_bind; [apply keeps_get|]. intros g.
  destruct (GetChainStateInfo _); [|apply keeps_ret].
  apply keeps_bind; [apply keeps_deref|]. intros props. apply keeps_ret.
Qed.

Lemma keeps_forwardDiscoveryMsg (allowed : Call -> bool) (m : ReceivedMessage) :
  allowed (incChan_send m) = true ->
  keeps allowed (forwardDiscoveryMsg m).
Proof.
  intros Hc. unfold forwardDiscoveryMsg. apply keeps_bind; [apply keeps_get|]. intros g.
  destruct (da_toDie _); [apply keeps_ret | now apply keeps_call].
Qed.

Lemma keeps_selectOnlyDiscoveryMessages (allowed : Call -> bool) (m : ReceivedMessage) :
  keeps allowed (selectOnlyDiscoveryMessages m).
Proof.
  unfold selectOnlyDiscoveryMessages.
  apply keeps_bind; [apply keeps_deref|]. intros sm. apply keeps_ret.
Qed.

(** Walks through a method built from the pieces above. *)
Ltac keeps_steps :=
  repeat first
    [ apply keeps_ret | apply keeps_get | apply keeps_raise | apply keeps_deref
    | apply keeps_validateMsg | apply keeps_isInChannel
    | apply keeps_selectOnlyDiscoveryMessages
    | apply keeps_set_store
    | apply keeps_call; reflexivity
    | apply keeps_joinChannel; reflexivity
    | apply keeps_HandleMessage; reflexivity
    | apply keeps_forwardDiscoveryMsg; reflexivity
    | apply keeps_bind; [|intros ?]
    | match goal with
      | |- keeps _ (match ?x with _ => _ end) => destruct x
      end ].

Lemma keeps_handleMessage (m : option ReceivedMessage) :
  keeps inbound_call (handleMessage m).
Proof. unfold handleMessage. keeps_steps. Qed.

Lemma inbound_calls_send_nothing (new : list Call) :
  forallb inbound_call new = true -> srv_sends new = [].
Proof.
  induction new as [|c new IH]; simpl; [reflexivity|].
  intros Hall. apply andb_true_iff in Hall as [Hc Hnew].
  destruct c; try discriminate Hc; simpl; now apply IH.
Qed.

(** X5. Whatever the message and whatever the state, stopping or not,
    returning or panicking, [handleMessage] leaves the node id, the local
    PKI-id, the configuration, the discovery handle, the stop flag and the
    discovery adapter as they were, removes no channel from the registry,
    and adds to the call log only calls to the emitter, the chain-state
    store, the registry's join, a channel's [HandleMessage] and the
    adapter's inbound channel: it never sends on the transport and never
    starts a shutdown. *)
Theorem handleMessage_frame (g : gossipService) (m : option ReceivedMessage) :
  let g' := snd (handleMessage m g) in
  id g' = id g
  /\ selfPKIid g' = selfPKIid g
  /\ conf g' = conf g
  /\ disc g' = disc g
  /\ stopFlag g' = stopFlag g
  /\ discAdapter g' = discAdapter g
  /\ (forall chainID, is_Some (chanState g !! chainID) -> is_Some (chanState g' !! chainID))
  /\ (exists new, calls g' = calls g ++ new /\ forallb inbound_call new = true)
  /\ srv_sends (calls g') = srv_sends (calls g).
Proof.
  simpl.
  destruct (keeps_handleMessage m g)
    as (Hid & Hself & Hconf & Hdisc & Hflag & Hda & Hreg & new & Hcalls & Hall).
  repeat split; try assumption.
  - exists new. now split.
  - rewrite Hcalls, srv_sends_app, (inbound_calls_send_nothing new Hall).
    now rewrite app_nil_r.
Qed.

(** ** Stop *)


(** ** The discovery adapter *)

(** X7. [SendToPeer] sends at most one message and only to the peer it is
    given.  A closing adapter sends nothing.  An open adapter sends the
    message as it is when it is no membership request or the peer's PKI-id
    is empty; for a membership request to a peer with a PKI-id it panics
    when the self-information does not parse and sends nothing, silently,
    when the rewritten request cannot be signed. *)
Theorem SendToPeer_only_to_peer (g : gossipService) (peer : NetworkMember)
    (msg : SignedRKSyncMessage) :
  let g' := snd (SendToPeer peer msg g) in
  (g' = g \/ exists sent, g' = set_calls (calls g ++ [srv_Send sent [peer]]) g)
  /\ (da_toDie (discAdapter g) = true -> SendToPeer peer msg g = (Returns tt, g))
  /\ (da_toDie (discAdapter g) = false ->
      (GetMemReq (Signed_RKSyncMessage msg) = None \/ PKIID peer = []) ->
      SendToPeer peer msg g
      = (Returns tt, set_calls (calls g ++ [srv_Send msg [peer]]) g))
  /\ (forall memReq err,
        da_toDie (discAdapter g) = false ->
        GetMemReq (Signed_RKSyncMessage msg) = Some memReq ->
        PKIID peer <> [] ->
        ToRKSyncMessage (SelfInformation memReq) = Err err ->
        SendToPeer peer msg g
        = (Aborts (panic (errors_Wrap err
                            "Tried to send a membership request with a malformed AliveMessage")),
           g))
  /\ (forall memReq selfMsg err,
        da_toDie (discAdapter g) = false ->
        GetMemReq (Signed_RKSyncMessage msg) = Some memReq ->
        PKIID peer <> [] ->
        ToRKSyncMessage (SelfInformation memReq) = Ok selfMsg ->
        proto_Marshal
          (with_Content
             (RKSyncMessage_MemReq
                {| SelfInformation := snd (da_disclosurePolicy (discAdapter g) peer) selfMsg;
                   Known := Known memReq |})
             (Signed_RKSyncMessage msg)) = Err err ->
        SendToPeer peer msg g = (Returns tt, g)).
Proof.
  simpl. split; [|split; [|split; [|split]]].
  - unfold SendToPeer. run.
    destruct (da_toDie (discAdapter g)); simpl; [now left|].
    destruct (GetMemReq _) as [memReq|]; simpl; [|right; eauto].
    destruct (negb _); simpl; [|right; eauto].
    destruct (ToRKSyncMessage _) as [selfMsg|err]; simpl; [|now left].
    destruct (da_disclosurePolicy (discAdapter g) peer) as [sieve omit]; simpl.
    unfold NoopSign, proto_Clone. simpl.
    destruct (proto_Marshal _); simpl; [right; eauto | now left].
  - intros Hda. unfold SendToPeer. run. now rewrite Hda.
  - intros Hda Hplain. unfold SendToPeer. run. rewrite Hda. simpl.
    destruct (GetMemReq _) as [memReq|]; [|reflexivity].
    destruct Hplain as [Hnone | Hpki]; [discriminate|]. now rewrite Hpki.
  - intros memReq err Hda Hreq Hpki Hparse. unfold SendToPeer. run.
    rewrite Hda, Hreq, Hparse. simpl.
    destruct (PKIID peer); [congruence|reflexivity].
  - intros memReq selfMsg err Hda Hreq Hpki Hparse Hsign. unfold SendToPeer. run.
    rewrite Hda, Hreq, Hparse. simpl.
    destruct (PKIID peer) eqn:Hp; [congruence|]. simpl.
    destruct (da_disclosurePolicy (discAdapter g) peer) as [sieve omit]; simpl in *.
    unfold NoopSign, proto_Clone. simpl. now rewrite Hsign.
Qed.

(** X8. With the disclosure policy [newDiscoveryAdapter] installs, the
    membership request [SendToPeer] sends carries the envelope of the
    parsed self-information untouched: when parsing keeps the envelope it
    was given, the inner message sent is the original one. *)
Theorem SendToPeer_default_policy (g : gossipService) (peer : NetworkMember)
    (msg sent : SignedRKSyncMessage) (memReq : MembershipRequest)
    (selfMsg : SignedRKSyncMessage) :
  da_disclosurePolicy (discAdapter g) = disclosurePolicy ->
  GetMemReq (Signed_RKSyncMessage msg) = Some memReq ->
  ToRKSyncMessage (SelfInformation memReq) = Ok selfMsg ->
  snd (SendToPeer peer msg g) = set_calls (calls g ++ [srv_Send sent [peer]]) g ->
  (PKIID peer <> [] ->
   GetMemReq (Signed_RKSyncMessage sent)
   = Some {| SelfInformation := Signed_Envelope selfMsg; Known := Known memReq |})
  /\ (Signed_Envelope selfMsg = SelfInformation memReq ->
      Signed_RKSyncMessage sent = Signed_RKSyncMessage msg).
Proof.
  intros Hpolicy Hreq Hparse. unfold SendToPeer. run.
  rewrite Hreq, Hparse, Hpolicy. simpl.
  assert (Hnot : forall g0 : gossipService, g0 <> set_calls (calls g0 ++ [srv_Send sent [peer]]) g0).
  { intros g0 Heq. apply (f_equal calls) in Heq. simpl in Heq. symmetry in Heq.
    now apply app_one_neq in Heq. }
  assert (Hsame : forall a b : SignedRKSyncMessage,
            set_calls (calls g ++ [srv_Send a [peer]]) g
            = set_calls (calls g ++ [srv_Send b [peer]]) g -> a = b).
  { intros a b Heq. apply (f_equal calls) in Heq. simpl in Heq.
    apply app_inv_head in Heq. now injection Heq. }
  destruct (da_toDie (discAdapter g)); simpl; [intros Heq; now apply Hnot in Heq|].
  destruct (PKIID peer) as [|b pki] eqn:Hpki; simpl.
  - intros Heq. apply Hsame in Heq as <-. split; [congruence|].
    reflexivity.
  - unfold NoopSign, proto_Clone. simpl.
    destruct (proto_Marshal _); simpl; [|intros Heq; now apply Hnot in Heq].
    intros Heq. apply Hsame in Heq as <-. simpl. split; [reflexivity|].
    intros Henv. rewrite Henv. unfold with_Content.
    destruct msg as [env [nonce channel tag content]]. simpl in *.
    unfold GetMemReq in Hreq. simpl in Hreq.
    destruct content; try discriminate. injection Hreq as ->.
    now destruct memReq.
Qed.

(** X9. With a non-zero PropagateIterations and an open adapter, [Gossip]
    hands the message to the emitter with a filter that accepts every
    PKI-id, and [Forward] hands the inner message of a received message to
    the emitter with a filter that rejects the PKI-id of the connection it
    came from and accepts every other; a closing adapter hands over
    nothing, whatever the configuration. *)
Theorem Gossip_and_Forward_emit (g : gossipService) (msg : SignedRKSyncMessage)
    (rm : ReceivedMessage) (sm : SignedRKSyncMessage) (ci : ConnectionInfo) :
  GetRKSyncMessage rm = Some sm ->
  GetConnectionInfo rm = Some ci ->
  (da_toDie (discAdapter g) = true ->
   Gossip msg g = (Returns tt, g) /\ Forward rm g = (Returns tt, g))
  /\ (da_toDie (discAdapter g) = false ->
      PropagateIterations (conf g) <> 0 ->
      exists e1 e2,
        Gossip msg g = (Returns tt, set_calls (calls g ++ [emitter_Add e1]) g)
        /\ emitted_msg e1 = msg
        /\ (forall p, emitted_filter e1 p = true)
        /\ Forward rm g = (Returns tt, set_calls (calls g ++ [emitter_Add e2]) g)
        /\ emitted_msg e2 = sm
        /\ (forall p, emitted_filter e2 p = true <-> p <> ID ci)).
Proof.
  intros Hsm Hci. split.
  - intros Hda. unfold Gossip, Forward. run. now rewrite Hda.
  - intros Hda Hiter. apply Z.eqb_neq in Hiter.
    unfold Gossip, Forward, gossipFunc, forwardFunc. run.
    rewrite Hda, Hiter, Hsm, Hci. simpl.
    eexists _, _. repeat split; simpl; try reflexivity; apply IsNotSameFilter_spec.
Qed.

(** ** gossipBatch *)

Lemma srv_sends_chain_state (g : gossipService) (d : Discovery)
    (l : list emittedRKSyncMessage) :
  List.map fst (srv_sends (flat_map (chain_state_sends g d) l)) = List.map emitted_msg l.
Proof. induction l as [|e l IH]; simpl; [reflexivity | now rewrite IH]. Qed.

Lemma srv_sends_alive (g : gossipService) (d : Discovery)
    (l : list emittedRKSyncMessage) :
  List.map fst (srv_sends (flat_map (alive_sends g d) l))
  = List.map emitted_msg (List.filter (fun e => IsAliveMsg (emitted_msg e)) l).
Proof.
  induction l as [|e l IH]; simpl; [reflexivity|].
  unfold srv_sends in *. rewrite flat_map_app, List.map_app, IH.
  unfold alive_sends. now destruct (IsAliveMsg (emitted_msg e)).
Qed.

(** X10. [gossipBatch] without a discovery sends nothing.  With one, it
    sends each chain-state message of the batch once, in batch order, then
    each alive message once, in batch order; a message that is neither is
    never sent. *)
Theorem gossipBatch_sent_messages (g : gossipService) (msgs : list emittedRKSyncMessage) :
  let g' := snd (gossipBatch msgs g) in
  fst (gossipBatch msgs g) = Returns tt
  /\ List.map fst (srv_sends (calls g'))
     = List.map fst (srv_sends (calls g))
       ++ match disc g with
          | None => []
          | Some _ =>
              List.map emitted_msg
                (List.filter (fun e => IsChainStateMsg (emitted_msg e)) msgs
                 ++ List.filter (fun e => negb (IsChainStateMsg (emitted_msg e))
                                          && IsAliveMsg (emitted_msg e)) msgs)
          end.
Proof.
  simpl. destruct (disc g) as [d|] eqn:Hd.
  - rewrite (gossipBatch_sends g d msgs Hd). simpl. split; [reflexivity|].
    rewrite !srv_sends_app, !List.map_app, srv_sends_chain_state, srv_sends_alive.
    do 2 f_equal. clear.
    induction msgs as [|e l IH]; simpl; [reflexivity|].
    destruct (IsChainStateMsg (emitted_msg e)); simpl; [exact IH|].
    destruct (IsAliveMsg (emitted_msg e)); simpl; now rewrite IH.
  - unfold gossipBatch. run. rewrite Hd. simpl. now rewrite app_nil_r.
Qed.

(** X11. A message relayed by [Forward] is not echoed: when [gossipBatch]
    later sends the entry [Forward] handed to the emitter, no recipient has
    the PKI-id of the connection the message came from (given that
    [SelectPeers] only returns members that satisfy its predicate). *)
Theorem forwarded_message_not_echoed (g g2 : gossipService) (rm : ReceivedMessage)
    (sm : SignedRKSyncMessage) (ci : ConnectionInfo) :
  (forall k members f p, In p (SelectPeers k members f) -> In p members /\ f p = true) ->
  GetRKSyncMessage rm = Some sm ->
  GetConnectionInfo rm = Some ci ->
  da_toDie (discAdapter g) = false ->
  PropagateIterations (conf g) <> 0 ->
  exists e,
    emitter_adds (calls (snd (Forward rm g))) = emitter_adds (calls g) ++ [e]
    /\ exists sends,
         srv_sends (calls (snd (gossipBatch [e] g2))) = srv_sends (calls g2) ++ sends
         /\ forall sent peers p,
              In (sent, peers) sends -> In p peers -> sent = sm /\ PKIID p <> ID ci.
Proof.
  intros Hselect Hsm Hci Hda Hiter. apply Z.eqb_neq in Hiter.
  exists {| emitted_msg := sm; emitted_filter := IsNotSameFilter (ID ci) |}. split.
  - unfold Forward, forwardFunc. run. rewrite Hda, Hiter, Hsm, Hci. simpl.
    now rewrite emitter_adds_app.
  - destruct (disc g2) as [d|] eqn:Hd.
    2:{ exists []. split; [|intros ? ? ? []].
        unfold gossipBatch. run. rewrite Hd. simpl. now rewrite app_nil_r. }
    rewrite (gossipBatch_sends g2 d _ Hd). simpl. rewrite srv_sends_app.
    eexists. split; [reflexivity|].
    intros sent peers p Hin Hp. rewrite srv_sends_app in Hin.
    assert (Hpass : forall f : RoutingFilter,
              In p (SelectPeers (PropagatePeerNum (conf g2)) (GetMembership d) f) ->
              (forall q, f q = true -> IsNotSameFilter (ID ci) (PKIID q) = true) ->
              PKIID p <> ID ci).
    { intros f Hf Himp. apply Hselect in Hf as [_ Hf].
      now apply IsNotSameFilter_spec, Himp. }
    apply in_app_or in Hin as [Hin|Hin].
    + destruct (IsChainStateMsg sm); simpl in Hin; [|destruct Hin].
      unfold chain_state_sends in Hin. simpl in Hin.
      destruct Hin as [[= <- <-]|[]]. split; [reflexivity|].
      apply (Hpass _ Hp). intros q. unfold chain_state_selector. simpl.
      destruct (getChannelByChainID g2 _); [|easy].
      unfold CombineRoutingFilters. simpl. intros Hq.
      now apply andb_true_iff in Hq as [Hq _].
    + destruct (IsChainStateMsg sm); simpl in Hin; [destruct Hin|].
      unfold alive_sends in Hin. simpl in Hin.
      destruct (IsAliveMsg sm); simpl in Hin; [|destruct Hin].
      destruct Hin as [[= <- <-]|[]]. split; [reflexivity|].
      apply (Hpass _ Hp). intros q. unfold CombineRoutingFilters, SelectAllPolicy. simpl.
      intros Hq. now apply andb_true_iff in Hq as [Hq _].
Qed.

(** ** InitializeChannel accepted *)

(** X12. When the chain id is not empty, the service is running, the MAC
    matches, the envelope parses, the signature verifies and the leader is
    the local PKI-id, [InitializeChannel] joins the channel as leader,
    hands the chain state to that channel and answers what the channel
    answers; the registry then holds the initialised channel under the
    chain id, a channel already registered is reused rather than replaced
    by a new one, and every other channel is as it was. *)
Theorem InitializeChannel_accepts (g : gossipService) (chainID : string)
    (chainState : ChainState) (signedMsg : SignedRKSyncMessage)
    (stateInfo : ChainStateInfo) :
  chainID <> "" ->
  toDie g = false ->
  ChainMac chainState = GenerateMAC (selfPKIid g) chainID ->
  ToRKSyncMessage (ChainState_Envelope chainState) = Ok signedMsg ->
  Verify signedMsg (selfPKIid g) idMapper_Verify = None ->
  GetChainStateInfo (Some chainState) = Ok stateInfo ->
  Leader stateInfo = selfPKIid g ->
  let ch := match chanState g !! chainID with
            | Some ch => ch
            | None => NewChannel chainID true
            end in
  let g' := snd (InitializeChannel chainID chainState g) in
  fst (InitializeChannel chainID chainState g)
  = Returns (snd (InitializeWithChainState ch chainState))
  /\ calls g' = calls g ++ [chanState_joinChannel chainID true;
                            gc_InitializeWithChainState chainID chainState]
  /\ chanState g' = <[chainID := fst (InitializeWithChainState ch chainState)]> (chanState g)
  /\ chainStateMsgStore g' = chainStateMsgStore g.
Proof.
  intros Hid Hrun Hmac Hparse Hver Hinfo Hleader. simpl.
  apply String_eqb_false in Hid.
  unfold InitializeChannel, joinChannel. run.
  rewrite Hid, Hrun, Hmac, bytes_Equal_refl. simpl. rewrite Hparse.
  change (Verify signedMsg (selfPKIid g)
            (fun peerIdentity signature message =>
               idMapper_Verify peerIdentity signature message))
    with (Verify signedMsg (selfPKIid g) idMapper_Verify).
  rewrite Hver, Hinfo, Hleader, bytes_Equal_refl. simpl.
  destruct (chanState g !! chainID) as [ch|] eqn:Hch; simpl.
  - rewrite Hch. destruct (InitializeWithChainState ch chainState) as [ch' err]. simpl.
    rewrite <- app_assoc. auto.
  - rewrite lookup_insert_eq.
    destruct (InitializeWithChainState _ chainState) as [ch' err]. simpl.
    rewrite <- app_assoc, insert_insert_eq. auto.
Qed.

End more_facts.

Section channel_facts.
Context `{ChannelMethods}.

Ltac run :=
  unfold bind, ret, get, gets, modify, raise, call, deref in *; simpl in *.

(** ** Channel management *)

(** X13. For a chain id with no channel in the registry, [SelfChannelInfo]
    answers nil, and [AddMemberToChan] and [AddFileToChan] answer no chain
    state and the error "Channel %s not yet created" for that chain id;
    none of them changes the service. *)
Theorem operations_on_unknown_channel (g : gossipService) (chainID : string)
    (member : list byte) (file : FileSyncInfo) :
  getChannelByChainID g chainID = None ->
  let not_created := errors_Errorf "Channel %s not yet created" [arg_string chainID] in
  SelfChannelInfo chainID g = (Returns None, g)
  /\ AddMemberToChan chainID member g = (Returns (None, Some not_created), g)
  /\ AddFileToChan chainID file g = (Returns (None, Some not_created), g).
Proof.
  intros Hnone. unfold SelfChannelInfo, AddMemberToChan, AddFileToChan. run.
  now rewrite Hnone.
Qed.

(** X14. [CreateChannel] refuses an empty chain id and a stopping service
    with an error, no chain state and no change.  Otherwise it joins the
    channel as leader and initialises it with the local PKI-id as the only
    member and the files it was given, answers what the channel answers,
    and leaves every other channel as it was; no MAC and no signature is
    checked on this path. *)
Theorem CreateChannel_joins_as_leader (g : gossipService) (chainID : string)
    (files : list FileSyncInfo) :
  (chainID = "" \/ toDie g = true ->
   exists e, CreateChannel chainID files g = (Returns (None, Some e), g))
  /\ (chainID <> "" ->
      toDie g = false ->
      let ch := match chanState g !! chainID with
                | Some ch => ch
                | None => NewChannel chainID true
                end in
      let g' := snd (CreateChannel chainID files g) in
      fst (CreateChannel chainID files g)
      = Returns (snd (Initialize ch [selfPKIid g] files))
      /\ calls g' = calls g ++ [chanState_joinChannel chainID true]
      /\ chanState g' = <[chainID := fst (Initialize ch [selfPKIid g] files)]> (chanState g)).
Proof.
  split.
  - intros Hcase. unfold CreateChannel. run.
    destruct (String.eqb chainID "") eqn:Hid; [eauto|].
    destruct Hcase as [-> | ->]; [discriminate Hid | eauto].
  - intros Hid Hrun. simpl. apply String_eqb_false in Hid.
    unfold CreateChannel, joinChannel. run. rewrite Hid, Hrun. simpl.
    destruct (chanState g !! chainID) as [ch|] eqn:Hch; simpl.
    + rewrite Hch. destruct (Initialize ch _ files) as [ch' answer]. simpl. auto.
    + rewrite lookup_insert_eq.
      destruct (Initialize _ _ files) as [ch' answer]. simpl.
      rewrite insert_insert_eq. auto.
Qed.

(** X15. [CloseChannel] ignores the empty chain id.  For any other chain id
    the channel is gone afterwards: [SelfChannelInfo] answers nil and
    [AddMemberToChan] answers the not-created error, while every other
    channel is as it was; and closing a channel that [CreateChannel] has
    just created, where none was registered before, gives back the
    registry as it was before the creation. *)
Theorem CloseChannel_removes_channel (g : gossipService) (chainID : string)
    (member : list byte) (files : list FileSyncInfo) :
  CloseChannel "" g = (Returns tt, g)
  /\ (chainID <> "" ->
      let g' := snd (CloseChannel chainID g) in
      fst (SelfChannelInfo chainID g') = Returns None
      /\ fst (AddMemberToChan chainID member g')
         = Returns (None, Some (errors_Errorf "Channel %s not yet created"
                                  [arg_string chainID]))
      /\ (forall other, other <> chainID -> chanState g' !! other = chanState g !! other)
      /\ (toDie g = false ->
          chanState g !! chainID = None ->
          chanState (snd (CloseChannel chainID (snd (CreateChannel chainID files g))))
          = chanState g)).
Proof.
  split; [reflexivity|].
  intros Hid. simpl. apply String_eqb_false in Hid.
  unfold CloseChannel, removeChannel, SelfChannelInfo, AddMemberToChan, getChannelByChainID.
  rewrite Hid. run. rewrite lookup_delete_eq. simpl.
  repeat split.
  - intros other Hne. now rewrite lookup_delete_ne.
  - intros Hrun Hnone. unfold CreateChannel, joinChannel. run.
    rewrite Hid, Hrun, Hnone. simpl. rewrite lookup_insert_eq.
    destruct (Initialize _ _ files) as [ch' answer]. simpl.
    rewrite insert_insert_eq, delete_insert_eq. now apply delete_id.
Qed.

(** X16. Once the stop flag is set, [handleMessage] drops every message,
    and [InitializeChannel] and [CreateChannel] refuse every non-empty
    chain id with the error "RKSync service is stopping", all without a
    change; once the adapter's flag is set, [Gossip], [Forward],
    [SendToPeer] and [forwardDiscoveryMsg] return without a change. *)
Theorem stopped_service_is_inert (g : gossipService) :
  (toDie g = true ->
   (forall m, handleMessage m g = (Returns tt, g))
   /\ (forall chainID chainState,
         chainID <> "" ->
         InitializeChannel chainID chainState g
         = (Returns (Some (errors_New "RKSync service is stopping")), g))
   /\ (forall chainID files,
         chainID <> "" ->
         CreateChannel chainID files g
         = (Returns (None, Some (errors_New "RKSync service is stopping")), g)))
  /\ (da_toDie (discAdapter g) = true ->
      (forall msg, Gossip msg g = (Returns tt, g))
      /\ (forall rm, Forward rm g = (Returns tt, g))
      /\ (forall peer msg, SendToPeer peer msg g = (Returns tt, g))
      /\ (forall rm, forwardDiscoveryMsg rm g = (Returns tt, g))).
Proof.
  split.
  - intros Hdie. repeat split.
    + intros m. unfold handleMessage. run. now rewrite Hdie.
    + intros chainID chainState Hid. apply String_eqb_false in Hid.
      unfold InitializeChannel. run. now rewrite Hid, Hdie.
    + intros chainID files Hid. apply String_eqb_false in Hid.
      unfold CreateChannel. run. now rewrite Hid, Hdie.
  - intros Hda. repeat split; intros;
      unfold Gossip, Forward, SendToPeer, forwardDiscoveryMsg; run; now rewrite Hda.
Qed.

End channel_facts.

(** ** Bootstrap *)

(** X17. The identifier [connect2BootstrapPeers] gives discovery for a
    bootstrap endpoint never answers an empty PKI-id: it answers the
    handshake's error when the handshake fails, an error when the PKI-id
    derived from the remote identity is empty, and otherwise that PKI-id,
    derived from the identity the handshake with that endpoint returned. *)
Theorem identifier_never_empty `{Bootstrap} (endpoint : string) :
  let peer := {| NetworkMember_Endpoint := endpoint; PKIID := [] |} in
  (forall pkiID,
     identifier endpoint = Ok pkiID ->
     pkiID <> []
     /\ exists remotePeerIdentity,
          Handshake peer = Ok remotePeerIdentity
          /\ pkiID = idMapper_GetPKIidOfCert remotePeerIdentity)
  /\ (forall err, Handshake peer = Err err -> identifier endpoint = Err err)
  /\ (forall remotePeerIdentity,
        Handshake peer = Ok remotePeerIdentity ->
        idMapper_GetPKIidOfCert remotePeerIdentity = [] ->
        exists err, identifier endpoint = Err err).
Proof.
  simpl. unfold identifier, errors_WithStack. split; [|split].
  - intros pkiID Hok.
    destruct (Handshake _) as [identity|err]; [|discriminate].
    destruct (idMapper_GetPKIidOfCert identity) as [|b pki] eqn:Hpki;
      simpl in Hok; [discriminate|].
    injection Hok as <-. split; [discriminate|]. exists identity. now rewrite Hpki.
  - intros err ->. reflexivity.
  - intros identity -> ->. simpl. eauto.
Qed.

(** * Properties of the SerializedIdentity codec *)

Section identity_facts.
Import identity_pb.

(** Decides the integer comparisons in the goal by the arithmetic at hand. *)
Ltac zb :=
  repeat match goal with
    | |- context [?a <=? ?b] =>
        destruct (Z.leb_spec a b); try lia; simpl
    | |- context [?a <? ?b] =>
        destruct (Z.ltb_spec a b); try lia; simpl
    | |- context [?a =? ?b] =>
        destruct (Z.eqb_spec a b); try lia; simpl
    end.

Lemma byte_val_range (b : byte) : 0 <= byte_val b < 256.
Proof.
  unfold byte_val. pose proof (Byte.to_N_bounded b) as Hb. lia.
Qed.

Lemma byte_val_uint8 (z : Z) : byte_val (uint8 z) = z mod 256.
Proof.
  unfold byte_val, uint8.
  assert (Hr : 0 <= z mod 256 < 256) by (apply Z.mod_pos_bound; lia).
  destruct (Byte.of_N (Z.to_N (z mod 256))) as [b|] eqn:Hb.
  - apply Byte.to_of_N in Hb. rewrite Hb. lia.
  - apply Byte.of_N_None_iff in Hb. lia.
Qed.

Lemma uint8_byte_val (b : byte) : uint8 (byte_val b) = b.
Proof.
  unfold uint8, byte_val. pose proof (Byte.to_N_bounded b) as Hb.
  rewrite Z.mod_small by lia. rewrite N2Z.id, Byte.of_to_N. reflexivity.
Qed.

Lemma len_app {A} (a b : list A) : len (a ++ b) = len a + len b.
Proof. unfold len. rewrite List.length_app. lia. Qed.

Lemma len_nonneg {A} (a : list A) : 0 <= len a.
Proof. unfold len. lia. Qed.

Lemma load_in_range (dAtA : list byte) (i : Z) :
  0 <= i < len dAtA -> exists b, load dAtA i = Fin b /\ dAtA !! Z.to_nat i = Some b.
Proof.
  intros Hi. unfold load, len in *.
  destruct (dAtA !! Z.to_nat i) as [b|] eqn:Hb.
  - exists b. zb. auto.
  - apply lookup_ge_None in Hb. lia.
Qed.

Lemma load_middle (pre post : list byte) (b : byte) :
  load (pre ++ b :: post) (len pre) = Fin b.
Proof.
  unfold load, len. zb.
  rewrite Nat2Z.id, list_lookup_middle; reflexivity.
Qed.

Lemma slice_middle (pre payload post : list byte) :
  slice (pre ++ payload ++ post) (len pre) (len pre + len payload) = Fin payload.
Proof.
  unfold slice. rewrite !len_app.
  pose proof (len_nonneg pre). pose proof (len_nonneg payload). pose proof (len_nonneg post).
  zb. unfold len. rewrite Nat2Z.id, drop_app_length.
  replace (Z.to_nat (Z.of_nat (length pre) + Z.of_nat (length payload) - Z.of_nat (length pre)))
    with (length payload) by lia.
  now rewrite take_app_length.
Qed.

(** ** sovIdentity *)

Lemma sov_loop_counts (budget : nat) (n0 x : Z) :
  0 <= x < 2 ^ (7 * (Z.of_nat budget + 1)) ->
  exists k,
    sov_loop budget n0 x = Fin (n0 + k)
    /\ 1 <= k <= Z.of_nat budget + 1
    /\ x < 2 ^ (7 * k)
    /\ (1 < k -> 2 ^ (7 * (k - 1)) <= x).
Proof.
  revert n0 x. induction budget as [|budget IH]; intros n0 x Hx.
  - simpl in Hx. exists 1. simpl.
    rewrite Z.shiftr_div_pow2 by lia.
    rewrite Z.div_small by lia. simpl. repeat split; lia.
  - cbn [sov_loop]. rewrite Z.shiftr_div_pow2 by lia.
    destruct (x / 2 ^ 7 =? 0) eqn:Hz.
    + apply Z.eqb_eq in Hz. exists 1.
      assert (x < 2 ^ 7).
      { destruct (Z.lt_ge_cases x (2 ^ 7)) as [Hlt|Hge]; [exact Hlt|].
        assert (1 <= x / 2 ^ 7) by (apply Z.div_le_lower_bound; lia). lia. }
      repeat split; lia.
    + apply Z.eqb_neq in Hz.
      assert (Hx' : 0 <= x / 2 ^ 7 < 2 ^ (7 * (Z.of_nat budget + 1))).
      { split; [apply Z.div_pos; lia|].
        apply Z.div_lt_upper_bound; [lia|].
        rewrite <- Z.pow_add_r by lia.
        replace (7 + 7 * (Z.of_nat budget + 1)) with (7 * (Z.of_nat (S budget) + 1)) by lia.
        lia. }
      destruct (IH (n0 + 1) (x / 2 ^ 7) Hx') as (k & Hrun & Hk & Hup & Hlow).
      exists (k + 1). rewrite Hrun. repeat split; try lia.
      * f_equal. lia.
      * replace (7 * (k + 1)) with (7 + 7 * k) by lia.
        rewrite Z.pow_add_r by lia.
        assert (x / 2 ^ 7 + 1 <= 2 ^ (7 * k)) by lia.
        pose proof (Z.mul_succ_div_gt x (2 ^ 7) ltac:(lia)) as Hgt. nia.
      * intros _. replace (k + 1 - 1) with k by lia.
        destruct (Z.eq_dec k 1) as [->|Hne].
        -- assert (1 <= x / 2 ^ 7) by (pose proof (Z.div_pos x (2 ^ 7)); lia).
           pose proof (Z.mul_div_le x (2 ^ 7) ltac:(lia)). lia.
        -- assert (Hl : 2 ^ (7 * (k - 1)) <= x / 2 ^ 7) by (apply Hlow; lia).
           replace (7 * k) with (7 + 7 * (k - 1)) by lia.
           rewrite Z.pow_add_r by lia.
           pose proof (Z.mul_div_le x (2 ^ 7) ltac:(lia)). nia.
Qed.

(** X18. For a 64-bit value, [sovIdentity] answers the number of groups of
    seven bits the value needs: between 1 and 10, the value fits in that
    many groups, and it does not fit in fewer. *)
Theorem sovIdentity_counts_groups (x : Z) :
  0 <= x < 2 ^ 64 ->
  exists n,
    sovIdentity x = Fin n
    /\ 1 <= n <= 10
    /\ x < 2 ^ (7 * n)
    /\ (1 < n -> 2 ^ (7 * (n - 1)) <= x).
Proof.
  intros Hx. unfold sovIdentity.
  destruct (sov_loop_counts 10 0 x) as (k & Hrun & Hk & Hup & Hlow).
  { simpl. lia. }
  assert (Hten : k <= 10).
  { destruct (Z.le_gt_cases k 10) as [Hle|Hgt]; [exact Hle|].
    assert (k = 11) by (simpl in Hk; lia). subst k.
    assert (2 ^ (7 * (11 - 1)) <= x) by (apply Hlow; lia).
    change (2 ^ (7 * (11 - 1))) with 1180591620717411303424 in *.
    change (2 ^ 64) with 18446744073709551616 in *. lia. }
  exists k. rewrite Hrun. split; [reflexivity|]. split; [lia|]. split; assumption.
Qed.

(** ** Varints *)

Lemma shiftr7_small (v : Z) : 0 <= v -> (128 <=? v) = negb (Z.shiftr v 7 =? 0).
Proof.
  intros Hv. rewrite Z.shiftr_div_pow2 by lia. change (2 ^ 7) with 128.
  destruct (Z.leb_spec 128 v) as [Hge|Hlt].
  - assert (1 <= v / 128) by (apply Z.div_le_lower_bound; lia).
    destruct (Z.eqb_spec (v / 128) 0); [lia | reflexivity].
  - rewrite Z.div_small by lia. reflexivity.
Qed.

Lemma shiftr7_bound (v : Z) (n : Z) :
  0 <= n -> 0 <= v < 2 ^ (7 + n) -> 0 <= Z.shiftr v 7 < 2 ^ n.
Proof.
  intros Hn Hv. rewrite Z.shiftr_div_pow2 by lia. split.
  - apply Z.div_pos; lia.
  - apply Z.div_lt_upper_bound; [lia|]. rewrite <- Z.pow_add_r by lia. lia.
Qed.

(** The varint of [v] has as many bytes as [sovIdentity] counts. *)
Lemma sov_loop_varint_bytes (budget : nat) (n0 v : Z) :
  0 <= v < 2 ^ (7 * (Z.of_nat budget + 1)) ->
  sov_loop budget n0 v = Fin (n0 + len (varint_bytes budget v)).
Proof.
  revert n0 v. induction budget as [|budget IH]; intros n0 v Hv.
  - cbn [sov_loop varint_bytes]. simpl in Hv.
    rewrite Z.shiftr_div_pow2, Z.div_small by lia. reflexivity.
  - cbn [sov_loop varint_bytes]. rewrite shiftr7_small by lia.
    destruct (Z.shiftr v 7 =? 0) eqn:Hz; simpl; [reflexivity|].
    rewrite IH.
    + f_equal. unfold len. simpl. lia.
    + apply shiftr7_bound; [lia|].
      replace (7 + 7 * (Z.of_nat budget + 1)) with (7 * (Z.of_nat (S budget) + 1)) by lia.
      exact Hv.
Qed.

Lemma store_middle (pre post : list byte) (old b : byte) :
  store (pre ++ old :: post) (len pre) b = Fin (pre ++ b :: post).
Proof.
  unfold store. rewrite len_app. unfold len. simpl. zb.
  rewrite Nat2Z.id, insert_app_r_alt by lia.
  now rewrite Nat.sub_diag.
Qed.

Lemma encodeVarint_loop_writes (budget : nat) (pre mid post : list byte) (v : Z) :
  0 <= v < 2 ^ (7 * (Z.of_nat budget + 1)) ->
  length mid = length (varint_bytes budget v) ->
  encodeVarint_loop budget (pre ++ mid ++ post) (len pre) v
  = Fin (pre ++ varint_bytes budget v ++ post, len pre + len (varint_bytes budget v)).
Proof.
  revert pre mid v. induction budget as [|budget IH]; intros pre mid v Hv Hmid.
  - cbn [encodeVarint_loop varint_bytes] in *. simpl in Hv. zb.
    destruct mid as [|old [|]]; try discriminate Hmid. simpl.
    rewrite store_middle. reflexivity.
  - cbn [encodeVarint_loop varint_bytes] in *.
    destruct (Z.leb_spec 128 v) as [Hge|Hlt]; simpl.
    + destruct mid as [|old mid]; [discriminate Hmid|]. simpl.
      rewrite store_middle. simpl.
      replace (pre ++ uint8 (Z.lor (Z.land v 127) 128) :: mid ++ post)
        with ((pre ++ [uint8 (Z.lor (Z.land v 127) 128)]) ++ mid ++ post)
        by now rewrite <- app_assoc.
      replace (len pre + 1) with (len (pre ++ [uint8 (Z.lor (Z.land v 127) 128)]))
        by (rewrite len_app; reflexivity).
      rewrite IH.
      * rewrite <- app_assoc. simpl. f_equal. f_equal.
        rewrite len_app. unfold len. simpl. lia.
      * apply shiftr7_bound; [lia|].
        replace (7 + 7 * (Z.of_nat budget + 1))
          with (7 * (Z.of_nat (S budget) + 1)) by lia.
        exact Hv.
      * simpl in Hmid. now injection Hmid.
    + destruct mid as [|old [|]]; try discriminate Hmid. simpl.
      rewrite store_middle. reflexivity.
Qed.

Lemma store_out_of_range (dAtA : list byte) (i : Z) (b : byte) :
  len dAtA <= i -> store dAtA i b = Crash "index out of range".
Proof.
  intros Hi. unfold store.
  destruct (Z.ltb_spec i (len dAtA)); [lia|]. now rewrite andb_false_r.
Qed.

Lemma store_length (dAtA dAtA' : list byte) (i : Z) (b : byte) :
  store dAtA i b = Fin dAtA' -> len dAtA' = len dAtA.
Proof.
  unfold store. destruct ((0 <=? i) && (i <? len dAtA)); [|discriminate].
  intros [= <-]. unfold len. now rewrite length_insert.
Qed.

Lemma encodeVarint_loop_no_room (budget : nat) (dAtA : list byte) (offset v : Z) :
  0 <= v < 2 ^ (7 * (Z.of_nat budget + 1)) ->
  len dAtA < offset + len (varint_bytes budget v) ->
  encodeVarint_loop budget dAtA offset v = Crash "index out of range".
Proof.
  revert dAtA offset v. induction budget as [|budget IH]; intros dAtA offset v Hv Hroom.
  - cbn [encodeVarint_loop varint_bytes] in *. simpl in Hv. zb.
    unfold len in Hroom at 2. simpl in Hroom.
    rewrite store_out_of_range by lia. reflexivity.
  - cbn [encodeVarint_loop varint_bytes] in *.
    destruct (Z.leb_spec 128 v) as [Hge|Hlt]; simpl.
    + destruct (store dAtA offset _) as [dAtA'| |] eqn:Hstore; simpl; try reflexivity.
      * apply IH.
        -- apply shiftr7_bound; [lia|].
           replace (7 + 7 * (Z.of_nat budget + 1))
             with (7 * (Z.of_nat (S budget) + 1)) by lia.
           exact Hv.
        -- apply store_length in Hstore. rewrite Hstore.
           unfold len in Hroom at 2. simpl in Hroom. unfold len at 2. lia.
      * unfold store in Hstore.
        destruct (_ && _); [discriminate | now injection Hstore as <-].
      * unfold store in Hstore. destruct (_ && _); discriminate.
    + unfold len in Hroom at 2. simpl in Hroom.
      rewrite store_out_of_range by lia. reflexivity.
Qed.

Lemma testbit_127 (k : Z) : Z.testbit 127 k = (0 <=? k) && (k <? 7).
Proof.
  change 127 with (Z.ones 7).
  destruct (Z.leb_spec 0 k) as [Hk|Hk]; simpl.
  - destruct (Z.ltb_spec k 7).
    + apply Z.ones_spec_low. lia.
    + apply Z.ones_spec_high. lia.
  - apply Z.testbit_neg_r. lia.
Qed.

Lemma lor_low7_rest (v s : Z) :
  0 <= s ->
  Z.lor (Z.shiftl (Z.land v 127) s) (Z.shiftl (Z.shiftr v 7) (s + 7)) = Z.shiftl v s.
Proof.
  intros Hs. apply Z.bits_inj'. intros n Hn.
  rewrite Z.lor_spec, !Z.shiftl_spec, Z.land_spec, testbit_127 by lia.
  destruct (Z.leb_spec 0 (n - s)) as [Hk|Hk]; simpl.
  - destruct (Z.ltb_spec (n - s) 7) as [Hlow|Hhigh]; simpl.
    + rewrite andb_true_r, (Z.testbit_neg_r _ (n - (s + 7))) by lia.
      now rewrite orb_false_r.
    + rewrite andb_false_r, Z.shiftr_spec by lia. simpl.
      f_equal. lia.
  - rewrite andb_false_r, !Z.testbit_neg_r by lia. reflexivity.
Qed.

Lemma low7_facts (r : Z) :
  0 <= r < 128 -> Z.lor r 128 = r + 128 /\ Z.land (r + 128) 127 = r /\ Z.land r 127 = r.
Proof.
  intros Hr.
  assert (Hall : forallb (fun n => let r := Z.of_nat n in
                            (Z.lor r 128 =? r + 128) && (Z.land (r + 128) 127 =? r)
                            && (Z.land r 127 =? r))
                         (seq 0 128) = true) by (vm_compute; reflexivity).
  rewrite forallb_forall in Hall.
  specialize (Hall (Z.to_nat r)). rewrite Z2Nat.id in Hall by lia.
  assert (Hin : In (Z.to_nat r) (seq 0 128)) by (apply in_seq; lia).
  apply Hall in Hin. apply andb_true_iff in Hin as [Hin H3].
  apply andb_true_iff in Hin as [H1 H2]. lia.
Qed.

Lemma land_127_range (v : Z) : 0 <= v -> 0 <= Z.land v 127 < 128 /\ Z.land v 127 <= v.
Proof.
  intros Hv. change 127 with (Z.ones 7). rewrite Z.land_ones by lia.
  pose proof (Z.mod_pos_bound v (2 ^ 7) ltac:(lia)).
  pose proof (Z.mod_le v (2 ^ 7) Hv ltac:(lia)). change (2 ^ 7) with 128 in *. lia.
Qed.

Lemma continuation_byte (v : Z) :
  0 <= v ->
  128 <= byte_val (uint8 (Z.lor (Z.land v 127) 128))
  /\ Z.land (byte_val (uint8 (Z.lor (Z.land v 127) 128))) 127 = Z.land v 127.
Proof.
  intros Hv. destruct (land_127_range v Hv) as [Hr _].
  destruct (low7_facts (Z.land v 127) Hr) as (Hlor & Hland & _).
  rewrite byte_val_uint8, Hlor, Z.mod_small by lia. split; [lia | exact Hland].
Qed.

Lemma final_byte (v : Z) :
  0 <= v < 128 -> byte_val (uint8 v) = v /\ Z.land v 127 = v.
Proof.
  intros Hv. rewrite byte_val_uint8, Z.mod_small by lia.
  destruct (low7_facts v Hv) as (_ & _ & Hland). auto.
Qed.

Lemma shiftl_below (r v s W : Z) :
  0 <= s -> 0 <= r <= v -> v < 2 ^ (W - s) -> s < W -> 0 <= Z.shiftl r s < 2 ^ W.
Proof.
  intros Hs Hr Hv HW. rewrite Z.shiftl_mul_pow2 by lia.
  replace W with ((W - s) + s) at 1 by lia. rewrite Z.pow_add_r by lia.
  assert (0 < 2 ^ s) by lia. nia.
Qed.

(** Reading back the bytes of a varint gives its value, accumulated from
    [shift] on, and the index behind its last byte. *)
Lemma varint_loop_reads (wrap : Z -> Z) (W : Z) (budget : nat)
    (pre post : list byte) (v l shift acc : Z) :
  (forall z, 0 <= z < 2 ^ W -> wrap z = z) ->
  W <= 64 ->
  0 <= shift < W ->
  0 <= v < 2 ^ (7 * (Z.of_nat budget + 1)) ->
  v < 2 ^ (W - shift) ->
  len pre + len (varint_bytes budget v) <= l ->
  varint_loop wrap budget (pre ++ varint_bytes budget v ++ post) l (len pre) shift acc
  = Fin (inr (Z.lor acc (Z.shiftl v shift), len pre + len (varint_bytes budget v))).
Proof.
  intros Hwrap HW. revert pre v shift acc.
  induction budget as [|budget IH]; intros pre v shift acc Hshift Hv Hfit Hl.
  - cbn [varint_loop varint_bytes] in *. simpl in Hv.
    unfold len in Hl at 2. simpl in Hl. zb.
    rewrite load_middle. simpl.
    destruct (final_byte v ltac:(lia)) as [Hval Hland]. rewrite Hval, Hland. zb.
    rewrite Hwrap by (apply (shiftl_below v v shift W); lia). reflexivity.
  - cbn [varint_loop varint_bytes] in *.
    destruct (Z.leb_spec 128 v) as [Hge|Hlt].
    + unfold len in Hl at 2. simpl in Hl. zb.
      simpl. rewrite load_middle. simpl.
      destruct (continuation_byte v ltac:(lia)) as [Hcont Hland]. rewrite Hland. zb.
      destruct (land_127_range v ltac:(lia)) as [Hr Hle].
      rewrite Hwrap by (apply (shiftl_below _ v shift W); lia).
      assert (Hroom : 7 < W - shift).
      { destruct (Z.lt_ge_cases 7 (W - shift)) as [Hok|Hbad]; [exact Hok|].
        assert (2 ^ (W - shift) <= 2 ^ 7) by (apply Z.pow_le_mono_r; lia). lia. }
      replace (pre ++ uint8 (Z.lor (Z.land v 127) 128)
                   :: varint_bytes budget (Z.shiftr v 7) ++ post)
        with ((pre ++ [uint8 (Z.lor (Z.land v 127) 128)])
              ++ varint_bytes budget (Z.shiftr v 7) ++ post)
        by now rewrite <- app_assoc.
      replace (len pre + 1) with (len (pre ++ [uint8 (Z.lor (Z.land v 127) 128)]))
        by (rewrite len_app; reflexivity).
      rewrite IH.
      * rewrite <- Z.lor_assoc, lor_low7_rest by lia.
        rewrite len_app. unfold len. simpl. do 3 f_equal. lia.
      * lia.
      * apply shiftr7_bound; [lia|].
        replace (7 + 7 * (Z.of_nat budget + 1))
          with (7 * (Z.of_nat (S budget) + 1)) by lia.
        exact Hv.
      * replace (W - (shift + 7)) with (W - shift - 7) by lia.
        apply shiftr7_bound; [lia|].
        replace (7 + (W - shift - 7)) with (W - shift) by lia. lia.
      * rewrite len_app. unfold len in *. simpl. lia.
    + unfold len in Hl at 2. simpl in Hl. zb.
      simpl. rewrite load_middle. simpl.
      destruct (final_byte v ltac:(lia)) as [Hval Hland]. rewrite Hval, Hland. zb.
      rewrite Hwrap by (apply (shiftl_below v v shift W); lia). reflexivity.
Qed.

Lemma uint64_small (z : Z) : 0 <= z < 2 ^ 64 -> uint64 z = z.
Proof. intros Hz. unfold uint64. now apply Z.mod_small. Qed.

Lemma int64_small (z : Z) : 0 <= z < 2 ^ 63 -> int64 z = z.
Proof.
  intros Hz. unfold int64.
  change (2 ^ 63) with 9223372036854775808 in *.
  change (2 ^ 64) with 18446744073709551616.
  rewrite Z.mod_small by lia. lia.
Qed.

Lemma split_buffer (dAtA : list byte) (offset k : Z) :
  0 <= offset -> 0 <= k -> offset + k <= len dAtA ->
  exists pre mid post,
    dAtA = pre ++ mid ++ post
    /\ len pre = offset /\ len mid = k
    /\ pre = take (Z.to_nat offset) dAtA
    /\ post = drop (Z.to_nat (offset + k)) dAtA.
Proof.
  intros Ho Hk Hroom. unfold len in *.
  exists (take (Z.to_nat offset) dAtA),
         (take (Z.to_nat k) (drop (Z.to_nat offset) dAtA)),
         (drop (Z.to_nat (offset + k)) dAtA).
  split; [|split; [|split; [|split]]]; try reflexivity.
  - rewrite Z2Nat.inj_add by lia. rewrite <- drop_drop.
    now rewrite take_drop, take_drop.
  - rewrite length_take. lia.
  - rewrite length_take, length_drop. lia.
Qed.

Lemma pow_64_77 (v : Z) : 0 <= v < 2 ^ 64 -> 0 <= v < 2 ^ (7 * (Z.of_nat 10 + 1)).
Proof.
  intros Hv. change (2 ^ (7 * (Z.of_nat 10 + 1))) with 151115727451828646838272.
  change (2 ^ 64) with 18446744073709551616 in Hv. lia.
Qed.

Lemma sovIdentity_varint_bytes (v : Z) :
  0 <= v < 2 ^ 64 -> sovIdentity v = Fin (len (varint_bytes 10 v)).
Proof.
  intros Hv. unfold sovIdentity.
  rewrite sov_loop_varint_bytes by now apply pow_64_77. reflexivity.
Qed.

Lemma Fin_inj {A} (a b : A) : Fin a = Fin b -> a = b.
Proof. now intros [= ->]. Qed.

Lemma encodeVarint_loop_in_place (budget : nat) (dAtA : list byte) (offset v : Z) :
  0 <= v < 2 ^ (7 * (Z.of_nat budget + 1)) ->
  0 <= offset ->
  offset + len (varint_bytes budget v) <= len dAtA ->
  exists pre mid post,
    dAtA = pre ++ mid ++ post
    /\ len pre = offset
    /\ len mid = len (varint_bytes budget v)
    /\ encodeVarint_loop budget dAtA offset v
       = Fin (pre ++ varint_bytes budget v ++ post, offset + len (varint_bytes budget v))
    /\ pre = take (Z.to_nat offset) dAtA
    /\ post = drop (Z.to_nat (offset + len (varint_bytes budget v))) dAtA.
Proof.
  intros Hv Ho Hroom.
  destruct (split_buffer dAtA offset (len (varint_bytes budget v)) Ho (len_nonneg _) Hroom)
    as (pre & mid & post & Hsplit & Hpre & Hmid & Etake & Edrop).
  exists pre, mid, post. repeat split; try assumption.
  rewrite Hsplit, <- Hpre.
  apply encodeVarint_loop_writes; [exact Hv | unfold len in Hmid; lia].
Qed.

Lemma written_frame (pre mid bytes post : list byte) (offset : Z) :
  len pre = offset ->
  len mid = len bytes ->
  len (pre ++ bytes ++ post) = len (pre ++ mid ++ post)
  /\ take (Z.to_nat offset) (pre ++ bytes ++ post)
     = take (Z.to_nat offset) (pre ++ mid ++ post)
  /\ drop (Z.to_nat (offset + len bytes)) (pre ++ bytes ++ post)
     = drop (Z.to_nat (offset + len bytes)) (pre ++ mid ++ post).
Proof.
  intros Hpre Hmid. unfold len in *.
  assert (Hlen_pre : Z.to_nat offset = length pre) by lia.
  assert (Hlen_mid : length mid = length bytes) by lia.
  split; [|split].
  - rewrite !length_app. lia.
  - rewrite Hlen_pre. now rewrite !take_app_length.
  - replace (Z.to_nat (offset + Z.of_nat (length bytes)))
      with (length (pre ++ bytes)) by (rewrite length_app; lia).
    rewrite (app_assoc pre bytes), drop_app_length.
    replace (length (pre ++ bytes)) with (length (pre ++ mid))
      by (rewrite !length_app; lia).
    now rewrite (app_assoc pre mid), drop_app_length.
Qed.

Lemma encodeVarint_loop_frame (budget : nat) (dAtA : list byte) (offset v : Z) :
  0 <= v < 2 ^ (7 * (Z.of_nat budget + 1)) ->
  0 <= offset ->
  offset + len (varint_bytes budget v) <= len dAtA ->
  exists dAtA',
    encodeVarint_loop budget dAtA offset v
    = Fin (dAtA', offset + len (varint_bytes budget v))
    /\ len dAtA' = len dAtA
    /\ take (Z.to_nat offset) dAtA' = take (Z.to_nat offset) dAtA
    /\ drop (Z.to_nat (offset + len (varint_bytes budget v))) dAtA'
       = drop (Z.to_nat (offset + len (varint_bytes budget v))) dAtA.
Proof.
  intros Hv Ho Hroom.
  destruct (encodeVarint_loop_in_place budget dAtA offset v Hv Ho Hroom)
    as (pre & mid & post & Hsplit & Hpre & Hmid & Hrun & _ & _).
  exists (pre ++ varint_bytes budget v ++ post). split; [exact Hrun|].
  rewrite Hsplit. now apply written_frame.
Qed.

Lemma encodeVarint_loop_read_back (wrap : Z -> Z) (W : Z) (budget : nat)
    (dAtA dAtA' : list byte) (offset v next : Z) :
  (forall z, 0 <= z < 2 ^ W -> wrap z = z) ->
  W <= 64 -> 0 < W ->
  0 <= v < 2 ^ (7 * (Z.of_nat budget + 1)) ->
  v < 2 ^ W ->
  0 <= offset ->
  encodeVarint_loop budget dAtA offset v = Fin (dAtA', next) ->
  varint_loop wrap budget dAtA' (len dAtA') offset 0 0 = Fin (inr (v, next)).
Proof.
  intros Hwrap HW HW0 Hv HvW Ho Hrun.
  destruct (Z.le_gt_cases (offset + len (varint_bytes budget v)) (len dAtA)) as [Hroom|Hnone].
  2:{ rewrite encodeVarint_loop_no_room in Hrun; [discriminate | exact Hv | lia]. }
  destruct (encodeVarint_loop_in_place budget dAtA offset v Hv Ho Hroom)
    as (pre & mid & post & Hsplit & Hpre & Hmid & Hrun' & _ & _).
  rewrite Hrun' in Hrun. injection Hrun as <- <-. rewrite <- Hpre.
  rewrite (varint_loop_reads wrap W budget pre post v _ 0 0 Hwrap HW); try lia.
  - now rewrite Z.shiftl_0_r.
  - now rewrite Z.sub_0_r.
  - rewrite !len_app. pose proof (len_nonneg post). lia.
Qed.

(** X19. For a 64-bit value and a buffer with room, [encodeVarintIdentity]
    writes exactly as many bytes as [sovIdentity] counts, from the offset
    on, answers the offset behind them, and leaves the buffer's length and
    every byte before and behind them as they were; without that much room
    it panics with an index out of range. *)
Theorem encodeVarintIdentity_in_place (dAtA : list byte) (offset v n : Z) :
  0 <= v < 2 ^ 64 ->
  0 <= offset ->
  sovIdentity v = Fin n ->
  (offset + n <= len dAtA ->
   exists dAtA',
     encodeVarintIdentity dAtA offset v = Fin (dAtA', offset + n)
     /\ len dAtA' = len dAtA
     /\ take (Z.to_nat offset) dAtA' = take (Z.to_nat offset) dAtA
     /\ drop (Z.to_nat (offset + n)) dAtA' = drop (Z.to_nat (offset + n)) dAtA)
  /\ (len dAtA < offset + n ->
      encodeVarintIdentity dAtA offset v = Crash "index out of range").
Proof.
  intros Hv Ho Hsov. rewrite (sovIdentity_varint_bytes v Hv) in Hsov.
  apply Fin_inj in Hsov. subst n. unfold encodeVarintIdentity. split.
  - intros Hroom. exact (encodeVarint_loop_frame 10 dAtA offset v (pow_64_77 v Hv) Ho Hroom).
  - intros Hroom. exact (encodeVarint_loop_no_room 10 dAtA offset v (pow_64_77 v Hv) Hroom).
Qed.

(** X20. A varint round trip: what [encodeVarintIdentity] wrote for a
    64-bit value is read back by the decoder's varint loop as that value,
    ending at the offset the encoder answered; read as an [int], as the
    byte-length loops do, the same holds for a value below 2^63. *)
Theorem varint_round_trip (dAtA dAtA' : list byte) (offset v next : Z) :
  0 <= v < 2 ^ 64 ->
  0 <= offset ->
  encodeVarintIdentity dAtA offset v = Fin (dAtA', next) ->
  read_varint uint64 dAtA' (len dAtA') offset = Fin (inr (v, next))
  /\ (v < 2 ^ 63 -> read_varint int64 dAtA' (len dAtA') offset = Fin (inr (v, next))).
Proof.
  intros Hv Ho Hrun. unfold encodeVarintIdentity in Hrun. unfold read_varint. split.
  - exact (encodeVarint_loop_read_back uint64 64 10 dAtA dAtA' offset v next
             uint64_small ltac:(lia) ltac:(lia) (pow_64_77 v Hv) (proj2 Hv) Ho Hrun).
  - intros H63.
    exact (encodeVarint_loop_read_back int64 63 10 dAtA dAtA' offset v next
             int64_small ltac:(lia) ltac:(lia) (pow_64_77 v Hv) H63 Ho Hrun).
Qed.

Lemma read_single_byte (wrap : Z -> Z) (pre post : list byte) (b : byte) (l : Z) :
  (forall z, 0 <= z < 128 -> wrap z = z) ->
  byte_val b < 128 ->
  len pre < l ->
  read_varint wrap (pre ++ b :: post) l (len pre) = Fin (inr (byte_val b, len pre + 1)).
Proof.
  intros Hwrap Hb Hl. unfold read_varint. cbn [varint_loop].
  change (64 <=? 0) with false. cbn match.
  destruct (Z.leb_spec l (len pre)); [lia|].
  rewrite load_middle. cbn [exec_bind].
  pose proof (byte_val_range b) as Hr.
  destruct (low7_facts (byte_val b) ltac:(lia)) as (_ & _ & Hland).
  rewrite Hland, Z.shiftl_0_r, Hwrap by lia.
  destruct (Z.ltb_spec (byte_val b) 128); [|lia]. reflexivity.
Qed.

Lemma read_length (wrap : Z -> Z) (W : Z) (pre post : list byte) (v l : Z) :
  (forall z, 0 <= z < 2 ^ W -> wrap z = z) ->
  W <= 64 -> 0 < W ->
  0 <= v < 2 ^ 63 -> v < 2 ^ W ->
  len pre + len (varint_bytes 10 v) <= l ->
  read_varint wrap (pre ++ varint_bytes 10 v ++ post) l (len pre)
  = Fin (inr (v, len pre + len (varint_bytes 10 v))).
Proof.
  intros Hwrap HW HW0 Hv HvW Hl. unfold read_varint.
  rewrite (varint_loop_reads wrap W 10 pre post v l 0 0 Hwrap HW); try lia.
  - now rewrite Z.shiftl_0_r.
  - now rewrite Z.sub_0_r.
Qed.

(** ** The decoders' loops return *)

Lemma land_bounded (x y : Z) : 0 <= x -> 0 <= Z.land x y <= x.
Proof.
  intros Hx. split; [apply Z.land_nonneg; now left|].
  pose proof (Z.sub_land_same_l x y) as Hsub.
  assert (0 <= Z.land x (Z.lnot y)) by (apply Z.land_nonneg; now left). lia.
Qed.

Lemma lor_range (n a b : Z) :
  0 < n ->
  - 2 ^ n <= a < 2 ^ n -> - 2 ^ n <= b < 2 ^ n -> - 2 ^ n <= Z.lor a b < 2 ^ n.
Proof.
  intros Hn Ha Hb.
  assert (Hpow : 0 < 2 ^ n) by (apply Z.pow_pos_nonneg; lia).
  assert (Hneg : forall x y, x < 0 -> - 2 ^ n <= x -> - 2 ^ n <= Z.lor x y < 2 ^ n).
  { intros x y Hx Hlow.
    assert (Hlt : Z.lor x y < 0) by (apply Z.lor_neg; now left).
    split; [|lia].
    rewrite <- (Z.lnot_involutive (Z.lor x y)), Z.lnot_lor.
    assert (Hnx : 0 <= Z.lnot x) by (unfold Z.lnot; lia).
    pose proof (land_bounded (Z.lnot x) (Z.lnot y) Hnx) as Hland.
    set (t := Z.land (Z.lnot x) (Z.lnot y)) in *.
    unfold Z.lnot in *. lia. }
  destruct (Z.lt_ge_cases a 0) as [Ha0|Ha0]; [apply Hneg; lia|].
  destruct (Z.lt_ge_cases b 0) as [Hb0|Hb0]; [rewrite Z.lor_comm; apply Hneg; lia|].
  assert (Hnn : 0 <= Z.lor a b) by (apply Z.lor_nonneg; lia).
  split; [lia|].
  destruct (Z.eq_dec (Z.lor a b) 0) as [Hz|Hne]; [rewrite Hz; lia|].
  apply Z.log2_lt_pow2; [lia|].
  rewrite Z.log2_lor by lia.
  assert (Hlog : forall x, 0 <= x < 2 ^ n -> Z.log2 x < n).
  { intros x Hx. destruct (Z.eq_dec x 0) as [->|]; [simpl; lia|].
    apply Z.log2_lt_pow2; lia. }
  apply Z.max_lub_lt; apply Hlog; lia.
Qed.

Lemma int64_range (z : Z) : - 2 ^ 63 <= int64 z < 2 ^ 63.
Proof.
  unfold int64. change (2 ^ 63) with 9223372036854775808.
  change (2 ^ 64) with 18446744073709551616.
  pose proof (Z.mod_pos_bound (z + 9223372036854775808) 18446744073709551616 ltac:(lia)).
  lia.
Qed.

Lemma int64_nonneg_exact (z : Z) : 0 <= z < 2 ^ 64 -> 0 <= int64 z -> int64 z = z.
Proof.
  unfold int64. change (2 ^ 63) with 9223372036854775808.
  change (2 ^ 64) with 18446744073709551616. intros Hz Hpos.
  destruct (Z.lt_ge_cases z 9223372036854775808) as [Hlt|Hge].
  - rewrite Z.mod_small by lia. lia.
  - exfalso.
    assert (Hmod : (z + 9223372036854775808) mod 18446744073709551616
                   = z + 9223372036854775808 - 18446744073709551616).
    { symmetry. apply (Z.mod_unique _ _ 1); lia. }
    lia.
Qed.

Lemma int64_zero : - 2 ^ 63 <= 0 < 2 ^ 63.
Proof. change (2 ^ 63) with 9223372036854775808. lia. Qed.

Lemma int64_accumulates (a x : Z) :
  - 2 ^ 63 <= a < 2 ^ 63 -> - 2 ^ 63 <= Z.lor a (int64 x) < 2 ^ 63.
Proof. intros Ha. apply lor_range; [lia | exact Ha | apply int64_range]. Qed.

(** The varint loop of the decoders returns: it reads inside the input,
    gives up at the eleventh byte, and what it answers lies behind where
    it started. *)
Lemma varint_loop_total (wrap : Z -> Z) (P : Z -> Prop) (budget : nat) (dAtA : list byte) :
  (forall a x, P a -> P (Z.lor a (wrap x))) ->
  forall iNdEx shift acc,
    0 <= iNdEx ->
    64 <= shift + 7 * Z.of_nat budget ->
    P acc ->
    exists r,
      varint_loop wrap budget dAtA (len dAtA) iNdEx shift acc = Fin r
      /\ (forall v next, r = inr (v, next) -> (iNdEx < next <= len dAtA) /\ P v).
Proof.
  intros HP. induction budget as [|budget IH]; intros iNdEx shift acc Hi Hshift Hacc.
  - cbn [varint_loop]. destruct (Z.leb_spec 64 shift); [|lia].
    eexists. split; [reflexivity|]. intros; discriminate.
  - cbn [varint_loop]. destruct (Z.leb_spec 64 shift).
    { eexists. split; [reflexivity|]. intros; discriminate. }
    destruct (Z.leb_spec (len dAtA) iNdEx).
    { eexists. split; [reflexivity|]. intros; discriminate. }
    destruct (load_in_range dAtA iNdEx ltac:(lia)) as (b & -> & _). cbn [exec_bind].
    destruct (Z.ltb_spec (byte_val b) 128).
    + eexists. split; [reflexivity|]. intros v next Heq.
      injection Heq as <- <-. split; [lia | now apply HP].
    + destruct (IH (iNdEx + 1) (shift + 7)
                  (Z.lor acc (wrap (Z.shiftl (Z.land (byte_val b) 127) shift)))
                  ltac:(lia) ltac:(lia) (HP _ _ Hacc)) as (r & Hr & Hspec).
      exists r. split; [exact Hr|]. intros v next ->.
      destruct (Hspec v next eq_refl). split; [lia | assumption].
Qed.

Lemma read_varint_total (wrap : Z -> Z) (P : Z -> Prop) (dAtA : list byte) (iNdEx : Z) :
  (forall a x, P a -> P (Z.lor a (wrap x))) ->
  P 0 ->
  0 <= iNdEx ->
  exists r,
    read_varint wrap dAtA (len dAtA) iNdEx = Fin r
    /\ (forall v next, r = inr (v, next) -> (iNdEx < next <= len dAtA) /\ P v).
Proof.
  intros HP H0 Hi. unfold read_varint.
  apply (varint_loop_total wrap P 10 dAtA HP iNdEx 0 0 Hi); [|exact H0].
  change (Z.of_nat 10) with 10. lia.
Qed.

Lemma skip_varint_loop_total (budget : nat) (dAtA : list byte) :
  forall iNdEx shift,
    0 <= iNdEx ->
    64 <= shift + 7 * Z.of_nat budget ->
    exists r,
      skip_varint_loop budget dAtA (len dAtA) iNdEx shift = Fin r
      /\ (forall next, r = inr next -> iNdEx < next <= len dAtA).
Proof.
  induction budget as [|budget IH]; intros iNdEx shift Hi Hshift.
  - cbn [skip_varint_loop]. destruct (Z.leb_spec 64 shift); [|lia].
    eexists. split; [reflexivity|]. intros; discriminate.
  - cbn [skip_varint_loop]. destruct (Z.leb_spec 64 shift).
    { eexists. split; [reflexivity|]. intros; discriminate. }
    destruct (Z.leb_spec (len dAtA) iNdEx).
    { eexists. split; [reflexivity|]. intros; discriminate. }
    replace (iNdEx + 1 - 1) with iNdEx by lia.
    destruct (load_in_range dAtA iNdEx ltac:(lia)) as (b & -> & _). cbn [exec_bind].
    destruct (Z.ltb_spec (byte_val b) 128).
    + eexists. split; [reflexivity|]. intros next Heq. injection Heq as <-. lia.
    + destruct (IH (iNdEx + 1) (shift + 7) ltac:(lia) ltac:(lia)) as (r & Hr & Hspec).
      exists r. split; [exact Hr|]. intros next ->.
      pose proof (Hspec next eq_refl). lia.
Qed.

Lemma slice_total (dAtA : list byte) (i j : Z) :
  0 <= i <= j -> j <= len dAtA ->
  exists t, slice dAtA i j = Fin t /\ len t = j - i.
Proof.
  intros Hij Hj. unfold slice.
  destruct (Z.leb_spec 0 i); [|lia]. destruct (Z.leb_spec i j); [|lia].
  destruct (Z.leb_spec j (len dAtA)); [|lia]. cbn [andb].
  eexists. split; [reflexivity|].
  unfold len in *. rewrite length_take, length_drop. lia.
Qed.

(** ** Marshal and Size *)

#[local] Arguments varint_bytes : simpl never.
#[local] Arguments encodeVarint_loop : simpl never.
#[local] Arguments varint_loop : simpl never.
#[local] Arguments sov_loop : simpl never.

Lemma store_prefix (dAtA : list byte) (i : Z) (b : byte) :
  0 <= i < len dAtA ->
  exists dAtA',
    store dAtA i b = Fin dAtA'
    /\ len dAtA' = len dAtA
    /\ take (Z.to_nat (i + 1)) dAtA' = take (Z.to_nat i) dAtA ++ [b].
Proof.
  intros Hi. unfold store. zb. eexists. split; [reflexivity|].
  unfold len in *. split; [now rewrite length_insert|].
  replace (Z.to_nat (i + 1)) with (S (Z.to_nat i)) by lia.
  rewrite (take_S_r _ _ b) by (apply list_lookup_insert_eq; lia).
  now rewrite take_insert_ge by lia.
Qed.

Lemma encode_prefix (dAtA : list byte) (i v : Z) :
  0 <= v < 2 ^ 64 ->
  0 <= i ->
  i + len (varint_bytes 10 v) <= len dAtA ->
  exists dAtA',
    encodeVarintIdentity dAtA i v = Fin (dAtA', i + len (varint_bytes 10 v))
    /\ len dAtA' = len dAtA
    /\ take (Z.to_nat (i + len (varint_bytes 10 v))) dAtA'
       = take (Z.to_nat i) dAtA ++ varint_bytes 10 v.
Proof.
  intros Hv Hi Hroom. unfold encodeVarintIdentity.
  destruct (encodeVarint_loop_in_place 10 dAtA i v (pow_64_77 v Hv) Hi Hroom)
    as (pre & mid & post & Hsplit & Hpre & Hmid & Hrun & Etake & _).
  eexists. split; [exact Hrun|]. split.
  - rewrite Hsplit, !len_app. lia.
  - rewrite <- Etake.
    replace (Z.to_nat (i + len (varint_bytes 10 v)))
      with (length (pre ++ varint_bytes 10 v)) by (rewrite length_app; unfold len in *; lia).
    now rewrite app_assoc, take_app_length.
Qed.

Lemma copy_prefix (dAtA : list byte) (i : Z) (src : list byte) :
  0 <= i ->
  i + len src <= len dAtA ->
  exists dAtA',
    copy_at dAtA i src = Fin (dAtA', len src)
    /\ len dAtA' = len dAtA
    /\ take (Z.to_nat (i + len src)) dAtA' = take (Z.to_nat i) dAtA ++ src.
Proof.
  intros Hi Hroom. unfold copy_at. pose proof (len_nonneg src) as Hsrc.
  destruct (Z.leb_spec 0 i); [|lia]. destruct (Z.leb_spec i (len dAtA)); [|lia]. simpl.
  rewrite Z.min_r by lia.
  assert (Htake : take (Z.to_nat (len src)) src = src)
    by (apply take_ge; unfold len; lia).
  rewrite Htake. eexists. split; [reflexivity|]. unfold len in *. split.
  - rewrite !length_app, length_take, length_drop. lia.
  - replace (Z.to_nat (i + Z.of_nat (length src)))
      with (length (take (Z.to_nat i) dAtA ++ src))
      by (rewrite length_app, length_take; lia).
    now rewrite app_assoc, take_app_length.
Qed.

Lemma len_field_bytes (tag : byte) (payload : list byte) :
  len (field_bytes tag payload)
  = if 0 <? len payload then 1 + len payload + len (varint_bytes 10 (len payload)) else 0.
Proof.
  unfold field_bytes. destruct payload as [|b payload]; [reflexivity|].
  assert (0 < len (b :: payload)) by (unfold len; simpl; lia).
  destruct (Z.ltb_spec 0 (len (b :: payload))); [|lia].
  change (tag :: varint_bytes 10 (len (b :: payload)) ++ b :: payload)
    with ([tag] ++ varint_bytes 10 (len (b :: payload)) ++ b :: payload).
  rewrite !len_app. unfold len at 1. simpl. lia.
Qed.

(** One field block of [MarshalTo]: tag, length, payload. *)
Lemma field_written (tag : byte) (payload dAtA : list byte) (i : Z) :
  len payload < 2 ^ 64 ->
  0 <= i ->
  i + len (field_bytes tag payload) <= len dAtA ->
  exists dAtA',
    (if 0 <? len payload then
       exec_bind (store dAtA i tag) (fun dAtA =>
       exec_bind (encodeVarintIdentity dAtA (i + 1) (uint64 (len payload))) (fun r =>
       let '(dAtA, i) := r in
       exec_bind (copy_at dAtA i payload) (fun r =>
       let '(dAtA, n) := r in Fin (dAtA, i + n))))
     else Fin (dAtA, i))
    = Fin (dAtA', i + len (field_bytes tag payload))
    /\ len dAtA' = len dAtA
    /\ take (Z.to_nat (i + len (field_bytes tag payload))) dAtA'
       = take (Z.to_nat i) dAtA ++ field_bytes tag payload.
Proof.
  intros Hlen Hi Hroom. rewrite len_field_bytes in *.
  pose proof (len_nonneg payload) as Hp.
  pose proof (len_nonneg (varint_bytes 10 (len payload))) as Hvb.
  destruct (Z.ltb_spec 0 (len payload)) as [Hpos|Hzero].
  - assert (Hfield : field_bytes tag payload
                     = [tag] ++ varint_bytes 10 (len payload) ++ payload).
    { unfold field_bytes. destruct payload; [unfold len in Hpos; simpl in Hpos; lia|].
      reflexivity. }
    rewrite uint64_small by lia.
    destruct (store_prefix dAtA i tag ltac:(lia)) as (d1 & -> & Hl1 & Ht1).
    cbn [exec_bind].
    destruct (encode_prefix d1 (i + 1) (len payload) ltac:(lia) ltac:(lia) ltac:(lia))
      as (d2 & -> & Hl2 & Ht2).
    cbn [exec_bind].
    destruct (copy_prefix d2 (i + 1 + len (varint_bytes 10 (len payload))) payload
                ltac:(lia) ltac:(lia)) as (d3 & -> & Hl3 & Ht3).
    cbn [exec_bind].
    exists d3. split; [f_equal; f_equal; lia|]. split; [lia|].
    replace (i + (1 + len payload + len (varint_bytes 10 (len payload))))
      with (i + 1 + len (varint_bytes 10 (len payload)) + len payload) by lia.
    rewrite Ht3, Ht2, Ht1, Hfield, <- !app_assoc. reflexivity.
  - exists dAtA. assert (payload = []) as ->.
    { destruct payload; [reflexivity | unfold len in Hzero; simpl in Hzero; lia]. }
    rewrite Z.add_0_r. simpl. now rewrite app_nil_r.
Qed.

Lemma MarshalTo_fills (m : SerializedIdentity) (dAtA : list byte) :
  len (list_byte_of_string (NodeId m)) < 2 ^ 64 ->
  len (IdBytes m) < 2 ^ 64 ->
  len (wire_bytes m) <= len dAtA ->
  exists dAtA',
    MarshalTo m dAtA = Fin (dAtA', len (wire_bytes m))
    /\ len dAtA' = len dAtA
    /\ take (Z.to_nat (len (wire_bytes m))) dAtA' = wire_bytes m.
Proof.
  intros Hn Hb Hroom. unfold wire_bytes in *. rewrite !len_app in *.
  pose proof (len_nonneg (field_bytes x0a (list_byte_of_string (NodeId m)))) as H1.
  pose proof (len_nonneg (field_bytes x12 (IdBytes m))) as H2.
  pose proof (len_nonneg (XXX_unrecognized m)) as H3.
  unfold MarshalTo. cbv zeta.
  destruct (field_written x0a (list_byte_of_string (NodeId m)) dAtA 0 Hn ltac:(lia) ltac:(lia))
    as (d1 & -> & Hl1 & Ht1).
  cbn [exec_bind].
  destruct (field_written x12 (IdBytes m) d1
              (0 + len (field_bytes x0a (list_byte_of_string (NodeId m))))
              Hb ltac:(lia) ltac:(lia)) as (d2 & -> & Hl2 & Ht2).
  cbn [exec_bind].
  destruct (copy_prefix d2
              (0 + len (field_bytes x0a (list_byte_of_string (NodeId m)))
               + len (field_bytes x12 (IdBytes m)))
              (XXX_unrecognized m) ltac:(lia) ltac:(lia)) as (d3 & -> & Hl3 & Ht3).
  cbn [exec_bind].
  exists d3. split; [f_equal; f_equal; lia|]. split; [lia|].
  replace (len (field_bytes x0a (list_byte_of_string (NodeId m)))
           + (len (field_bytes x12 (IdBytes m)) + len (XXX_unrecognized m)))
    with (0 + len (field_bytes x0a (list_byte_of_string (NodeId m)))
          + len (field_bytes x12 (IdBytes m)) + len (XXX_unrecognized m)) by lia.
  rewrite Ht3, Ht2, Ht1. simpl. now rewrite <- app_assoc.
Qed.

Lemma Size_wire_bytes (m : SerializedIdentity) :
  len (list_byte_of_string (NodeId m)) < 2 ^ 64 ->
  len (IdBytes m) < 2 ^ 64 ->
  Size m = Fin (len (wire_bytes m)).
Proof.
  intros Hn Hb. unfold Size, wire_bytes. cbv zeta. rewrite !len_app, !len_field_bytes.
  pose proof (len_nonneg (list_byte_of_string (NodeId m))) as H1.
  pose proof (len_nonneg (IdBytes m)) as H2.
  destruct (Z.ltb_spec 0 (len (list_byte_of_string (NodeId m))));
    destruct (Z.ltb_spec 0 (len (IdBytes m)));
    rewrite ?uint64_small, ?sovIdentity_varint_bytes by lia;
    cbn [exec_bind]; f_equal; lia.
Qed.

Lemma Marshal_returns_wire_bytes (m : SerializedIdentity) :
  len (list_byte_of_string (NodeId m)) < 2 ^ 64 ->
  len (IdBytes m) < 2 ^ 64 ->
  Marshal m = Fin (wire_bytes m).
Proof.
  intros Hn Hb.
  unfold Marshal. rewrite Size_wire_bytes by assumption. cbn [exec_bind].
  pose proof (len_nonneg (wire_bytes m)) as Hw.
  assert (Hbuf : len (List.repeat x00 (Z.to_nat (len (wire_bytes m)))) = len (wire_bytes m))
    by (unfold len; rewrite repeat_length; lia).
  destruct (MarshalTo_fills m (List.repeat x00 (Z.to_nat (len (wire_bytes m)))) Hn Hb
              ltac:(lia)) as (d & -> & Hl & Ht).
  cbn [exec_bind]. unfold slice. rewrite Hl, Hbuf.
  destruct (Z.leb_spec 0 (len (wire_bytes m))); [|lia].
  destruct (Z.leb_spec (len (wire_bytes m)) (len (wire_bytes m))); [|lia].
  change (0 <=? 0) with true. cbn [andb].
  change (Z.to_nat 0) with 0%nat. rewrite drop_0, Z.sub_0_r. now rewrite Ht.
Qed.

(** X21. For a message whose fields have lengths in 64-bit range,
    [Marshal] returns, without a panic, the bytes of field 1 (tag 0x0a,
    length, node id), of field 2 (tag 0x12, length, identity bytes) and
    the unknown bytes, in that order, an empty field being left out; and
    [Size] answers the length of exactly these bytes, so the buffer
    [Marshal] allocates is filled to the last byte and never overrun. *)
Theorem Marshal_layout (m : SerializedIdentity) :
  len (list_byte_of_string (NodeId m)) < 2 ^ 64 ->
  len (IdBytes m) < 2 ^ 64 ->
  Marshal m = Fin (wire_bytes m)
  /\ Size m = Fin (len (wire_bytes m)).
Proof.
  intros Hn Hb. split; [now apply Marshal_returns_wire_bytes | now apply Size_wire_bytes].
Qed.

(** ** Unmarshal of what Marshal wrote *)

Lemma Unmarshal_loop_end (budget : nat) (m : SerializedIdentity) (dAtA : list byte) :
  Unmarshal_loop budget m dAtA (len dAtA) (len dAtA) = Fin (m, None).
Proof.
  destruct budget; cbn [Unmarshal_loop];
    destruct (Z.ltb_spec (len dAtA) (len dAtA)); try lia; reflexivity.
Qed.

Lemma field_bytes_cons (tag : byte) (payload : list byte) :
  payload <> [] ->
  field_bytes tag payload = tag :: varint_bytes 10 (len payload) ++ payload.
Proof. destruct payload; [congruence | reflexivity]. Qed.

Lemma read_payload_middle (pre payload post : list byte) :
  len (pre ++ payload ++ post) < 2 ^ 63 ->
  read_payload (pre ++ payload ++ post) (len (pre ++ payload ++ post)) (len pre) (len payload)
  = Fin (inr (payload, len pre + len payload)).
Proof.
  intros Hl. unfold read_payload. rewrite !len_app in *.
  pose proof (len_nonneg pre). pose proof (len_nonneg payload). pose proof (len_nonneg post).
  destruct (Z.ltb_spec (len payload) 0); [lia|].
  rewrite int64_small by lia.
  destruct (Z.ltb_spec (len pre + len payload) 0); [lia|].
  destruct (Z.ltb_spec (len pre + (len payload + len post)) (len pre + len payload)); [lia|].
  rewrite slice_middle. reflexivity.
Qed.

(** One pass of the loop of [Unmarshal] over a field that [Marshal]
    wrote. *)
Lemma Unmarshal_loop_field (tag : byte) (budget : nat) (m : SerializedIdentity)
    (pre payload post : list byte) :
  payload <> [] ->
  len (pre ++ field_bytes tag payload ++ post) < 2 ^ 63 ->
  let dAtA := pre ++ field_bytes tag payload ++ post in
  (tag = x0a ->
   Unmarshal_loop (S budget) m dAtA (len dAtA) (len pre)
   = Unmarshal_loop budget (set_NodeId (string_of_list_byte payload) m) dAtA (len dAtA)
       (len pre + len (field_bytes tag payload)))
  /\ (tag = x12 ->
      Unmarshal_loop (S budget) m dAtA (len dAtA) (len pre)
      = Unmarshal_loop budget (set_IdBytes payload m) dAtA (len dAtA)
          (len pre + len (field_bytes tag payload))).
Proof.
  intros Hne Hl. cbv zeta. rewrite (field_bytes_cons tag payload Hne) in *.
  set (vb := varint_bytes 10 (len payload)) in *.
  remember (pre ++ (tag :: vb ++ payload) ++ post) as d eqn:Hd.
  remember (len d) as l eqn:Hlen.
  assert (Hfield : len (tag :: vb ++ payload) = 1 + len vb + len payload).
  { change (tag :: vb ++ payload) with ([tag] ++ vb ++ payload).
    rewrite !len_app. change (len [tag]) with 1. lia. }
  pose proof (len_nonneg pre) as Hpre. pose proof (len_nonneg vb) as Hvb.
  pose proof (len_nonneg payload) as Hpay. pose proof (len_nonneg post) as Hpost.
  assert (Hl' : l = len pre + 1 + len vb + len payload + len post).
  { subst l d. rewrite !len_app, Hfield. lia. }
  assert (Hshape1 : d = pre ++ tag :: (vb ++ payload ++ post))
    by (subst d; simpl; now rewrite <- app_assoc).
  assert (Hshape2 : d = (pre ++ [tag]) ++ vb ++ (payload ++ post))
    by (subst d; simpl; now rewrite <- !app_assoc).
  assert (Hshape3 : d = (pre ++ [tag] ++ vb) ++ payload ++ post)
    by (subst d; simpl; now rewrite <- !app_assoc).
  assert (Hpre1 : len (pre ++ [tag]) = len pre + 1) by (rewrite len_app; reflexivity).
  assert (Hpre2 : len (pre ++ [tag] ++ vb) = len pre + 1 + len vb).
  { rewrite !len_app. change (len [tag]) with 1. lia. }
  assert (Htag : byte_val tag < 128 ->
                 read_varint uint64 d l (len pre) = Fin (inr (byte_val tag, len pre + 1))).
  { intros Hb. rewrite Hshape1. apply read_single_byte; try lia.
    intros z Hz. apply uint64_small. change (2 ^ 64) with 18446744073709551616. lia. }
  assert (Hread64 : read_varint uint64 d l (len pre + 1)
                    = Fin (inr (len payload, len pre + 1 + len vb))).
  { rewrite Hshape2, <- Hpre1.
    apply (read_length uint64 64);
      try exact uint64_small; fold vb; rewrite ?Hpre1;
      change (2 ^ 63) with 9223372036854775808 in *;
      change (2 ^ 64) with 18446744073709551616; lia. }
  assert (Hread63 : read_varint int64 d l (len pre + 1)
                    = Fin (inr (len payload, len pre + 1 + len vb))).
  { rewrite Hshape2, <- Hpre1.
    apply (read_length int64 63);
      try exact int64_small; fold vb; rewrite ?Hpre1;
      change (2 ^ 63) with 9223372036854775808 in *; lia. }
  assert (Hpayload : read_payload d l (len pre + 1 + len vb) (len payload)
                     = Fin (inr (payload, len pre + 1 + len vb + len payload))).
  { rewrite <- Hpre2, Hlen, Hshape3. apply read_payload_middle.
    rewrite <- Hshape3, <- Hlen. exact Hl. }
  assert (Hnext : len pre + 1 + len vb + len payload = len pre + len (tag :: vb ++ payload))
    by (rewrite Hfield; lia).
  destruct (Z.ltb_spec (len pre) l) as [Hlt|]; [|lia].
  split; intros Heq; rewrite Heq in Htag.
  - cbn [Unmarshal_loop].
    destruct (Z.ltb_spec (len pre) l); [|lia].
    rewrite Htag by (change (byte_val x0a) with 10; lia).
    cbn [exec_bind]. change (byte_val x0a) with 10.
    change (int32 (Z.shiftr 10 3)) with 1. change (Z.land 10 7) with 2.
    cbn [Z.eqb Z.leb Z.compare Pos.compare Pos.compare_cont Pos.eqb negb].
    rewrite Hread64. cbn [exec_bind]. rewrite int64_small by lia.
    rewrite Hpayload. cbn [exec_bind]. now rewrite Hnext.
  - cbn [Unmarshal_loop].
    destruct (Z.ltb_spec (len pre) l); [|lia].
    rewrite Htag by (change (byte_val x12) with 18; lia).
    cbn [exec_bind]. change (byte_val x12) with 18.
    change (int32 (Z.shiftr 18 3)) with 2. change (Z.land 18 7) with 2.
    cbn [Z.eqb Z.leb Z.compare Pos.compare Pos.compare_cont Pos.eqb negb].
    rewrite Hread63. cbn [exec_bind].
    rewrite Hpayload. cbn [exec_bind]. now rewrite Hnext.
Qed.

Lemma field_bytes_length (tag : byte) (payload : list byte) :
  payload <> [] -> exists k, length (field_bytes tag payload) = S k.
Proof. intros Hne. rewrite field_bytes_cons by assumption. simpl. eauto. Qed.

Lemma len_payload_le_field (tag : byte) (payload : list byte) :
  len payload <= len (field_bytes tag payload).
Proof.
  rewrite len_field_bytes. pose proof (len_nonneg payload).
  pose proof (len_nonneg (varint_bytes 10 (len payload))).
  destruct (Z.ltb_spec 0 (len payload)); lia.
Qed.

(** X22. [Unmarshal] reads back what [Marshal] wrote. For a message
    [m] without unknown bytes whose wire form is shorter than 2^63
    bytes, [Marshal] returns bytes on which [Unmarshal], called on any
    receiver [m0], ends without an error and without a panic; a field
    that is set in [m] overwrites the receiver's, while an empty field,
    which [Marshal] leaves out, keeps what the receiver held: [Unmarshal]
    does not reset its receiver. *)
Theorem Unmarshal_reads_Marshal (m m0 : SerializedIdentity) :
  XXX_unrecognized m = [] ->
  len (wire_bytes m) < 2 ^ 63 ->
  exists bytes,
    Marshal m = Fin bytes
    /\ Unmarshal m0 bytes
       = Fin ({| NodeId := match NodeId m with
                           | EmptyString => NodeId m0
                           | String _ _ => NodeId m
                           end;
                 IdBytes := match IdBytes m with
                            | [] => IdBytes m0
                            | _ :: _ => IdBytes m
                            end;
                 XXX_unrecognized := XXX_unrecognized m0 |}, None).
Proof.
  intros Hx Hl. exists (wire_bytes m).
  assert (Hbounds : len (list_byte_of_string (NodeId m)) < 2 ^ 64
                    /\ len (IdBytes m) < 2 ^ 64).
  { unfold wire_bytes in Hl. rewrite !len_app in Hl.
    pose proof (len_payload_le_field x0a (list_byte_of_string (NodeId m))).
    pose proof (len_payload_le_field x12 (IdBytes m)).
    pose proof (len_nonneg (field_bytes x0a (list_byte_of_string (NodeId m)))).
    pose proof (len_nonneg (field_bytes x12 (IdBytes m))).
    pose proof (len_nonneg (XXX_unrecognized m)).
    change (2 ^ 63) with 9223372036854775808 in Hl.
    change (2 ^ 64) with 18446744073709551616. lia. }
  split; [apply Marshal_returns_wire_bytes; tauto|]. clear Hbounds.
  unfold Unmarshal, wire_bytes in *.
  destruct m as [n b x]. cbn [NodeId IdBytes XXX_unrecognized] in *. subst x.
  pose proof (string_of_list_byte_of_string n) as Hstring.
  destruct n as [|a s]; destruct b as [|b0 bs].
  - cbn. destruct m0; reflexivity.
  - change (field_bytes x0a (list_byte_of_string EmptyString)) with (@nil byte) in *.
    destruct (field_bytes_length x12 (b0 :: bs) ltac:(discriminate)) as [k Hk].
    rewrite app_nil_l in *.
    change (field_bytes x12 (b0 :: bs) ++ [])
      with ([] ++ field_bytes x12 (b0 :: bs) ++ []) in *.
    replace (length ([] ++ field_bytes x12 (b0 :: bs) ++ [])) with (S k)
      by (rewrite app_nil_l, length_app, Hk; cbn [length]; lia).
    destruct (Unmarshal_loop_field x12 k m0 [] (b0 :: bs) [] ltac:(discriminate) Hl)
      as [_ Hstep].
    change 0 with (len (@nil byte)) at 1. rewrite (Hstep eq_refl).
    replace (len [] + len (field_bytes x12 (b0 :: bs)))
      with (len ([] ++ field_bytes x12 (b0 :: bs) ++ []))
      by (rewrite !len_app; change (len []) with 0; lia).
    now rewrite Unmarshal_loop_end.
  - change (field_bytes x12 []) with (@nil byte) in *.
    set (p := list_byte_of_string (String a s)) in *.
    assert (Hp : p <> []) by (subst p; discriminate).
    destruct (field_bytes_length x0a p Hp) as [k Hk].
    rewrite app_nil_l in *.
    change (field_bytes x0a p ++ []) with ([] ++ field_bytes x0a p ++ []) in *.
    replace (length ([] ++ field_bytes x0a p ++ [])) with (S k)
      by (rewrite app_nil_l, length_app, Hk; cbn [length]; lia).
    destruct (Unmarshal_loop_field x0a k m0 [] p [] Hp Hl) as [Hstep _].
    change 0 with (len (@nil byte)) at 1. rewrite (Hstep eq_refl).
    replace (len [] + len (field_bytes x0a p))
      with (len ([] ++ field_bytes x0a p ++ []))
      by (rewrite !len_app; change (len []) with 0; lia).
    rewrite Unmarshal_loop_end. subst p. now rewrite Hstring.
  - set (p := list_byte_of_string (String a s)) in *.
    assert (Hp : p <> []) by (subst p; discriminate).
    set (q := b0 :: bs) in *.
    assert (Hq : q <> []) by (subst q; discriminate).
    destruct (field_bytes_length x0a p Hp) as [k1 Hk1].
    destruct (field_bytes_length x12 q Hq) as [k2 Hk2].
    replace (length (field_bytes x0a p ++ field_bytes x12 q ++ [])) with (S (S (k1 + k2)))
      by (rewrite !length_app, Hk1, Hk2; cbn [length]; lia).
    assert (Hd : field_bytes x0a p ++ field_bytes x12 q ++ []
                 = [] ++ field_bytes x0a p ++ (field_bytes x12 q ++ [])) by reflexivity.
    assert (Hl1 : len ([] ++ field_bytes x0a p ++ (field_bytes x12 q ++ [])) < 2 ^ 63)
      by (rewrite <- Hd; exact Hl).
    destruct (Unmarshal_loop_field x0a (S (k1 + k2)) m0 [] p (field_bytes x12 q ++ []) Hp Hl1)
      as [Hstep1 _].
    rewrite Hd. change 0 with (len (@nil byte)) at 1. rewrite (Hstep1 eq_refl).
    change (len [] + len (field_bytes x0a p)) with (len (field_bytes x0a p)).
    rewrite app_nil_l.
    destruct (Unmarshal_loop_field x12 (k1 + k2) (set_NodeId (string_of_list_byte p) m0)
                (field_bytes x0a p) q [] Hq Hl) as [_ Hstep2].
    rewrite (Hstep2 eq_refl).
    replace (len (field_bytes x0a p) + len (field_bytes x12 q))
      with (len (field_bytes x0a p ++ field_bytes x12 q ++ []))
      by (rewrite !len_app; change (len []) with 0; lia).
    rewrite Unmarshal_loop_end. subst p q. now rewrite Hstring.
Qed.

(** ** Unmarshal: tags it rejects, input that ends early, unknown fields *)

Lemma int32_small (z : Z) : 0 <= z < 2 ^ 31 -> int32 z = z.
Proof.
  intros Hz. unfold int32.
  change (2 ^ 31) with 2147483648 in *. change (2 ^ 32) with 4294967296.
  rewrite Z.mod_small by lia. lia.
Qed.

Lemma read_first_tag (wrap : Z -> Z) (b : byte) (rest : list byte) :
  (forall z, 0 <= z < 128 -> wrap z = z) ->
  byte_val b < 128 ->
  read_varint wrap (b :: rest) (len (b :: rest)) 0 = Fin (inr (byte_val b, 1)).
Proof.
  intros Hwrap Hb.
  apply (read_single_byte wrap [] rest b (len (b :: rest)) Hwrap Hb).
  unfold len. cbn [length]. lia.
Qed.

Lemma uint64_below_128 (z : Z) : 0 <= z < 128 -> uint64 z = z.
Proof.
  intros Hz. apply uint64_small. change (2 ^ 64) with 18446744073709551616. lia.
Qed.

Lemma len_cons {A} (a : A) (l : list A) : len (a :: l) = 1 + len l.
Proof. unfold len. cbn [length]. lia. Qed.

Lemma field_number_range (b : byte) :
  byte_val b < 128 -> 0 <= Z.shiftr (byte_val b) 3 < 16.
Proof.
  intros Hb. pose proof (byte_val_range b) as Hr.
  rewrite Z.shiftr_div_pow2 by lia. change (2 ^ 3) with 8.
  split; [apply Z.div_pos; lia | apply Z.div_lt_upper_bound; lia].
Qed.

Lemma slice_all (dAtA : list byte) : slice dAtA 0 (len dAtA) = Fin dAtA.
Proof.
  unfold slice. pose proof (len_nonneg dAtA).
  destruct (Z.leb_spec 0 (len dAtA)); [|lia].
  destruct (Z.leb_spec (len dAtA) (len dAtA)); [|lia].
  change (0 <=? 0) with true. cbn [andb].
  change (Z.to_nat 0) with 0%nat. rewrite drop_0, Z.sub_0_r.
  unfold len. rewrite Nat2Z.id. now rewrite firstn_all.
Qed.

(** The first pass of the loop of [Unmarshal] on an input that opens
    with a one-byte tag: the tag is read and the index stands at 1. *)
Ltac first_tag Hb :=
  unfold Unmarshal; cbn [length Unmarshal_loop];
  match goal with
  | |- context [0 <? len ?d] =>
      destruct (Z.ltb_spec 0 (len d)) as [_|Hbad];
      [|exfalso; rewrite len_cons in Hbad; pose proof (len_nonneg (tl d)); cbn [tl] in *; lia]
  end;
  rewrite (read_first_tag uint64) by (exact uint64_below_128 || exact Hb);
  cbn [exec_bind].

(** X23. [Unmarshal] checks the tag before it touches the receiver. On
    an input that opens with a one-byte tag, wire type 4 (end of group)
    is refused first, then field number 0, then a field 1 or a field 2
    whose wire type is not 2 (length-delimited, the only one the two
    fields have); in each case the error names what was wrong and the
    receiver comes back as it was, whatever follows the tag. *)
Theorem Unmarshal_rejects_tag (m0 : SerializedIdentity) (b : byte) (rest : list byte) :
  byte_val b < 128 ->
  let wireType := Z.land (byte_val b) 7 in
  let fieldNum := Z.shiftr (byte_val b) 3 in
  (wireType = 4 -> Unmarshal m0 (b :: rest) = Fin (m0, Some ErrEndGroup))
  /\ (wireType <> 4 -> fieldNum = 0 ->
      Unmarshal m0 (b :: rest) = Fin (m0, Some (ErrIllegalTag 0 (byte_val b))))
  /\ (wireType <> 4 -> wireType <> 2 -> fieldNum = 1 ->
      Unmarshal m0 (b :: rest) = Fin (m0, Some (ErrWrongWireType wireType "NodeId")))
  /\ (wireType <> 4 -> wireType <> 2 -> fieldNum = 2 ->
      Unmarshal m0 (b :: rest) = Fin (m0, Some (ErrWrongWireType wireType "IdBytes"))).
Proof.
  intros Hb wireType fieldNum. subst wireType fieldNum.
  repeat split.
  - intros Hw. first_tag Hb. rewrite Hw. reflexivity.
  - intros Hw Hf. first_tag Hb. rewrite Hf.
    destruct (Z.eqb_spec (Z.land (byte_val b) 7) 4); [contradiction|]. reflexivity.
  - intros Hw Hw2 Hf. first_tag Hb. rewrite Hf.
    destruct (Z.eqb_spec (Z.land (byte_val b) 7) 4); [contradiction|].
    destruct (Z.eqb_spec (Z.land (byte_val b) 7) 2); [contradiction|]. reflexivity.
  - intros Hw Hw2 Hf. first_tag Hb. rewrite Hf.
    destruct (Z.eqb_spec (Z.land (byte_val b) 7) 4); [contradiction|].
    destruct (Z.eqb_spec (Z.land (byte_val b) 7) 2); [contradiction|]. reflexivity.
Qed.


Lemma skipIdentity_fixed_width (b : byte) (payload : list byte) (width : Z) :
  byte_val b < 128 ->
  (Z.land (byte_val b) 7 = 1 /\ width = 8) \/ (Z.land (byte_val b) 7 = 5 /\ width = 4) ->
  skipIdentity (b :: payload) = Fin (inr (1 + width)).
Proof.
  intros Hb Hw. unfold skipIdentity.
  replace (2 * length (b :: payload) + 2)%nat with (S (2 * length (b :: payload) + 1)) by lia.
  cbn [skipIdentity_run].
  destruct (Z.ltb_spec 0 (len (b :: payload))) as [_|Hbad];
    [|rewrite len_cons in Hbad; pose proof (len_nonneg payload); lia].
  rewrite (read_first_tag uint64) by (exact uint64_below_128 || exact Hb).
  cbn [exec_bind].
  destruct Hw as [[-> ->] | [-> ->]]; reflexivity.
Qed.

(** The default case of the loop of [Unmarshal], for an input that is
    one unknown field which [skipIdentity] measures as [1 + width]. *)
Lemma Unmarshal_unknown_field (m0 : SerializedIdentity) (b : byte) (payload : list byte)
    (width : Z) :
  byte_val b < 128 ->
  3 <= Z.shiftr (byte_val b) 3 ->
  Z.land (byte_val b) 7 <> 4 ->
  0 <= width < 2 ^ 62 ->
  skipIdentity (b :: payload) = Fin (inr (1 + width)) ->
  (len payload = width ->
   Unmarshal m0 (b :: payload)
   = Fin (set_XXX_unrecognized (XXX_unrecognized m0 ++ b :: payload) m0, None))
  /\ (len payload < width ->
      Unmarshal m0 (b :: payload) = Fin (m0, Some io_ErrUnexpectedEOF)).
Proof.
  intros Hb Hf Hw Hwidth Hskip.
  pose proof (field_number_range b Hb) as Hrange.
  pose proof (len_nonneg payload) as Hpay.
  change (2 ^ 62) with 4611686018427387904 in Hwidth.
  assert (Hint : int64 (0 + (1 + width)) = 1 + width).
  { apply int64_small. change (2 ^ 63) with 9223372036854775808. lia. }
  assert (Hstart : forall budget,
            Unmarshal_loop (S budget) m0 (b :: payload) (len (b :: payload)) 0
            = if len (b :: payload) <? 1 + width then Fin (m0, Some io_ErrUnexpectedEOF)
              else
                unknown <~ slice (b :: payload) 0 (1 + width);
                Unmarshal_loop budget
                  (set_XXX_unrecognized (XXX_unrecognized m0 ++ unknown) m0)
                  (b :: payload) (len (b :: payload)) (1 + width)).
  { intros budget. cbn [Unmarshal_loop].
    destruct (Z.ltb_spec 0 (len (b :: payload))) as [_|Hbad];
      [|rewrite len_cons in Hbad; lia].
    rewrite (read_first_tag uint64) by (exact uint64_below_128 || exact Hb).
    cbn [exec_bind].
    rewrite int32_small by (change (2 ^ 31) with 2147483648; lia).
    destruct (Z.eqb_spec (Z.land (byte_val b) 7) 4); [contradiction|].
    destruct (Z.leb_spec (Z.shiftr (byte_val b) 3) 0); [lia|].
    destruct (Z.eqb_spec (Z.shiftr (byte_val b) 3) 1); [lia|].
    destruct (Z.eqb_spec (Z.shiftr (byte_val b) 3) 2); [lia|].
    rewrite slice_all. cbn [exec_bind]. rewrite Hskip. cbn [exec_bind].
    rewrite Hint.
    destruct (Z.ltb_spec (1 + width) 0); [lia|].
    destruct (Z.ltb_spec (1 + width) 0); [lia|]. reflexivity. }
  unfold Unmarshal. cbn [length]. rewrite Hstart. rewrite len_cons. split; intros Hlen.
  - destruct (Z.ltb_spec (1 + len payload) (1 + width)); [lia|].
    rewrite <- Hlen, <- (len_cons b payload), slice_all. cbn [exec_bind].
    now rewrite Unmarshal_loop_end.
  - destruct (Z.ltb_spec (1 + len payload) (1 + width)); [|lia]. reflexivity.
Qed.

(** X25. An unknown field of fixed width is kept, not dropped. For an
    input that is one field with a one-byte tag, a field number of 3 or
    more and wire type 1 (eight bytes) or 5 (four bytes), [Unmarshal]
    appends the whole field, tag included, to the receiver's
    [XXX_unrecognized] and ends without an error when the value has its
    full width; when the input ends before that, [skipIdentity] still
    answers the full width without looking at the bytes, and [Unmarshal]
    answers [io.ErrUnexpectedEOF] and leaves the receiver as it was. *)
Theorem Unmarshal_keeps_fixed_width_field (m0 : SerializedIdentity) (b : byte)
    (payload : list byte) (width : Z) :
  byte_val b < 128 ->
  3 <= Z.shiftr (byte_val b) 3 ->
  (Z.land (byte_val b) 7 = 1 /\ width = 8) \/ (Z.land (byte_val b) 7 = 5 /\ width = 4) ->
  skipIdentity (b :: payload) = Fin (inr (1 + width))
  /\ (len payload = width ->
      Unmarshal m0 (b :: payload)
      = Fin (set_XXX_unrecognized (XXX_unrecognized m0 ++ b :: payload) m0, None))
  /\ (len payload < width ->
      Unmarshal m0 (b :: payload) = Fin (m0, Some io_ErrUnexpectedEOF)).
Proof.
  intros Hb Hf Hw.
  pose proof (skipIdentity_fixed_width b payload width Hb Hw) as Hskip.
  split; [exact Hskip|].
  apply Unmarshal_unknown_field; try assumption.
  - destruct Hw as [[-> _] | [-> _]]; discriminate.
  - change (2 ^ 62) with 4611686018427387904. destruct Hw as [[_ ->] | [_ ->]]; lia.
Qed.

(** ** No input makes the decoder panic *)

(** A sum of an index and a count that is not negative as an [int] did
    not wrap. *)
Ltac exact_sum :=
  match goal with
  | Hpos : 0 <= int64 ?z |- _ =>
      let Hexact := fresh "Hexact" in
      assert (Hexact : int64 z = z)
        by (apply int64_nonneg_exact; [|exact Hpos];
            change (2 ^ 62) with 4611686018427387904 in *;
            change (2 ^ 63) with 9223372036854775808 in *;
            change (2 ^ 64) with 18446744073709551616; lia);
      rewrite Hexact in *; clear Hexact
  end.

Ltac ends_in_error :=
  eexists; split; [reflexivity|]; intros; discriminate.

(** [skipIdentity] and the loop of its group case return when the budget
    is twice the input that is left. *)
Lemma skip_runs_total (budget : nat) :
  (forall dAtA,
      1 <= len dAtA < 2 ^ 62 ->
      2 * len dAtA <= Z.of_nat budget ->
      exists r,
        skipIdentity_run budget dAtA = Fin r
        /\ (forall n, r = inr n -> 1 <= n < 2 ^ 63))
  /\ (forall dAtA iNdEx,
        len dAtA < 2 ^ 62 ->
        0 <= iNdEx < 2 ^ 63 ->
        2 * Z.max (len dAtA - iNdEx) 0 + 1 <= Z.of_nat budget ->
        exists r,
          skipGroup_run budget dAtA (len dAtA) iNdEx = Fin r
          /\ (forall n, r = inr n -> iNdEx < n < 2 ^ 63)).
Proof.
  change (2 ^ 62) with 4611686018427387904.
  induction budget as [|budget [IHs IHg]]; [split; intros; lia|].
  split.
  - intros dAtA Hlen Hbudget. cbn [skipIdentity_run].
    destruct (Z.ltb_spec 0 (len dAtA)); [|lia].
    destruct (read_varint_total uint64 (fun _ => True) dAtA 0 ltac:(auto) I ltac:(lia))
      as (r & -> & Hspec).
    cbn [exec_bind]. destruct r as [err|[wire i1]]; [ends_in_error|].
    destruct (Hspec wire i1 eq_refl) as [Hi1 _].
    destruct (Z.land wire 7 =? 0).
    { destruct (skip_varint_loop_total 10 dAtA i1 0 ltac:(lia)
                  ltac:(change (Z.of_nat 10) with 10; lia)) as (r & -> & Hskip).
      cbn [exec_bind]. destruct r as [err|i2]; [ends_in_error|].
      pose proof (Hskip i2 eq_refl).
      eexists. split; [reflexivity|]. intros n Heq. injection Heq as <-.
      change (2 ^ 63) with 9223372036854775808. lia. }
    destruct (Z.land wire 7 =? 1).
    { eexists. split; [reflexivity|]. intros n Heq. injection Heq as <-.
      rewrite int64_small by (change (2 ^ 63) with 9223372036854775808; lia).
      change (2 ^ 63) with 9223372036854775808. lia. }
    destruct (Z.land wire 7 =? 2).
    { destruct (read_varint_total int64 (fun z => - 2 ^ 63 <= z < 2 ^ 63) dAtA i1
                  int64_accumulates int64_zero ltac:(lia)) as (r & -> & Hread).
      cbn [exec_bind]. destruct r as [err|[length i2]]; [ends_in_error|].
      destruct (Hread length i2 eq_refl) as [Hi2 Hrange].
      destruct (Z.ltb_spec length 0); [ends_in_error|].
      destruct (Z.ltb_spec (int64 (i2 + length)) 0); [ends_in_error|].
      eexists. split; [reflexivity|]. intros n Heq. injection Heq as <-.
      pose proof (int64_range (i2 + length)) as Hr.
      exact_sum.
      lia. }
    destruct (Z.land wire 7 =? 3).
    { destruct (IHg dAtA i1 ltac:(lia)
                  ltac:(change (2 ^ 63) with 9223372036854775808; lia) ltac:(lia))
        as (r & Hr & Hgroup).
      exists r. split; [exact Hr|]. intros n ->.
      pose proof (Hgroup n eq_refl). lia. }
    destruct (Z.land wire 7 =? 4).
    { eexists. split; [reflexivity|]. intros n Heq. injection Heq as <-.
      change (2 ^ 63) with 9223372036854775808. lia. }
    destruct (Z.land wire 7 =? 5).
    { eexists. split; [reflexivity|]. intros n Heq. injection Heq as <-.
      rewrite int64_small by (change (2 ^ 63) with 9223372036854775808; lia).
      change (2 ^ 63) with 9223372036854775808. lia. }
    ends_in_error.
  - intros dAtA iNdEx Hlen Hi Hbudget. cbn [skipGroup_run].
    destruct (read_varint_total uint64 (fun _ => True) dAtA iNdEx ltac:(auto) I ltac:(lia))
      as (r & -> & Hspec).
    cbn [exec_bind]. destruct r as [err|[innerWire i1]]; [ends_in_error|].
    destruct (Hspec innerWire i1 eq_refl) as [Hi1 _].
    destruct (Z.land innerWire 7 =? 4).
    { eexists. split; [reflexivity|]. intros n Heq. injection Heq as <-.
      change (2 ^ 63) with 9223372036854775808. lia. }
    destruct (slice_total dAtA iNdEx (len dAtA) ltac:(lia) ltac:(lia)) as (tail & -> & Htail).
    cbn [exec_bind].
    destruct (IHs tail ltac:(lia) ltac:(lia)) as (r & -> & Hnext).
    cbn [exec_bind]. destruct r as [err|next]; [ends_in_error|].
    pose proof (Hnext next eq_refl) as Hn.
    pose proof (int64_range (iNdEx + next)) as Hr.
    destruct (Z.ltb_spec (int64 (iNdEx + next)) 0); [ends_in_error|].
    exact_sum.
    destruct (IHg dAtA (iNdEx + next) ltac:(lia) ltac:(lia) ltac:(lia))
      as (r & Hr' & Hgroup).
    exists r. split; [exact Hr'|]. intros n ->.
    pose proof (Hgroup n eq_refl). lia.
Qed.

Lemma skipIdentity_total (dAtA : list byte) :
  1 <= len dAtA < 2 ^ 62 ->
  exists r, skipIdentity dAtA = Fin r /\ (forall n, r = inr n -> 1 <= n < 2 ^ 63).
Proof.
  intros Hlen. unfold skipIdentity.
  apply (proj1 (skip_runs_total (2 * length dAtA + 2))); [exact Hlen|].
  unfold len. lia.
Qed.

Lemma read_payload_total (dAtA : list byte) (iNdEx length : Z) :
  len dAtA < 2 ^ 62 ->
  0 <= iNdEx <= len dAtA ->
  - 2 ^ 63 <= length < 2 ^ 63 ->
  exists r,
    read_payload dAtA (len dAtA) iNdEx length = Fin r
    /\ (forall payload postIndex, r = inr (payload, postIndex) ->
          iNdEx <= postIndex <= len dAtA).
Proof.
  intros Hlen Hi Hrange. unfold read_payload.
  change (2 ^ 62) with 4611686018427387904 in *.
  destruct (Z.ltb_spec length 0); [ends_in_error|].
  destruct (Z.ltb_spec (int64 (iNdEx + length)) 0); [ends_in_error|].
  exact_sum.
  destruct (Z.ltb_spec (len dAtA) (iNdEx + length)); [ends_in_error|].
  destruct (slice_total dAtA iNdEx (iNdEx + length) ltac:(lia) ltac:(lia)) as (t & -> & _).
  cbn [exec_bind]. eexists. split; [reflexivity|].
  intros payload postIndex Heq. injection Heq as <- <-. lia.
Qed.

Ltac returns_the_receiver :=
  do 2 eexists; split; [reflexivity|]; exists []; now rewrite app_nil_r.

(** The loop of [Unmarshal] returns when the budget is the input that is
    left, and what it answers holds the receiver's unknown bytes at the
    front of its own. *)
Lemma Unmarshal_loop_total (budget : nat) :
  forall m dAtA iNdEx,
    len dAtA < 2 ^ 62 ->
    0 <= iNdEx ->
    len dAtA - iNdEx <= Z.of_nat budget ->
    exists m' err,
      Unmarshal_loop budget m dAtA (len dAtA) iNdEx = Fin (m', err)
      /\ exists more, XXX_unrecognized m' = XXX_unrecognized m ++ more.
Proof.
  induction budget as [|budget IH]; intros m dAtA iNdEx Hlen Hi Hbudget.
  - cbn [Unmarshal_loop].
    destruct (Z.ltb_spec iNdEx (len dAtA)); [lia|].
    destruct (Z.ltb_spec (len dAtA) iNdEx); returns_the_receiver.
  - cbn [Unmarshal_loop].
    destruct (Z.ltb_spec iNdEx (len dAtA));
      [|destruct (Z.ltb_spec (len dAtA) iNdEx); returns_the_receiver].
    destruct (read_varint_total uint64 (fun _ => True) dAtA iNdEx ltac:(auto) I Hi)
      as (r & -> & Hspec).
    cbn [exec_bind]. destruct r as [err|[wire i1]]; [returns_the_receiver|].
    destruct (Hspec wire i1 eq_refl) as [Hi1 _].
    destruct (Z.land wire 7 =? 4); [returns_the_receiver|].
    destruct (int32 (Z.shiftr wire 3) <=? 0); [returns_the_receiver|].
    destruct (int32 (Z.shiftr wire 3) =? 1).
    { destruct (Z.land wire 7 =? 2); cbn [negb]; [|returns_the_receiver].
      destruct (read_varint_total uint64 (fun _ => True) dAtA i1 ltac:(auto) I ltac:(lia))
        as (r & -> & Hread).
      cbn [exec_bind]. destruct r as [err|[stringLen i2]]; [returns_the_receiver|].
      destruct (Hread stringLen i2 eq_refl) as [Hi2 _].
      destruct (read_payload_total dAtA i2 (int64 stringLen) Hlen ltac:(lia)
                  (int64_range stringLen)) as (r & -> & Hcut).
      cbn [exec_bind]. destruct r as [err|[payload postIndex]]; [returns_the_receiver|].
      pose proof (Hcut payload postIndex eq_refl).
      destruct (IH (set_NodeId (string_of_list_byte payload) m) dAtA postIndex Hlen
                  ltac:(lia) ltac:(lia)) as (m' & err & -> & more & Hmore).
      do 2 eexists. split; [reflexivity|]. exists more. exact Hmore. }
    destruct (int32 (Z.shiftr wire 3) =? 2).
    { destruct (Z.land wire 7 =? 2); cbn [negb]; [|returns_the_receiver].
      destruct (read_varint_total int64 (fun z => - 2 ^ 63 <= z < 2 ^ 63) dAtA i1
                  int64_accumulates int64_zero ltac:(lia)) as (r & -> & Hread).
      cbn [exec_bind]. destruct r as [err|[byteLen i2]]; [returns_the_receiver|].
      destruct (Hread byteLen i2 eq_refl) as [Hi2 Hrange].
      destruct (read_payload_total dAtA i2 byteLen Hlen ltac:(lia) Hrange)
        as (r & -> & Hcut).
      cbn [exec_bind]. destruct r as [err|[payload postIndex]]; [returns_the_receiver|].
      pose proof (Hcut payload postIndex eq_refl).
      destruct (IH (set_IdBytes payload m) dAtA postIndex Hlen
                  ltac:(lia) ltac:(lia)) as (m' & err & -> & more & Hmore).
      do 2 eexists. split; [reflexivity|]. exists more. exact Hmore. }
    destruct (slice_total dAtA iNdEx (len dAtA) ltac:(lia) ltac:(lia)) as (tail & -> & Htail).
    cbn [exec_bind].
    destruct (skipIdentity_total tail ltac:(lia)) as (r & -> & Hskip).
    cbn [exec_bind]. destruct r as [err|skippy]; [returns_the_receiver|].
    pose proof (Hskip skippy eq_refl) as Hskippy.
    destruct (Z.ltb_spec skippy 0); [returns_the_receiver|].
    destruct (Z.ltb_spec (int64 (iNdEx + skippy)) 0); [returns_the_receiver|].
    exact_sum.
    destruct (Z.ltb_spec (len dAtA) (iNdEx + skippy)); [returns_the_receiver|].
    destruct (slice_total dAtA iNdEx (iNdEx + skippy) ltac:(lia) ltac:(lia))
      as (unknown & -> & _).
    cbn [exec_bind].
    destruct (IH (set_XXX_unrecognized (XXX_unrecognized m ++ unknown) m) dAtA
                (iNdEx + skippy) Hlen ltac:(lia) ltac:(lia))
      as (m' & err & -> & more & Hmore).
    do 2 eexists. split; [reflexivity|]. exists (unknown ++ more).
    rewrite Hmore. cbn [XXX_unrecognized set_XXX_unrecognized]. now rewrite app_assoc.
Qed.



(** ** MarshalTo on a buffer that is too short *)

(** X28. [MarshalTo] does not check the room it is given and never
    answers an error. On a buffer shorter than the wire form it either
    panics or cuts the output short without a word: with an empty
    buffer and a field 1 or a field 2 to write, the store of the tag
    panics with an index out of range; with nothing but unknown bytes to
    write, [copy] writes as many of them as fit and [MarshalTo] answers
    the buffer's length as the count, with a nil error. *)
Theorem MarshalTo_short_buffer (m : SerializedIdentity) (dAtA : list byte) :
  len dAtA < len (wire_bytes m) ->
  (NodeId m = EmptyString -> IdBytes m = [] ->
   MarshalTo m dAtA = Fin (take (length dAtA) (XXX_unrecognized m), len dAtA))
  /\ (dAtA = [] -> NodeId m <> EmptyString \/ IdBytes m <> [] ->
      MarshalTo m dAtA = Crash "index out of range").
Proof.
  intros Hshort. split.
  - intros Hn Hb. unfold wire_bytes in Hshort. unfold MarshalTo.
    rewrite Hn, Hb in *.
    change (list_byte_of_string EmptyString) with (@nil byte) in *.
    cbn [field_bytes app] in Hshort.
    change (0 <? len []) with false. cbn [exec_bind].
    unfold copy_at. pose proof (len_nonneg dAtA) as Hd.
    destruct (Z.leb_spec 0 (len dAtA)); [|lia].
    change (0 <=? 0) with true. cbn [andb exec_bind].
    rewrite Z.sub_0_r, Z.min_l by lia.
    change (Z.to_nat 0) with 0%nat. rewrite take_0, Z.add_0_l.
    unfold len. rewrite Nat2Z.id, drop_all, app_nil_l, app_nil_r. reflexivity.
  - intros -> Hfield. unfold MarshalTo.
    destruct (NodeId m) as [|a s] eqn:Hn.
    + destruct (IdBytes m) as [|b bs] eqn:Hb; [destruct Hfield; congruence|].
      change (list_byte_of_string EmptyString) with (@nil byte).
      change (0 <? len []) with false. cbn [exec_bind].
      rewrite len_cons. pose proof (len_nonneg bs).
      destruct (Z.ltb_spec 0 (1 + len bs)); [|lia]. reflexivity.
    + change (list_byte_of_string (String a s))
        with (byte_of_ascii a :: list_byte_of_string s).
      rewrite len_cons.
      pose proof (len_nonneg (list_byte_of_string s)).
      destruct (Z.ltb_spec 0 (1 + len (list_byte_of_string s))); [|lia]. reflexivity.
Qed.

End identity_facts.

(** ** The properties on the sample instance *)

#[local] Existing Instance sample.collaborators.

Example hex_EncodeToString_sample : hex_EncodeToString [x0a; xff; x10] = "0aff10".
Proof. reflexivity. Qed.

Example GenerateMAC_sample :
  hex_EncodeToString (GenerateMAC sample.pA "c1") = "0a6331".
Proof. reflexivity. Qed.

Example partitionMessages_sample :
  let alive := {| emitted_msg := sample.alive_msg "b:7050" sample.pB;
                  emitted_filter := fun _ => true |} in
  let state := {| emitted_msg := sample.chain_state_msg (sample.chain_state 1 [] [] []);
                  emitted_filter := fun _ => true |} in
  partitionMessages (fun o => IsChainStateMsg (emitted_msg o)) [alive; state; alive]
  = ([state], [alive; alive]).
Proof. reflexivity. Qed.

Example Stop_sample :
  let g := sample.service 1 ∅ in
  calls (snd (Stop g))
  = [disc_Stop; chanState_stop; toDieChan_send; emitter_Stop;
     ChannelDeMultiplexer_Close; stopSignal_Wait; srv_Stop]
  /\ fst (Peers g) = Returns [sample.peerB; sample.peerC]
  /\ fst (Peers (snd (Stop g))) = Returns [].
Proof. repeat split. Qed.

Example InitializeChannel_sample :
  let g := sample.service 1 ∅ in
  let good := sample.chain_state 1 (sample.pA ++ list_byte_of_string "c1") sample.pA sample.pA in
  fst (InitializeChannel "c1" good g) = Returns None
  /\ chanState (snd (InitializeChannel "c1" good g)) !! "c1" = Some []
  /\ fst (InitializeChannel "c1" (sample.chain_state 1 [x01] sample.pA sample.pA) g)
     = Returns (Some (errors_Errorf "Channel MAC doesn't match, expected: %s, actual: %s"
                        [arg_string "0a6331"; arg_string "01"])).
Proof. repeat split. Qed.

Lemma firstn_keeps_In {A} (n : nat) (l : list A) (x : A) :
  In x (firstn n l) -> In x l.
Proof.
  revert l. induction n as [|n IH]; intros [|y l]; simpl; try easy.
  intros [->|Hin]; auto.
Qed.

Lemma sample_select_sound (k : Z) (members : list NetworkMember) (f : RoutingFilter)
    (p : NetworkMember) :
  In p (sample.select k members f) -> In p members /\ f p = true.
Proof.
  unfold sample.select. intros Hin. apply firstn_keeps_In in Hin.
  now apply filter_In in Hin.
Qed.

(** C1, as the code stands. A chain-state message from peer B whose
    signature does not verify and which is no membership request passes
    [validateMsg], which looks at the tag only, and [handleMessage] hands
    it to the emitter for further gossip without calling a verifier. *)
Theorem handleMessage_accepts_unverified_signature :
  let forged := sample.chain_state_msg (sample.chain_state 1 [x01] [x01] [xff]) in
  let m := sample.received sample.pB forged in
  let g := sample.service 1 ∅ in
  Verify forged sample.pB idMapper_Verify = Some (errors_New "bad signature")
  /\ GetMemReq (Signed_RKSyncMessage forged) = None
  /\ validateMsg m g = (Returns true, g)
  /\ fst (handleMessage (Some m) g) = Returns tt
  /\ List.map emitted_msg (emitter_adds (calls (snd (handleMessage (Some m) g)))) = [forged].
Proof. repeat split. Qed.

Lemma gossipBatch_recipients_witness :
  let g := sample.service 1 (<["c1" := [sample.pC]]> ∅) in
  let batch :=
    [ {| emitted_msg := sample.alive_msg "b:7050" sample.pB;
         emitted_filter := IsNotSameFilter sample.pB |};
      {| emitted_msg := sample.chain_state_msg (sample.chain_state 1 [x01] sample.pB sample.pA);
         emitted_filter := IsNotSameFilter sample.pB |} ] in
  (forall k members f p, In p (SelectPeers k members f) -> In p members /\ f p = true)
  /\ exists sends,
       gossipBatch batch g = (Returns tt, set_calls (calls g ++ sends) g)
       /\ forall c, In c sends ->
            exists e peers,
              c = srv_Send (emitted_msg e) peers
              /\ In e batch
              /\ forall p, In p peers ->
                   In p [sample.peerB; sample.peerC]
                   /\ emitted_filter e (PKIID p) = true.
Proof.
  intros g batch. split; [exact sample_select_sound|].
  destruct (gossipBatch_recipients g batch sample_select_sound) as (sends & Hrun & Hall).
  exists sends. split; [exact Hrun|].
  intros c Hc. destruct (Hall c Hc) as (e & peers & d & Hsend & Hin & Hd & Hp).
  exists e, peers. split; [exact Hsend|]. split; [exact Hin|].
  intros p Hpin. destruct (Hp p Hpin) as (Hmem & Hfilter & _).
  injection Hd as <-. split; assumption.
Defined.

Lemma InitializeChannel_rejects_atomically_witness :
  let g := sample.service 1 ∅ in
  let chainState := sample.chain_state 1 [x01] sample.pA sample.pA in
  (ChainMac chainState <> GenerateMAC (selfPKIid g) "c1" /\ toDie g = false)
  /\ exists e,
       InitializeChannel "c1" chainState g = (Returns (Some e), g)
       /\ is_invalid_input e = true.
Proof.
  intros g chainState.
  assert (Hmac : ChainMac chainState <> GenerateMAC (selfPKIid g) "c1")
    by (vm_compute; discriminate).
  split; [split; [exact Hmac | reflexivity]|].
  exact (proj1 (InitializeChannel_rejects_atomically g "c1" chainState) Hmac eq_refl).
Defined.

Lemma handleMessage_chain_state_witness :
  let g := sample.service 1 ∅ in
  let msg := sample.chain_state_msg (sample.chain_state 1 [x01] sample.pB sample.pA) in
  let m := sample.received sample.pB msg in
  let ci := {| ID := sample.pB; ConnectionInfo_Identity := [] |} in
  (toDie g = false
   /\ GetRKSyncMessage m = Some msg
   /\ IsTagLegal (Signed_RKSyncMessage msg) = None
   /\ IsChainStateMsg msg = true
   /\ GetConnectionInfo m = Some ci)
  /\ calls (snd (handleMessage (Some m) g))
     = [emitter_Add {| emitted_msg := msg; emitted_filter := IsNotSameFilter sample.pB |};
        chainStateMsgStore_Add msg;
        chanState_joinChannel "c1" false;
        gc_HandleMessage "c1" m].
Proof.
  intros g msg m ci. split; [repeat split|].
  destruct (handleMessage_chain_state g m msg ci eq_refl eq_refl eq_refl eq_refl eq_refl)
    as (rest & Hcalls & _ & _ & _ & _ & _ & _ & Hjoin).
  rewrite Hcalls, Hjoin; [reflexivity | reflexivity | reflexivity |].
  eexists _, _. split; [reflexivity|]. split; [reflexivity|].
  simpl. auto.
Defined.

Lemma handleMessage_membership_request_witness :
  let g := sample.service 1 ∅ in
  let selfInfo := {| Payload := sample.pB; Signature := sample.pB |} in
  let memReq := {| SelfInformation := Some selfInfo; Known := [] |} in
  let msg := sample.mem_req_msg (Some selfInfo) [] in
  let m := sample.received sample.pB msg in
  (GetRKSyncMessage m = Some msg /\ GetMemReq (Signed_RKSyncMessage msg) = Some memReq)
  /\ handleMessage (Some m) g = (Returns tt, set_calls (calls g ++ [incChan_send m]) g).
Proof.
  intros g selfInfo memReq msg m. split; [split; reflexivity|].
  apply (proj2 (handleMessage_membership_request g m msg memReq eq_refl eq_refl));
    try reflexivity.
  eexists _, _, _, _. repeat split.
Defined.

Lemma disclosurePolicy_default_witness :
  let m := sample.alive_msg "b:7050" sample.pB in
  IsAliveMsg m = true
  /\ fst (disclosurePolicy sample.peerC) m = Returns true
  /\ snd (disclosurePolicy sample.peerC) m = Signed_Envelope m.
Proof.
  intros m.
  destruct (disclosurePolicy_default m sample.peerC) as (Halive & Hfilter & _).
  destruct (Halive eq_refl) as (Hiff & _).
  split; [reflexivity|]. split; [|exact Hfilter].
  apply Hiff. eexists _, _. repeat split; discriminate.
Defined.

Lemma GetPKIidOfCert_digest_witness :
  let cert := {| Raw := [x30; x82] |} in
  let pemBytes := list_byte_of_string "CERTIFICATE" ++ [x30; x82] in
  pem_EncodeToMemory {| pem_Type := "CERTIFICATE"; pem_Bytes := Raw cert |} = Some pemBytes
  /\ GetPKIidOfCert "A" cert = Ok (ComputeSHA256 (list_byte_of_string "A" ++ pemBytes)).
Proof.
  intros cert pemBytes. split; [reflexivity|].
  exact (proj1 (GetPKIidOfCert_digest "A" cert) pemBytes eq_refl).
Defined.

Lemma SendToPeer_membership_request_witness :
  let g := sample.service 1 ∅ in
  let selfInfo := {| Payload := sample.pA; Signature := sample.pA |} in
  let memReq := {| SelfInformation := Some selfInfo; Known := [sample.pC] |} in
  let msg := sample.mem_req_msg (Some selfInfo) [sample.pC] in
  (GetMemReq (Signed_RKSyncMessage msg) = Some memReq /\ PKIID sample.peerB <> [])
  /\ exists sent,
       SendToPeer sample.peerB msg g
       = (Returns tt, set_calls (calls g ++ [srv_Send sent [sample.peerB]]) g)
       /\ Signed_RKSyncMessage sent = Signed_RKSyncMessage msg.
Proof.
  intros g selfInfo memReq msg.
  assert (Hpki : PKIID sample.peerB <> []) by discriminate.
  split; [split; [reflexivity | exact Hpki]|].
  destruct (proj2 (SendToPeer_membership_request g sample.peerB msg memReq eq_refl Hpki)
              _ eq_refl eq_refl _ eq_refl) as (sent & Hrun & Hinner).
  exists sent. split; [exact Hrun|]. rewrite Hinner. reflexivity.
Defined.

Lemma zero_iterations_suppress_gossip_witness :
  let g := sample.service 0 ∅ in
  let msg := sample.alive_msg "a:7050" sample.pA in
  PropagateIterations (conf g) = 0
  /\ Gossip msg g = (Returns tt, g)
  /\ Forward (sample.received sample.pB msg) g = (Returns tt, g).
Proof.
  intros g msg. split; [reflexivity|].
  destruct (zero_iterations_suppress_gossip g msg (sample.received sample.pB msg) eq_refl)
    as (HG & HF & _).
  split; assumption.
Defined.

(** ** The further properties on the sample instance *)

#[local] Existing Instance sample_channels.methods.
#[local] Existing Instance sample_channels.bootstrap.

Lemma handleMessage_drops_witness :
  let g := sample.service 1 ∅ in
  let msg := sample.alive_msg "b:7050" sample.pB in
  let stray :=
    {| Signed_Envelope := Signed_Envelope msg;
       Signed_RKSyncMessage := {| Nonce := 0; Channel := []; Tag := CHAN_ONLY;
                                  Content := Content (Signed_RKSyncMessage msg) |} |} in
  IsTagLegal (Signed_RKSyncMessage stray) = Some (errors_New "Tag should be EMPTY")
  /\ handleMessage (Some (sample.received sample.pB stray)) g = (Returns tt, g).
Proof.
  intros g msg stray. split; [reflexivity|].
  apply handleMessage_drops. right. right.
  exists (sample.received sample.pB stray), stray, (errors_New "Tag should be EMPTY").
  repeat split.
Defined.

Lemma handleMessage_channel_restricted_witness :
  let g := sample.service 1 (<["c1" := [sample.pA; sample.pB]]> ∅) in
  let msg :=
    {| Signed_Envelope := None;
       Signed_RKSyncMessage :=
         {| Nonce := 0; Channel := list_byte_of_string "c1"; Tag := CHAN_ONLY;
            Content := RKSyncMessage_StatePullRequest {| PullRequest_ChainMac := [x01] |} |} |} in
  let m := sample.received sample.pB msg in
  (toDie g = false
   /\ GetRKSyncMessage m = Some msg
   /\ IsTagLegal (Signed_RKSyncMessage msg) = None
   /\ IsChainStateMsg msg = false
   /\ IsChannelRestricted (Signed_RKSyncMessage msg) = true)
  /\ calls (snd (handleMessage (Some m) g)) = [gc_HandleMessage "c1" m].
Proof.
  intros g msg m. split; [repeat split|].
  destruct (handleMessage_channel_restricted g m msg eq_refl eq_refl eq_refl eq_refl eq_refl)
    as (_ & Hcalls & _).
  rewrite Hcalls. reflexivity.
Defined.

Lemma handleMessage_discovery_messages_witness :
  let g := sample.service 1 ∅ in
  let msg := sample.alive_msg "b:7050" sample.pB in
  let m := sample.received sample.pC msg in
  (toDie g = false
   /\ GetRKSyncMessage m = Some msg
   /\ IsTagLegal (Signed_RKSyncMessage msg) = None
   /\ IsChainStateMsg msg = false
   /\ IsChannelRestricted (Signed_RKSyncMessage msg) = false
   /\ GetMemReq (Signed_RKSyncMessage msg) = None)
  /\ handleMessage (Some m) g = (Returns tt, set_calls [incChan_send m] g).
Proof.
  intros g msg m. split; [repeat split|].
  exact (handleMessage_discovery_messages g m msg eq_refl eq_refl eq_refl eq_refl eq_refl eq_refl).
Defined.


Lemma SendToPeer_default_policy_witness :
  let g := sample.service 1 ∅ in
  let selfInfo := {| Payload := sample.pA; Signature := sample.pA |} in
  let memReq := {| SelfInformation := Some selfInfo; Known := [sample.pC] |} in
  let msg := sample.mem_req_msg (Some selfInfo) [sample.pC] in
  let sent := with_Envelope (Some {| Payload := []; Signature := [] |}) msg in
  (da_disclosurePolicy (discAdapter g) = disclosurePolicy
   /\ GetMemReq (Signed_RKSyncMessage msg) = Some memReq
   /\ snd (SendToPeer sample.peerB msg g)
      = set_calls (calls g ++ [srv_Send sent [sample.peerB]]) g)
  /\ Signed_RKSyncMessage sent = Signed_RKSyncMessage msg.
Proof.
  intros g selfInfo memReq msg sent. split; [repeat split|].
  apply (proj2 (SendToPeer_default_policy g sample.peerB msg sent memReq _
                  eq_refl eq_refl eq_refl eq_refl)).
  reflexivity.
Defined.

Lemma Gossip_and_Forward_emit_witness :
  let g := sample.service 1 ∅ in
  let msg := sample.alive_msg "b:7050" sample.pB in
  let rm := sample.received sample.pB msg in
  let ci := {| ID := sample.pB; ConnectionInfo_Identity := [] |} in
  (GetRKSyncMessage rm = Some msg /\ GetConnectionInfo rm = Some ci)
  /\ List.map emitted_msg (emitter_adds (calls (snd (Forward rm g)))) = [msg].
Proof.
  intros g msg rm ci. split; [split; reflexivity|].
  destruct (proj2 (Gossip_and_Forward_emit g msg rm msg ci eq_refl eq_refl) eq_refl)
    as (e1 & e2 & _ & _ & _ & HF & He2 & _); [discriminate|].
  rewrite HF. simpl. now rewrite He2.
Defined.

Lemma forwarded_message_not_echoed_witness :
  let g := sample.service 1 ∅ in
  let msg := sample.alive_msg "b:7050" sample.pB in
  let rm := sample.received sample.pB msg in
  let ci := {| ID := sample.pB; ConnectionInfo_Identity := [] |} in
  ((forall k members f p, In p (SelectPeers k members f) -> In p members /\ f p = true)
   /\ GetRKSyncMessage rm = Some msg
   /\ GetConnectionInfo rm = Some ci
   /\ da_toDie (discAdapter g) = false
   /\ PropagateIterations (conf g) <> 0)
  /\ exists e,
       emitter_adds (calls (snd (Forward rm g))) = emitter_adds (calls g) ++ [e]
       /\ exists sends,
            srv_sends (calls (snd (gossipBatch [e] g))) = srv_sends (calls g) ++ sends
            /\ forall sent peers p,
                 In (sent, peers) sends -> In p peers -> sent = msg /\ PKIID p <> ID ci.
Proof.
  intros g msg rm ci.
  assert (Hiter : PropagateIterations (conf g) <> 0) by discriminate.
  split.
  { split; [exact sample_select_sound|].
    split; [reflexivity|]. split; [reflexivity|]. split; [reflexivity | exact Hiter]. }
  exact (forwarded_message_not_echoed g g rm msg ci sample_select_sound
           eq_refl eq_refl eq_refl Hiter).
Defined.

Lemma InitializeChannel_accepts_witness :
  let g := sample.service 1 ∅ in
  let chainState :=
    sample.chain_state 1 (sample.pA ++ list_byte_of_string "c1") sample.pA sample.pA in
  (toDie g = false /\ ChainMac chainState = GenerateMAC (selfPKIid g) "c1")
  /\ fst (InitializeChannel "c1" chainState g) = Returns None
  /\ calls (snd (InitializeChannel "c1" chainState g))
     = [chanState_joinChannel "c1" true; gc_InitializeWithChainState "c1" chainState].
Proof.
  intros g chainState. split; [split; reflexivity|].
  assert (Hid : "c1" <> "") by discriminate.
  destruct (InitializeChannel_accepts g "c1" chainState _ _ Hid
              eq_refl eq_refl eq_refl eq_refl eq_refl eq_refl) as (Hret & Hcalls & _).
  split; [exact Hret | exact Hcalls].
Defined.

Lemma operations_on_unknown_channel_witness :
  let g := sample.service 1 ∅ in
  getChannelByChainID g "c1" = None
  /\ SelfChannelInfo "c1" g = (Returns None, g)
  /\ AddMemberToChan "c1" sample.pB g
     = (Returns (None, Some (errors_Errorf "Channel %s not yet created" [arg_string "c1"])), g).
Proof.
  intros g. split; [reflexivity|].
  destruct (operations_on_unknown_channel g "c1" sample.pB (sample_channels.file "f") eq_refl)
    as (Hself & Hadd & _).
  split; assumption.
Defined.

Example CreateChannel_sample :
  let g := sample.service 1 ∅ in
  fst (CreateChannel "c1" [sample_channels.file "f"] g)
  = Returns (Some (sample_channels.state_of [sample.pA]), None)
  /\ fst (AddMemberToChan "c1" sample.pB (snd (CreateChannel "c1" [sample_channels.file "f"] g)))
     = Returns (Some (sample_channels.state_of [sample.pA; sample.pB]), None)
  /\ fst (CreateChannel "" [sample_channels.file "f"] g)
     = Returns (None, Some (errors_New "Channel ID must be provided")).
Proof. repeat split. Qed.

Example identifier_sample :
  identifier "b:7050" = Ok [x62] /\ identifier "" = Err (errors_New "no endpoint").
Proof. split; reflexivity. Qed.

(** ** The codec on concrete identities *)

Section identity_samples.
Import identity_pb.

Lemma sovIdentity_counts_groups_witness :
  exists n,
    sovIdentity 300 = Fin n
    /\ 1 <= n <= 10
    /\ 300 < 2 ^ (7 * n)
    /\ (1 < n -> 2 ^ (7 * (n - 1)) <= 300).
Proof. apply (sovIdentity_counts_groups 300). split; [lia | reflexivity]. Defined.

Lemma encodeVarintIdentity_in_place_witness :
  (exists dAtA',
      encodeVarintIdentity [x00; x00; x00] 1 300 = Fin (dAtA', 3)
      /\ len dAtA' = 3
      /\ take 1 dAtA' = [x00]
      /\ drop 3 dAtA' = [])
  /\ encodeVarintIdentity [x00; x00] 1 300 = Crash "index out of range".
Proof.
  split.
  - apply (proj1 (encodeVarintIdentity_in_place [x00; x00; x00] 1 300 2
                    ltac:(split; [lia | reflexivity]) ltac:(lia) eq_refl)).
    vm_compute. discriminate.
  - apply (proj2 (encodeVarintIdentity_in_place [x00; x00] 1 300 2
                    ltac:(split; [lia | reflexivity]) ltac:(lia) eq_refl)).
    reflexivity.
Defined.

Lemma varint_round_trip_witness :
  encodeVarintIdentity [x00; x00; x00] 1 300 = Fin ([x00; xac; x02], 3)
  /\ read_varint uint64 [x00; xac; x02] 3 1 = Fin (inr (300, 3))
  /\ read_varint int64 [x00; xac; x02] 3 1 = Fin (inr (300, 3)).
Proof.
  split; [reflexivity|].
  destruct (varint_round_trip [x00; x00; x00] [x00; xac; x02] 1 300 3
              ltac:(split; [lia | reflexivity]) ltac:(lia) eq_refl) as [Hu Hi].
  split; [exact Hu | apply Hi; reflexivity].
Defined.

Lemma Marshal_layout_witness :
  let m := {| NodeId := "ab"; IdBytes := [x01; x02; x03]; XXX_unrecognized := [xff] |} in
  Marshal m = Fin [x0a; x02; x61; x62; x12; x03; x01; x02; x03; xff]
  /\ Size m = Fin 10.
Proof.
  intros m. exact (Marshal_layout m eq_refl eq_refl).
Defined.

Lemma Unmarshal_reads_Marshal_witness :
  let m := {| NodeId := "ab"; IdBytes := []; XXX_unrecognized := [] |} in
  let m0 := {| NodeId := "old"; IdBytes := [x07]; XXX_unrecognized := [] |} in
  exists bytes,
    Marshal m = Fin bytes
    /\ Unmarshal m0 bytes
       = Fin ({| NodeId := "ab"; IdBytes := [x07]; XXX_unrecognized := [] |}, None).
Proof.
  intros m m0. exact (Unmarshal_reads_Marshal m m0 eq_refl eq_refl).
Defined.

Lemma Unmarshal_rejects_tag_witness :
  let m0 := {| NodeId := "old"; IdBytes := [x07]; XXX_unrecognized := [] |} in
  Unmarshal m0 [x0c; x01] = Fin (m0, Some ErrEndGroup)
  /\ Unmarshal m0 [x04; x01] = Fin (m0, Some ErrEndGroup)
  /\ Unmarshal m0 [x02; x01] = Fin (m0, Some (ErrIllegalTag 0 2))
  /\ Unmarshal m0 [x08; x01] = Fin (m0, Some (ErrWrongWireType 0 "NodeId"))
  /\ Unmarshal m0 [x15; x01] = Fin (m0, Some (ErrWrongWireType 5 "IdBytes")).
Proof.
  intros m0.
  split; [apply (proj1 (Unmarshal_rejects_tag m0 x0c [x01] eq_refl)); reflexivity|].
  split; [apply (proj1 (Unmarshal_rejects_tag m0 x04 [x01] eq_refl)); reflexivity|].
  split; [apply (proj1 (proj2 (Unmarshal_rejects_tag m0 x02 [x01] eq_refl)));
          [discriminate | reflexivity]|].
  split; [apply (proj1 (proj2 (proj2 (Unmarshal_rejects_tag m0 x08 [x01] eq_refl))));
          [discriminate | discriminate | reflexivity]|].
  apply (proj2 (proj2 (proj2 (Unmarshal_rejects_tag m0 x15 [x01] eq_refl))));
    [discriminate | discriminate | reflexivity].
Defined.


Lemma Unmarshal_keeps_fixed_width_field_witness :
  let m0 := {| NodeId := "old"; IdBytes := [x07]; XXX_unrecognized := [x00] |} in
  let fixed64 := [x19; x01; x02; x03; x04; x05; x06; x07; x08] in
  skipIdentity fixed64 = Fin (inr 9)
  /\ Unmarshal m0 fixed64
     = Fin ({| NodeId := "old"; IdBytes := [x07]; XXX_unrecognized := x00 :: fixed64 |}, None)
  /\ skipIdentity [x1d; x01] = Fin (inr 5)
  /\ Unmarshal m0 [x1d; x01] = Fin (m0, Some io_ErrUnexpectedEOF).
Proof.
  intros m0 fixed64.
  destruct (Unmarshal_keeps_fixed_width_field m0 x19 [x01; x02; x03; x04; x05; x06; x07; x08] 8
              eq_refl ltac:(discriminate) (or_introl (conj eq_refl eq_refl)))
    as (Hskip & Hkeep & _).
  destruct (Unmarshal_keeps_fixed_width_field m0 x1d [x01] 4
              eq_refl ltac:(discriminate) (or_intror (conj eq_refl eq_refl)))
    as (Hskip' & _ & Hshort).
  split; [exact Hskip|]. split; [exact (Hkeep eq_refl)|].
  split; [exact Hskip' | exact (Hshort eq_refl)].
Defined.



Lemma MarshalTo_short_buffer_witness :
  let unknown := {| NodeId := ""; IdBytes := []; XXX_unrecognized := [x19; x01; x02] |} in
  let named := {| NodeId := "ab"; IdBytes := []; XXX_unrecognized := [] |} in
  Size unknown = Fin 3
  /\ MarshalTo unknown [x00; x00] = Fin ([x19; x01], 2)
  /\ MarshalTo named [] = Crash "index out of range".
Proof.
  intros unknown named. split; [reflexivity|]. split.
  - exact (proj1 (MarshalTo_short_buffer unknown [x00; x00] eq_refl) eq_refl eq_refl).
  - apply (proj2 (MarshalTo_short_buffer named [] eq_refl)); [reflexivity|].
    left. discriminate.
Defined.

End identity_samples.
